(** * Authentication and session core of the real-estate chat backend

    A shallow embedding of [backend/auth_service.py] (class [AuthService])
    and of the rate limiter and CSRF helper of [backend/auth_middleware.py],
    together with the properties of the specification that concern them.

    Modelling conventions
    - Python [str] values are Rocq strings; the character predicates
      [str.isupper], [str.islower] and [str.isdigit] are given on the ASCII
      range (bytes above 127 belong to no class).
    - [datetime] values are integers (microseconds); [time.time()] readings
      are rationals (seconds).  The clock shows one reading throughout a
      service call and moves between calls.
    - The SQLAlchemy session is a pair of table snapshots: the committed
      database and the view of the open transaction.  [commit] publishes the
      view, unless the database refuses it (a fault scheduled in the world, or
      a violated UNIQUE constraint), in which case the transaction is rolled
      back and the exception propagates.
    - Library primitives (PyJWT, bcrypt, [secrets], [hmac], [email_validator])
      are operations of the class [Externals]. *)

From Stdlib Require Import ZArith QArith Lia Lqa Ascii String List Bool.
From Stdlib Require Import DecimalString.
From Stdlib Require DecimalZ DecimalPos.
From stdpp Require Import base decidable option list strings gmap.

Local Open Scope string_scope.
Local Open Scope Z_scope.

(** ** Python built-ins on characters and strings *)

Definition is_ascii_between (lo hi : nat) (c : ascii) : bool :=
  (Nat.leb lo (nat_of_ascii c) && Nat.leb (nat_of_ascii c) hi)%bool.

(** [c.isupper()], [c.islower()], [c.isdigit()] for a one-character string. *)
Definition isupper (c : ascii) : bool := is_ascii_between 65 90 c.
Definition islower (c : ascii) : bool := is_ascii_between 97 122 c.
Definition isdigit (c : ascii) : bool := is_ascii_between 48 57 c.

(** [any(p(c) for c in s)] *)
Definition any_char (p : ascii -> bool) (s : string) : bool :=
  existsb p (list_ascii_of_string s).

(** [c in s] for a one-character [c]. *)
Definition char_in (s : string) (c : ascii) : bool :=
  existsb (Ascii.eqb c) (list_ascii_of_string s).

(** [len(s)] *)
Definition len (s : string) : Z := Z.of_nat (String.length s).

(** ** Credential store: [AuthService.validate_password_strength] *)

Record Requirements := {
  min_length : Z;
  has_uppercase : bool;
  has_lowercase : bool;
  has_digit : bool;
  has_special : bool
}.

Record PasswordValidation := {
  is_valid : bool;
  errors : list string;
  requirements : Requirements
}.

Definition special_chars : string := "!@#$%^&*()_+-=[]{}|;:,.<>?".

Definition msg_length : string := "Password must be at least 8 characters long".
Definition msg_uppercase : string := "Password must contain at least one uppercase letter".
Definition msg_lowercase : string := "Password must contain at least one lowercase letter".
Definition msg_digit : string := "Password must contain at least one number".
Definition msg_special : string := "Password must contain at least one special character".

(** [errors.append(m)] executed only when the rule is violated. *)
Definition append_unless (ok : bool) (m : string) (errs : list string) : list string :=
  if ok then errs else (errs ++ [m])%list.

Definition validate_password_strength (password : string) : PasswordValidation :=
  let errors0 : list string := [] in
  let errors1 := append_unless (negb (len password <? 8)) msg_length errors0 in
  let up := any_char isupper password in
  let errors2 := append_unless up msg_uppercase errors1 in
  let lo := any_char islower password in
  let errors3 := append_unless lo msg_lowercase errors2 in
  let dg := any_char isdigit password in
  let errors4 := append_unless dg msg_digit errors3 in
  let sp := any_char (char_in special_chars) password in
  let errors5 := append_unless sp msg_special errors4 in
  {| is_valid := Nat.eqb (length errors5) 0;
     errors := errors5;
     requirements := {| min_length := 8;
                        has_uppercase := up;
                        has_lowercase := lo;
                        has_digit := dg;
                        has_special := sp |} |}.

(** ** Data model: the rows of [models.py] used by the service *)

(** JSON columns and the dictionaries stored in them. *)
#[local] Unset Elimination Schemes.
Inductive Json :=
| JNull
| JBool (b : bool)
| JInt (n : Z)
| JStr (s : string)
| JObj (fields : list (string * Json)).
#[local] Set Elimination Schemes.

Definition empty_dict : Json := JObj [].

(** [d or {}] for an optional dictionary argument. *)
Definition or_empty_dict (d : option Json) : Json :=
  match d with
  | Some (JObj (f :: fs)) => JObj (f :: fs)
  | Some (JObj []) => empty_dict
  | Some j => j
  | None => empty_dict
  end.

(** A value passed where JSON is expected; [None] is serialised as null. *)
Definition json_of_option (d : option Json) : Json :=
  match d with Some j => j | None => JNull end.

Module Permission.
Record t := mk {
  id : Z;
  name : string;
  resource : string;
  action : string
}.
End Permission.

Module Role.
Record t := mk {
  id : Z;
  name : string;
  permissions : list Permission.t
}.
End Role.

Module User.
Record t := mk {
  id : Z;
  uuid : string;
  email : string;
  username : string;
  password_hash : string;
  first_name : string;
  last_name : string;
  phone : option string;
  avatar_url : option string;
  is_active : bool;
  is_verified : bool;
  last_login : option Z;
  company : option string;
  job_title : option string;
  license_number : option string;
  bio : option string;
  preferences : Json;
  roles : list Role.t   (* the rows reached through the [user_roles] association *)
}.

Definition set_password_hash (h : string) (u : t) : t :=
  mk (id u) (uuid u) (email u) (username u) h (first_name u) (last_name u)
     (phone u) (avatar_url u) (is_active u) (is_verified u) (last_login u)
     (company u) (job_title u) (license_number u) (bio u) (preferences u) (roles u).

Definition set_last_login (t0 : Z) (u : t) : t :=
  mk (id u) (uuid u) (email u) (username u) (password_hash u) (first_name u)
     (last_name u) (phone u) (avatar_url u) (is_active u) (is_verified u) (Some t0)
     (company u) (job_title u) (license_number u) (bio u) (preferences u) (roles u).

Definition set_is_active (b : bool) (u : t) : t :=
  mk (id u) (uuid u) (email u) (username u) (password_hash u) (first_name u)
     (last_name u) (phone u) (avatar_url u) b (is_verified u) (last_login u)
     (company u) (job_title u) (license_number u) (bio u) (preferences u) (roles u).
End User.

Module UserSession.
Record t := mk {
  id : Z;
  user_id : Z;
  session_token : string;
  refresh_token : string;
  device_info : Json;
  ip_address : option string;
  is_active : bool;
  expires_at : Z;
  created_at : Z;
  last_accessed : Z
}.

Definition set_is_active (b : bool) (s : t) : t :=
  mk (id s) (user_id s) (session_token s) (refresh_token s) (device_info s)
     (ip_address s) b (expires_at s) (created_at s) (last_accessed s).

Definition set_last_accessed (t0 : Z) (s : t) : t :=
  mk (id s) (user_id s) (session_token s) (refresh_token s) (device_info s)
     (ip_address s) (is_active s) (expires_at s) (created_at s) t0.
End UserSession.

Module PasswordReset.
Record t := mk {
  id : Z;
  user_id : Z;
  reset_token : string;
  expires_at : Z;
  used : bool;
  created_at : Z
}.

Definition set_used (b : bool) (r : t) : t :=
  mk (id r) (user_id r) (reset_token r) (expires_at r) b (created_at r).
End PasswordReset.

Module AuditLog.
Record t := mk {
  id : Z;
  user_id : option Z;
  action : string;
  details : Json;
  ip_address : option string;
  user_agent : option string;
  timestamp : Z
}.
End AuditLog.

Record Db := mkDb {
  users : list User.t;
  roles : list Role.t;
  user_sessions : list UserSession.t;
  password_resets : list PasswordReset.t;
  audit_logs : list AuditLog.t
}.

Definition with_users (f : list User.t -> list User.t) (d : Db) : Db :=
  mkDb (f (users d)) (roles d) (user_sessions d) (password_resets d) (audit_logs d).
Definition with_user_sessions (f : list UserSession.t -> list UserSession.t) (d : Db) : Db :=
  mkDb (users d) (roles d) (f (user_sessions d)) (password_resets d) (audit_logs d).
Definition with_password_resets (f : list PasswordReset.t -> list PasswordReset.t) (d : Db) : Db :=
  mkDb (users d) (roles d) (user_sessions d) (f (password_resets d)) (audit_logs d).
Definition with_audit_logs (f : list AuditLog.t -> list AuditLog.t) (d : Db) : Db :=
  mkDb (users d) (roles d) (user_sessions d) (password_resets d) (f (audit_logs d)).

(** The UNIQUE constraints of the schema, checked by the database when a
    transaction is flushed. *)
Definition unique_constraints (d : Db) : Prop :=
  NoDup (User.email <$> users d) ∧
  NoDup (User.username <$> users d) ∧
  NoDup (User.uuid <$> users d) ∧
  NoDup (UserSession.session_token <$> user_sessions d) ∧
  NoDup (UserSession.refresh_token <$> user_sessions d) ∧
  NoDup (PasswordReset.reset_token <$> password_resets d).

(** Autoincrement primary key of a new row. *)
Definition next_id {A} (pk : A -> Z) (table : list A) : Z :=
  1 + foldr Z.max 0 (pk <$> table).

(** ** Exceptions and the world the service runs in *)

Inductive Detail :=
| Message (text : string)
| MessageWithErrors (message : string) (errs : list string).

Inductive PyError := KeyError | AttributeError | IntegrityError | OperationalError.

Inductive Exn :=
| HTTPException (status_code : Z) (detail : Detail)
| PythonError (e : PyError).

Inductive Result (A : Type) :=
| Return (a : A)
| Raise (e : Exn).
Arguments Return {A} a.
Arguments Raise {A} e.

Record World := mkWorld {
  committed : Db;        (* what a new database session would see *)
  txn : Db;              (* the view of the open transaction *)
  faults : list bool;    (* outcome of the coming commits: [true] = the database fails *)
  clock : Z;             (* [datetime.utcnow()] *)
  entropy : nat          (* position in the random source *)
}.

Definition M (A : Type) : Type := World -> Result A * World.

Definition ret {A} (a : A) : M A := fun w => (Return a, w).
Definition raise {A} (e : Exn) : M A := fun w => (Raise e, w).
Definition bind {A B} (m : M A) (k : A -> M B) : M B :=
  fun w => match m w with
           | (Return a, w') => k a w'
           | (Raise e, w') => (Raise e, w')
           end.

Notation "'do' x <- m ; k" := (bind m (fun x => k))
  (at level 10, x pattern, m at level 100, k at level 200).
Notation "m ;; k" := (bind m (fun _ => k))
  (at level 100, k at level 200, right associativity).

(** [try: m  except Exception: h] *)
Definition try_except {A} (m : M A) (h : Exn -> M A) : M A :=
  fun w => match m w with
           | (Return a, w') => (Return a, w')
           | (Raise e, w') => h e w'
           end.

Definition utcnow : M Z := fun w => (Return (clock w), w).
Definition read_txn : M Db := fun w => (Return (txn w), w).
Definition modify_txn (f : Db -> Db) : M unit :=
  fun w => (Return tt, mkWorld (committed w) (f (txn w)) (faults w) (clock w) (entropy w)).
Definition draw : M nat :=
  fun w => (Return (entropy w),
            mkWorld (committed w) (txn w) (faults w) (clock w) (S (entropy w))).

(** [self.db.commit()]: the flush can be refused by the database, either by a
    scheduled fault or by a UNIQUE constraint; the transaction is then rolled
    back and the exception propagates to the caller. *)
Definition commit : M unit :=
  fun w =>
    match faults w with
    | true :: fs =>
        (Raise (PythonError OperationalError),
         mkWorld (committed w) (committed w) fs (clock w) (entropy w))
    | _ =>
        if bool_decide (unique_constraints (txn w))
        then (Return tt, mkWorld (txn w) (txn w) (tail (faults w)) (clock w) (entropy w))
        else (Raise (PythonError IntegrityError),
              mkWorld (committed w) (committed w) (tail (faults w)) (clock w) (entropy w))
    end.

(** The flush of a row whose NOT NULL column is [None]: always refused. *)
Definition commit_not_null_violation {A} : M A :=
  fun w =>
    (Raise (PythonError match faults w with
                        | true :: _ => OperationalError
                        | _ => IntegrityError
                        end),
     mkWorld (committed w) (committed w) (tail (faults w)) (clock w) (entropy w)).

(** [self.db.add(row)] *)
Definition add {A} (row : A) (table : list A) : list A := (table ++ [row])%list.

(** [query.filter(P).first()] on a table: the first matching row and its
    position (the ORM object that later assignments mutate). *)
Definition first {A} (P : A -> Prop) `{!∀ x, Decision (P x)} (table : list A)
  : option (nat * A) := list_find P table.

(** Attribute assignment on the ORM object obtained at position [i]. *)
Definition assign {A} (i : nat) (f : A -> A) (table : list A) : list A :=
  alter f i table.

(** [query.filter(P).update(...)]: bulk update of the matching rows. *)
Definition update_where {A} (P : A -> Prop) `{!∀ x, Decision (P x)} (f : A -> A)
  (table : list A) : list A :=
  (fun r => if decide (P r) then f r else r) <$> table.

(** ** Library primitives *)

(** The claims of a decoded JWT. *)
Record Payload := mkPayload {
  p_user_id : option Z;
  p_type : option string;
  p_exp : option Z;
  p_iat : option Z;
  p_jti : option string
}.

(** Outcome of PyJWT's validation of the registered claims at a given time. *)
Inductive ClaimCheck := ClaimsValid | SignatureExpired | ClaimsInvalid.

Class Externals := {
  (** [jwt.encode(payload, key, algorithm="HS256")] *)
  jwt_encode : Payload -> string -> string;
  (** signature verification and parsing of [jwt.decode(token, key, ...)] *)
  jwt_verify_signature : string -> string -> option Payload;
  (** time-dependent validation of [exp], [iat] in [jwt.decode] *)
  jwt_validate_claims : Payload -> Z -> ClaimCheck;
  (** [bcrypt.gensalt()], drawn from the random source *)
  bcrypt_gensalt : nat -> string;
  bcrypt_hashpw : string -> string -> string;
  bcrypt_checkpw : string -> string -> bool;
  (** [secrets.token_urlsafe(32)], drawn from the random source *)
  token_urlsafe : nat -> string;
  (** [str(uuid.uuid4())], drawn from the random source *)
  uuid4 : nat -> string;
  (** [email_validator.validate_email] succeeds *)
  validate_email : string -> bool;
  (** [hmac.new(key, msg, hashlib.sha256).hexdigest()] *)
  hmac_sha256_hexdigest : string -> string -> string
}.

Inductive JwtOutcome :=
| Decoded (payload : Payload)
| ExpiredSignatureError
| InvalidTokenError.

(** [timedelta] values in clock units (microseconds). *)
Definition timedelta_minutes (n : Z) : Z := n * 60 * 1000000.
Definition timedelta_hours (n : Z) : Z := n * 3600 * 1000000.
Definition timedelta_days (n : Z) : Z := n * 86400 * 1000000.

Record AuthService := mkAuthService {
  secret_key : string;
  access_token_expire_minutes : Z;
  refresh_token_expire_days : Z
}.

(** [AuthService(db)] with no environment overrides. *)
Definition default_auth_service : AuthService :=
  mkAuthService "your-secret-key-change-in-production" 30 7.

Record Tokens := mkTokens {
  access_token : string;
  t_refresh_token : string;
  token_type : string;
  expires_in : Z;
  t_expires_at : Z
}.

Definition HTTP_200_OK : Z := 200.
Definition HTTP_400_BAD_REQUEST : Z := 400.
Definition HTTP_401_UNAUTHORIZED : Z := 401.
Definition HTTP_404_NOT_FOUND : Z := 404.
Definition HTTP_500_INTERNAL_SERVER_ERROR : Z := 500.

Section Service.
Context `{Externals}.
Variable self : AuthService.

Definition jwt_decode (token : string) (now : Z) : JwtOutcome :=
  match jwt_verify_signature token (secret_key self) with
  | None => InvalidTokenError
  | Some payload =>
      match jwt_validate_claims payload now with
      | ClaimsValid => Decoded payload
      | SignatureExpired => ExpiredSignatureError
      | ClaimsInvalid => InvalidTokenError
      end
  end.

Definition hash_password (password : string) : M string :=
  do n <- draw;
  ret (bcrypt_hashpw password (bcrypt_gensalt n)).

Definition verify_password (password hashed_password : string) : bool :=
  bcrypt_checkpw password hashed_password.

Definition log_audit_event (action : string) (user_id : option Z) (details : option Json)
  (ip_address user_agent : option string) : M unit :=
  do now <- utcnow;
  do db <- read_txn;
  let audit_log :=
    AuditLog.mk (next_id AuditLog.id (audit_logs db)) user_id action
                (or_empty_dict details) ip_address user_agent now in
  modify_txn (with_audit_logs (add audit_log));;
  commit.

Definition generate_tokens (user_id : Z) (device_info : option Json) : M Tokens :=
  do now <- utcnow;
  let access_exp := now + timedelta_minutes (access_token_expire_minutes self) in
  let access_payload :=
    mkPayload (Some user_id) (Some "access") (Some access_exp) (Some now) None in
  let access_token := jwt_encode access_payload (secret_key self) in
  do n <- draw;
  let refresh_payload :=
    mkPayload (Some user_id) (Some "refresh")
              (Some (now + timedelta_days (refresh_token_expire_days self)))
              (Some now) (Some (token_urlsafe n)) in
  let refresh_token := jwt_encode refresh_payload (secret_key self) in
  do db <- read_txn;
  let session :=
    UserSession.mk (next_id UserSession.id (user_sessions db)) user_id
                   access_token refresh_token (or_empty_dict device_info) None true
                   (now + timedelta_days (refresh_token_expire_days self)) now now in
  modify_txn (with_user_sessions (add session));;
  commit;;
  ret (mkTokens access_token refresh_token "bearer"
                (access_token_expire_minutes self * 60) access_exp).

Definition unauthorized {A} (text : string) : M A :=
  raise (HTTPException HTTP_401_UNAUTHORIZED (Message text)).

Definition verify_token (token : string) (token_type : string) : M Payload :=
  do now <- utcnow;
  match jwt_decode token now with
  | ExpiredSignatureError => unauthorized "Token has expired"
  | InvalidTokenError => unauthorized "Invalid token"
  | Decoded payload =>
      if decide (p_type payload ≠ Some token_type)
      then unauthorized "Invalid token type"
      else
        (if decide (token_type = "access")
         then
           do db <- read_txn;
           match first (fun s => UserSession.session_token s = token
                                 ∧ UserSession.is_active s = true
                                 ∧ now < UserSession.expires_at s)
                       (user_sessions db) with
           | None => unauthorized "Token not found or expired"
           | Some (i, _) =>
               modify_txn (with_user_sessions
                             (assign i (UserSession.set_last_accessed now)));;
               commit
           end
         else ret tt);;
        ret payload
  end.

(** [payload["user_id"]] *)
Definition payload_user_id (payload : Payload) : M Z :=
  match p_user_id payload with
  | Some u => ret u
  | None => raise (PythonError KeyError)
  end.

Definition refresh_token (refresh_token : string) (device_info : option Json) : M Tokens :=
  do payload <- verify_token refresh_token "refresh";
  do user_id <- payload_user_id payload;
  do now <- utcnow;
  do db <- read_txn;
  match first (fun s => UserSession.refresh_token s = refresh_token
                        ∧ UserSession.user_id s = user_id
                        ∧ UserSession.is_active s = true
                        ∧ now < UserSession.expires_at s)
              (user_sessions db) with
  | None => unauthorized "Refresh token not found or expired"
  | Some (i, _) =>
      modify_txn (with_user_sessions (assign i (UserSession.set_is_active false)));;
      commit;;
      generate_tokens user_id device_info
  end.

Definition logout_user (access_token : string) : M bool :=
  do payload <- verify_token access_token "access";
  do user_id <- payload_user_id payload;
  do db <- read_txn;
  match first (fun s => UserSession.session_token s = access_token
                        ∧ UserSession.user_id s = user_id
                        ∧ UserSession.is_active s = true)
              (user_sessions db) with
  | Some (i, _) =>
      modify_txn (with_user_sessions (assign i (UserSession.set_is_active false)));;
      commit;;
      log_audit_event "logout" (Some user_id) (Some empty_dict) None None;;
      ret true
  | None => ret false
  end.

Record RegisteredUser := mkRegisteredUser {
  ru_user_id : Z;
  ru_uuid : string;
  ru_email : string;
  ru_username : string;
  ru_full_name : string;
  ru_roles : list string
}.

(** The [user_data] dictionary built by the route from [UserRegistration]:
    [email], [password], [first_name] and [last_name] are always present;
    [ud_username = None] means the key is absent, [Some None] that it is
    present with value [None]. *)
Record UserData := mkUserData {
  ud_email : string;
  ud_username : option (option string);
  ud_password : string;
  ud_first_name : string;
  ud_last_name : string;
  ud_phone : option string;
  ud_company : option string;
  ud_job_title : option string;
  ud_license_number : option string;
  ud_bio : option string;
  ud_preferences : option Json
}.

Definition bad_request {A} (d : Detail) : M A :=
  raise (HTTPException HTTP_400_BAD_REQUEST d).

Definition weak_password (v : PasswordValidation) : Detail :=
  MessageWithErrors "Password does not meet requirements" (errors v).

Definition register_user (user_data : UserData) (role_name : string) : M RegisteredUser :=
  if negb (validate_email (ud_email user_data))
  then bad_request (Message "Invalid email format")
  else
    let password_validation := validate_password_strength (ud_password user_data) in
    if negb (is_valid password_validation)
    then bad_request (weak_password password_validation)
    else
      let username :=
        match ud_username user_data with
        | None => Some (ud_email user_data)
        | Some v => v
        end in
      do db <- read_txn;
      match first (fun u => User.email u = ud_email user_data
                            ∨ Some (User.username u) = username) (users db) with
      | Some _ => bad_request (Message "User with this email or username already exists")
      | None =>
          match first (fun r => Role.name r = role_name) (roles db) with
          | None => bad_request (Message ("Role '" +:+ role_name +:+ "' not found"))
          | Some (_, role) =>
              do hashed_password <- hash_password (ud_password user_data);
              do n <- draw;
              match username with
              | None => commit_not_null_violation
              | Some uname =>
                  let user :=
                    User.mk (next_id User.id (users db)) (uuid4 n) (ud_email user_data)
                            uname hashed_password (ud_first_name user_data)
                            (ud_last_name user_data) (ud_phone user_data) None true false
                            None (ud_company user_data) (ud_job_title user_data)
                            (ud_license_number user_data) (ud_bio user_data)
                            (or_empty_dict (ud_preferences user_data)) [role] in
                  modify_txn (with_users (add user));;
                  commit;;
                  log_audit_event "user_registered" (Some (User.id user))
                                  (Some (JObj [("role", JStr role_name)])) None None;;
                  ret (mkRegisteredUser (User.id user) (User.uuid user) (User.email user)
                         (User.username user)
                         (User.first_name user +:+ " " +:+ User.last_name user)
                         (Role.name <$> User.roles user))
              end
          end
      end.

Record AuthResult := mkAuthResult {
  ar_user : User.t;
  ar_roles : list string;
  ar_permissions : list string;
  ar_tokens : Tokens
}.

(** [list(set(...))]: the distinct permission strings (in first-occurrence
    order; Python leaves the order unspecified). *)
Definition get_user_permissions (user_id : Z) : M (list string) :=
  do db <- read_txn;
  match first (fun u => User.id u = user_id) (users db) with
  | None => ret []
  | Some (_, user) =>
      ret (remove_dups
             (role ← User.roles user;
              permission ← Role.permissions role;
              [Permission.action permission +:+ "_" +:+ Permission.resource permission]))
  end.

Definition has_permission (user_id : Z) (permission : string) : M bool :=
  do user_permissions <- get_user_permissions user_id;
  ret (bool_decide (permission ∈ user_permissions)).

Definition login_failed {A} (email : string) : M A :=
  log_audit_event "login_failed" None
    (Some (JObj [("email", JStr email); ("reason", JStr "invalid_credentials")]))
    None None;;
  unauthorized "Invalid email or password".

Definition authenticate_user (email password : string) (device_info : option Json)
  : M AuthResult :=
  do db <- read_txn;
  match first (fun u => (User.email u = email ∨ User.username u = email)
                        ∧ User.is_active u = true) (users db) with
  | None => login_failed email
  | Some (i, user0) =>
      if negb (verify_password password (User.password_hash user0))
      then login_failed email
      else
        do now <- utcnow;
        modify_txn (with_users (assign i (User.set_last_login now)));;
        commit;;
        let user := User.set_last_login now user0 in
        do tokens <- generate_tokens (User.id user) device_info;
        log_audit_event "login_success" (Some (User.id user))
          (Some (JObj [("device_info", json_of_option device_info)])) None None;;
        do permissions <- get_user_permissions (User.id user);
        ret (mkAuthResult user (Role.name <$> User.roles user) permissions tokens)
  end.

Definition get_current_user (access_token : string) : M User.t :=
  do payload <- verify_token access_token "access";
  do user_id <- payload_user_id payload;
  do db <- read_txn;
  match first (fun u => User.id u = user_id ∧ User.is_active u = true) (users db) with
  | None => unauthorized "User not found"
  | Some (_, user) => ret user
  end.

Definition reset_message : string :=
  "If an account with this email exists, a password reset link has been sent".

Definition create_password_reset_token (email : string) : M string :=
  do db <- read_txn;
  match first (fun u => User.email u = email ∧ User.is_active u = true) (users db) with
  | None =>
      (* Don't reveal if email exists *)
      raise (HTTPException HTTP_200_OK (Message reset_message))
  | Some (_, user) =>
      do n <- draw;
      let reset_token := token_urlsafe n in
      do now <- utcnow;
      let expires_at := now + timedelta_hours 1 in
      let password_reset :=
        PasswordReset.mk (next_id PasswordReset.id (password_resets db)) (User.id user)
                         reset_token expires_at false now in
      modify_txn (with_password_resets (add password_reset));;
      commit;;
      log_audit_event "password_reset_requested" (Some (User.id user))
                      (Some empty_dict) None None;;
      ret reset_token
  end.

Definition reset_password (reset_token new_password : string) : M bool :=
  let password_validation := validate_password_strength new_password in
  if negb (is_valid password_validation)
  then bad_request (weak_password password_validation)
  else
    do now <- utcnow;
    do db <- read_txn;
    match first (fun r => PasswordReset.reset_token r = reset_token
                          ∧ PasswordReset.used r = false
                          ∧ now < PasswordReset.expires_at r)
                (password_resets db) with
    | None => bad_request (Message "Invalid or expired reset token")
    | Some (j, password_reset) =>
        match first (fun u => User.id u = PasswordReset.user_id password_reset)
                    (users db) with
        | None =>
            (* [user] is [None]: the hash is computed, then the assignment fails *)
            do hashed <- hash_password new_password;
            raise (PythonError AttributeError)
        | Some (i, user) =>
            do hashed <- hash_password new_password;
            modify_txn (with_users (assign i (User.set_password_hash hashed)));;
            modify_txn (with_password_resets (assign j (PasswordReset.set_used true)));;
            modify_txn (with_user_sessions
                          (update_where (fun s => UserSession.user_id s = User.id user
                                                  ∧ UserSession.is_active s = true)
                                        (UserSession.set_is_active false)));;
            commit;;
            log_audit_event "password_reset_completed" (Some (User.id user))
                            (Some empty_dict) None None;;
            ret true
        end
    end.
Definition change_password (user_id : Z) (current_password new_password : string) : M bool :=
  do db <- read_txn;
  match first (fun u => User.id u = user_id) (users db) with
  | None => raise (HTTPException HTTP_404_NOT_FOUND (Message "User not found"))
  | Some (i, user) =>
      if negb (verify_password current_password (User.password_hash user))
      then bad_request (Message "Current password is incorrect")
      else
        let password_validation := validate_password_strength new_password in
        if negb (is_valid password_validation)
        then bad_request (weak_password password_validation)
        else
          do hashed <- hash_password new_password;
          modify_txn (with_users (assign i (User.set_password_hash hashed)));;
          commit;;
          log_audit_event "password_changed" (Some (User.id user))
                          (Some empty_dict) None None;;
          ret true
  end.

Definition deactivate_user (user_id admin_user_id : Z) : M bool :=
  do db <- read_txn;
  match first (fun u => User.id u = user_id) (users db) with
  | None => ret false
  | Some (i, _) =>
      modify_txn (with_users (assign i (User.set_is_active false)));;
      modify_txn (with_user_sessions
                    (update_where (fun s => UserSession.user_id s = user_id
                                            ∧ UserSession.is_active s = true)
                                  (UserSession.set_is_active false)));;
      commit;;
      log_audit_event "user_deactivated" (Some admin_user_id)
                      (Some (JObj [("deactivated_user_id", JInt user_id)])) None None;;
      ret true
  end.

Record SessionSummary := mkSessionSummary {
  ss_id : Z;
  ss_device_info : Json;
  ss_ip_address : option string;
  ss_created_at : Z;
  ss_last_accessed : Z;
  ss_expires_at : Z
}.

Definition get_user_sessions (user_id : Z) : M (list SessionSummary) :=
  do now <- utcnow;
  do db <- read_txn;
  let sessions :=
    filter (fun s => UserSession.user_id s = user_id
                     ∧ UserSession.is_active s = true
                     ∧ now < UserSession.expires_at s) (user_sessions db) in
  ret ((fun s => mkSessionSummary (UserSession.id s) (UserSession.device_info s)
                   (UserSession.ip_address s) (UserSession.created_at s)
                   (UserSession.last_accessed s) (UserSession.expires_at s))
         <$> sessions).

Definition revoke_session (session_id user_id : Z) : M bool :=
  do db <- read_txn;
  match first (fun s => UserSession.id s = session_id
                        ∧ UserSession.user_id s = user_id
                        ∧ UserSession.is_active s = true) (user_sessions db) with
  | Some (i, _) =>
      modify_txn (with_user_sessions (assign i (UserSession.set_is_active false)));;
      commit;;
      log_audit_event "session_revoked" (Some user_id)
                      (Some (JObj [("session_id", JInt session_id)])) None None;;
      ret true
  | None => ret false
  end.

(** Truth value of an optional string argument: [None] and [""] are falsy. *)
Definition truthy (s : option string) : bool :=
  match s with
  | Some t => negb (String.eqb t "")
  | None => false
  end.

(** The rows selected by the query of [revoke_all_sessions]. *)
Definition revocable (user_id : Z) (except_current : option string) (s : UserSession.t)
  : Prop :=
  (UserSession.user_id s = user_id ∧ UserSession.is_active s = true)
  ∧ (truthy except_current = true → Some (UserSession.session_token s) ≠ except_current).

#[global] Instance revocable_dec user_id except_current s :
  Decision (revocable user_id except_current s).
Proof. unfold revocable. apply _. Defined.

Definition revoke_all_sessions (user_id : Z) (except_current : option string) : M Z :=
  do db <- read_txn;
  let sessions := filter (revocable user_id except_current) (user_sessions db) in
  let count := Z.of_nat (length sessions) in
  modify_txn (with_user_sessions
                (update_where (revocable user_id except_current)
                              (UserSession.set_is_active false)));;
  commit;;
  log_audit_event "all_sessions_revoked" (Some user_id)
    (Some (JObj [("revoked_count", JInt count);
                 ("except_current", JBool (bool_decide (except_current ≠ None)))]))
    None None;;
  ret count.

End Service.

(** ** Route handlers of [auth_routes.py] that the properties mention *)

Section Routes.
Context `{Externals}.

(** [except HTTPException: raise] / [except Exception: raise HTTPException(500, ...)] *)
Definition route_boundary {A} (failure_text : string) (m : M A) : M A :=
  try_except m (fun e =>
    match e with
    | HTTPException _ _ => raise e
    | PythonError _ =>
        raise (HTTPException HTTP_500_INTERNAL_SERVER_ERROR (Message failure_text))
    end).

(** [POST /forgot-password]; the e-mail dispatch is a background task that
    only writes to the application log. *)
Definition forgot_password (email : string) (ip_address user_agent : option string) : M Json :=
  route_boundary "Password reset request failed"
    (do reset_token <- create_password_reset_token email;
     log_audit_event "password_reset_requested" None
                     (Some (JObj [("email", JStr email)])) ip_address user_agent;;
     ret (JObj [("message", JStr reset_message)])).

End Routes.

(** ** Requests against the service *)

Inductive Call :=
| RegisterUser (user_data : UserData) (role_name : string)
| Authenticate (email password : string) (device_info : option Json)
| VerifyToken (token token_type : string)
| GenerateTokens (user_id : Z) (device_info : option Json)
| RefreshToken (refresh_token : string) (device_info : option Json)
| Logout (access_token : string)
| GetCurrentUser (access_token : string)
| GetUserPermissions (user_id : Z)
| CreatePasswordResetToken (email : string)
| ForgotPassword (email : string) (ip_address user_agent : option string)
| ResetPassword (reset_token new_password : string)
| ChangePassword (user_id : Z) (current_password new_password : string)
| DeactivateUser (user_id admin_user_id : Z)
| LogAuditEvent (action : string) (user_id : option Z) (details : option Json)
                (ip_address user_agent : option string)
| GetUserSessions (user_id : Z)
| RevokeSession (session_id user_id : Z)
| RevokeAllSessions (user_id : Z) (except_current : option string).

(** What happens between two observations of the system: a request is
    served, or time passes. *)
Inductive Event :=
| Serve (c : Call)
| Elapse (new_clock : Z).

Section Requests.
Context `{Externals}.
Variable self : AuthService.

(** Forget the value a computation returns. *)
Definition void {A} (m : M A) : M unit := m;; ret tt.

Definition perform (c : Call) : M unit :=
  match c with
  | RegisterUser user_data role_name => void (register_user user_data role_name)
  | Authenticate email password device_info =>
      void (authenticate_user self email password device_info)
  | VerifyToken token token_type => void (verify_token self token token_type)
  | GenerateTokens user_id device_info => void (generate_tokens self user_id device_info)
  | RefreshToken token device_info => void (refresh_token self token device_info)
  | Logout access_token => void (logout_user self access_token)
  | GetCurrentUser access_token => void (get_current_user self access_token)
  | GetUserPermissions user_id => void (get_user_permissions user_id)
  | CreatePasswordResetToken email => void (create_password_reset_token email)
  | ForgotPassword email ip_address user_agent =>
      void (forgot_password email ip_address user_agent)
  | ResetPassword reset_token new_password => void (reset_password reset_token new_password)
  | ChangePassword user_id current_password new_password =>
      void (change_password user_id current_password new_password)
  | DeactivateUser user_id admin_user_id => void (deactivate_user user_id admin_user_id)
  | LogAuditEvent action user_id details ip_address user_agent =>
      log_audit_event action user_id details ip_address user_agent
  | GetUserSessions user_id => void (get_user_sessions user_id)
  | RevokeSession session_id user_id => void (revoke_session session_id user_id)
  | RevokeAllSessions user_id except_current =>
      void (revoke_all_sessions user_id except_current)
  end.

(** [get_db]: every request works in a database session of its own, opened
    on the committed state and closed (uncommitted work discarded) at the end. *)
Definition open_session (w : World) : World :=
  mkWorld (committed w) (committed w) (faults w) (clock w) (entropy w).

Definition request {A} (m : M A) : M A :=
  fun w => let '(r, w') := m (open_session w) in (r, open_session w').

Definition step (e : Event) (w : World) : World :=
  match e with
  | Serve c => snd (request (perform c) w)
  | Elapse t => mkWorld (committed w) (txn w) (faults w) t (entropy w)
  end.

Definition run (es : list Event) (w : World) : World :=
  foldl (fun w e => step e w) w es.

End Requests.

(** ** Rate limiter of [auth_middleware.py] *)

(** [time.time()] readings are rationals; their order is decidable. *)
#[global] Instance Qlt_decision (a b : Q) : Decision (a < b)%Q :=
  decide (Qnum a * QDen b < Qnum b * QDen a)%Z.

Record RateLimiter := mkRateLimiter {
  requests_per_minute : Z;
  requests_per_hour : Z
}.

(** [RateLimiter()] *)
Definition default_rate_limiter : RateLimiter := mkRateLimiter 60 1000.

(** The module-level [rate_limit_storage = defaultdict(list)]. *)
Abbreviation Storage := (gmap string (list Q)).

(** [rate_limit_storage[key]] read through the [defaultdict]. *)
Definition stored (key : string) (storage : Storage) : list Q :=
  default [] (storage !! key).

Definition rate_key (identifier endpoint : string) : string :=
  identifier +:+ ":" +:+ endpoint.

(** "Clean old entries": keep the last hour. *)
Definition keep_last_hour (now : Q) (timestamps : list Q) : list Q :=
  filter (fun timestamp => (now - timestamp < 3600)%Q) timestamps.

Definition in_last_minute (now : Q) (timestamps : list Q) : list Q :=
  filter (fun timestamp => (now - 60 < timestamp)%Q) timestamps.

Definition is_allowed (self : RateLimiter) (identifier endpoint : string) (now : Q)
  (storage : Storage) : bool * Storage :=
  let key := rate_key identifier endpoint in
  let storage1 := <[key := keep_last_hour now (stored key storage)]> storage in
  let minute_requests := Z.of_nat (length (in_last_minute now (stored key storage1))) in
  let hour_requests := Z.of_nat (length (stored key storage1)) in
  if (requests_per_minute self <=? minute_requests)
     || (requests_per_hour self <=? hour_requests)
  then (false, storage1)
  else (true, <[key := (stored key storage1 ++ [now])%list]> storage1).

(** Successive [is_allowed] checks for one key at the given clock readings. *)
Fixpoint checks (self : RateLimiter) (identifier endpoint : string) (times : list Q)
  (storage : Storage) : list bool * Storage :=
  match times with
  | [] => ([], storage)
  | now :: rest =>
      let '(answer, storage1) := is_allowed self identifier endpoint now storage in
      let '(answers, storage2) := checks self identifier endpoint rest storage1 in
      (answer :: answers, storage2)
  end.

(** ** CSRF tokens of [auth_middleware.py] *)

(** [str(n)] for an [int]. *)
Definition py_str (n : Z) : string := NilZero.string_of_int (Z.to_int n).

(** [int(x)] for a [float]: truncation towards zero. *)
Definition int_of_float (x : Q) : Z := Z.quot (Qnum x) (Zpos (Qden x)).

Definition is_space (c : ascii) : bool :=
  let n := nat_of_ascii c in
  (Nat.eqb n 32 || (Nat.leb 9 n && Nat.leb n 13) || (Nat.leb 28 n && Nat.leb n 31))%bool.

Fixpoint lstrip (l : list ascii) : list ascii :=
  match l with
  | c :: l' => if is_space c then lstrip l' else l
  | [] => []
  end.

Definition strip (l : list ascii) : list ascii := rev (lstrip (rev (lstrip l))).

(** Digits of a decimal literal: single underscores may separate digits. *)
Fixpoint literal_digits (after_digit : bool) (l : list ascii) : option (list ascii) :=
  match l with
  | [] => if after_digit then Some [] else None
  | c :: l' =>
      if isdigit c then cons c <$> literal_digits true l'
      else if (Ascii.eqb c "_" && after_digit)%bool then literal_digits false l'
      else None
  end.

Definition digits_value (l : list ascii) : option Z :=
  digits ← literal_digits false l;
  d ← NilEmpty.uint_of_string (string_of_list_ascii digits);
  Some (Z.of_uint d).

(** [int(s)] for a [str] of ASCII characters: [None] stands for [ValueError]
    (the interpreter's limit on the number of digits is not modelled). *)
Definition py_int (s : string) : option Z :=
  match strip (list_ascii_of_string s) with
  | "-"%char :: l => Z.opp <$> digits_value l
  | "+"%char :: l => digits_value l
  | l => digits_value l
  end.

(** [s.split(sep, 1)] unpacked into two names: [None] stands for the
    [ValueError] raised when [sep] does not occur. *)
Fixpoint split_once (sep : ascii) (s : string) : option (string * string) :=
  match s with
  | EmptyString => None
  | String c s' =>
      if Ascii.eqb c sep then Some (EmptyString, s')
      else (fun p : string * string => (String c (fst p), snd p)) <$> split_once sep s'
  end.

Record CSRFProtection := mkCSRFProtection { secret : string }.

(** [CSRFProtection()] with no environment override. *)
Definition csrf_protection : CSRFProtection := mkCSRFProtection "change-in-production".

Section CSRF.
Context `{Externals}.
Variable self : CSRFProtection.

Definition csrf_message (user_id : Z) (timestamp : string) : string :=
  py_str user_id +:+ ":" +:+ timestamp.

Definition generate_token (user_id : Z) (now : Q) : string :=
  let timestamp := py_str (int_of_float now) in
  let message := csrf_message user_id timestamp in
  let signature := hmac_sha256_hexdigest (secret self) message in
  timestamp +:+ "." +:+ signature.

Definition validate_token (token : string) (user_id : Z) (max_age : Z) (now : Q) : bool :=
  match split_once "." token with
  | None => false
  | Some (timestamp_str, signature) =>
      match py_int timestamp_str with
      | None => false
      | Some timestamp =>
          if decide (inject_Z max_age < now - inject_Z timestamp)%Q
          then false
          else
            let message := csrf_message user_id timestamp_str in
            let expected_signature := hmac_sha256_hexdigest (secret self) message in
            String.eqb signature expected_signature
      end
  end.

End CSRF.

(** ** Integrity of a database state *)

Definition primary_keys (d : Db) : Prop :=
  NoDup (User.id <$> users d) ∧
  NoDup (UserSession.id <$> user_sessions d) ∧
  NoDup (PasswordReset.id <$> password_resets d) ∧
  NoDup (AuditLog.id <$> audit_logs d).

Definition integrity (d : Db) : Prop := primary_keys d ∧ unique_constraints d.

(** The sessions of a user whose [is_active] flag is set. *)
Definition active_sessions (user_id : Z) (d : Db) : list UserSession.t :=
  filter (fun s => UserSession.user_id s = user_id ∧ UserSession.is_active s = true)
         (user_sessions d).

(** ** A small instance of the library primitives, used to run the model *)

Definition sample_type_tag (p : Payload) : string :=
  match p_type p with
  | Some "access" => "A"
  | Some "refresh" => "R"
  | _ => "X"
  end.

Definition sample_jwt_encode (p : Payload) (key : string) : string :=
  sample_type_tag p +:+ py_str (default 0 (p_user_id p)) +:+ "."
    +:+ py_str (default 0 (p_exp p)) +:+ "." +:+ default "" (p_jti p).

Definition sample_jwt_verify_signature (token key : string) : option Payload :=
  match token with
  | String "A" rest =>
      p ← split_once "." rest;
      u ← py_int (fst p);
      Some (mkPayload (Some u) (Some "access") None None None)
  | String "R" rest =>
      p ← split_once "." rest;
      u ← py_int (fst p);
      Some (mkPayload (Some u) (Some "refresh") None None None)
  | _ => None
  end.

#[local] Instance sample_externals : Externals := {|
  jwt_encode := sample_jwt_encode;
  jwt_verify_signature := sample_jwt_verify_signature;
  jwt_validate_claims := fun _ _ => ClaimsValid;
  bcrypt_gensalt := fun n => "salt" +:+ py_str (Z.of_nat n);
  bcrypt_hashpw := fun password salt => salt +:+ "$" +:+ password;
  bcrypt_checkpw := fun password hashed =>
    match split_once "$" hashed with
    | Some (_, p) => String.eqb p password
    | None => false
    end;
  token_urlsafe := fun n => "tok" +:+ py_str (Z.of_nat n);
  uuid4 := fun n => "uuid" +:+ py_str (Z.of_nat n);
  validate_email := fun e => bool_decide (is_Some (split_once "@" e));
  hmac_sha256_hexdigest := fun key msg => key +:+ "|" +:+ msg
|}.

Definition sample_user : User.t :=
  User.mk 1 "uuid-a" "a@x.com" "a@x.com" "salt$Abcdef1!" "Ann" "Lee" None None
          true false None None None None None empty_dict
          [Role.mk 1 "client" [Permission.mk 1 "read_properties" "properties" "read"]].

Definition sample_session (id : Z) (access refresh : string) (active : bool) : UserSession.t :=
  UserSession.mk id 1 access refresh empty_dict None active 1000 0 0.

Definition sample_reset : PasswordReset.t :=
  PasswordReset.mk 1 1 "reset-1" 500 false 0.

Definition sample_db : Db :=
  mkDb [sample_user]
       [Role.mk 1 "client" [Permission.mk 1 "read_properties" "properties" "read"]]
       [sample_session 1 "A1.a." "R1.a.j1" true;
        sample_session 2 "A1.b." "R1.b.j2" true;
        sample_session 3 "A1.c." "R1.c.j3" false]
       [sample_reset]
       [].

Definition sample_world : World := mkWorld sample_db sample_db [] 100 0.

Definition empty_db : Db := mkDb [] [] [] [] [].

(** ** The strength rules as the specification words them *)

Inductive Rule := MinLength | Uppercase | Lowercase | Digit | Special.

Definition all_rules : list Rule := [MinLength; Uppercase; Lowercase; Digit; Special].

Definition satisfies (password : string) (r : Rule) : bool :=
  match r with
  | MinLength => 8 <=? len password
  | Uppercase => any_char isupper password
  | Lowercase => any_char islower password
  | Digit => any_char isdigit password
  | Special => any_char (char_in special_chars) password
  end.

Definition rule_message (r : Rule) : string :=
  match r with
  | MinLength => msg_length
  | Uppercase => msg_uppercase
  | Lowercase => msg_lowercase
  | Digit => msg_digit
  | Special => msg_special
  end.

(** ** How rows may change over time *)

(** A session row keeps its identity and tokens; once inactive it stays so. *)
Definition session_step (s s' : UserSession.t) : Prop :=
  UserSession.id s' = UserSession.id s ∧
  UserSession.user_id s' = UserSession.user_id s ∧
  UserSession.session_token s' = UserSession.session_token s ∧
  UserSession.refresh_token s' = UserSession.refresh_token s ∧
  UserSession.expires_at s' = UserSession.expires_at s ∧
  (UserSession.is_active s = false → UserSession.is_active s' = false).

(** A reset row keeps its identity and token; once used it stays so. *)
Definition reset_step (r r' : PasswordReset.t) : Prop :=
  PasswordReset.id r' = PasswordReset.id r ∧
  PasswordReset.user_id r' = PasswordReset.user_id r ∧
  PasswordReset.reset_token r' = PasswordReset.reset_token r ∧
  PasswordReset.expires_at r' = PasswordReset.expires_at r ∧
  (PasswordReset.used r = true → PasswordReset.used r' = true).

(** Rows are never deleted or moved: every row of [l] has a successor at the
    same position of [l']. *)
Definition grows {A} (R : A -> A -> Prop) (l l' : list A) : Prop :=
  ∀ i x, l !! i = Some x → ∃ x', l' !! i = Some x' ∧ R x x'.

Definition evolves (d d' : Db) : Prop :=
  grows session_step (user_sessions d) (user_sessions d') ∧
  grows reset_step (password_resets d) (password_resets d').

(** A modification of the transaction is monotone when the state it yields
    has evolved from the state it was given. *)
Definition monotone (f : Db -> Db) : Prop := ∀ d, evolves d (f d).

(** The invariant of a world that has evolved from the database state [d0]. *)
Definition evolved_from (d0 : Db) (w : World) : Prop :=
  unique_constraints (committed w) ∧ evolves d0 (committed w) ∧ evolves d0 (txn w).

Definition preserves {A} (m : M A) : Prop :=
  ∀ d0 w, evolved_from d0 w → evolved_from d0 (snd (m w)).


(** ** Database states reached by the operations *)

(** The state after [log_audit_event] has been committed on [d]. *)
Definition logged (action : string) (user_id : option Z) (details : Json)
  (ip_address user_agent : option string) (now : Z) (d : Db) : Db :=
  with_audit_logs
    (add (AuditLog.mk (next_id AuditLog.id (audit_logs d)) user_id action details
                      ip_address user_agent now)) d.

(** The state after the primary change of a successful [reset_password]. *)
Definition redeemed (d : Db) (i j : nat) (user_id : Z) (hashed : string) : Db :=
  with_user_sessions
    (update_where (fun s => UserSession.user_id s = user_id
                            ∧ UserSession.is_active s = true)
                  (UserSession.set_is_active false))
    (with_password_resets (assign j (PasswordReset.set_used true))
       (with_users (assign i (User.set_password_hash hashed)) d)).

(** The session row that [generate_tokens] adds when it is called in world
    [w]: its tokens are the pair handed to the caller. *)
Definition issue `{Externals} (self : AuthService) (user_id : Z)
  (device_info : option Json) (w : World) : UserSession.t :=
  let now := clock w in
  UserSession.mk
    (next_id UserSession.id (user_sessions (txn w))) user_id
    (jwt_encode (mkPayload (Some user_id) (Some "access")
                   (Some (now + timedelta_minutes (access_token_expire_minutes self)))
                   (Some now) None) (secret_key self))
    (jwt_encode (mkPayload (Some user_id) (Some "refresh")
                   (Some (now + timedelta_days (refresh_token_expire_days self)))
                   (Some now) (Some (token_urlsafe (entropy w)))) (secret_key self))
    (or_empty_dict device_info) None true
    (now + timedelta_days (refresh_token_expire_days self)) now now.

(** The token pair of a session row, as [generate_tokens] returns it. *)
Definition tokens_of (self : AuthService) (now : Z) (s : UserSession.t) : Tokens :=
  mkTokens (UserSession.session_token s) (UserSession.refresh_token s) "bearer"
           (access_token_expire_minutes self * 60)
           (now + timedelta_minutes (access_token_expire_minutes self)).

(** The newest committed audit row records [action]. *)
Definition audited (action : string) (w : World) : Prop :=
  ∃ a, last (audit_logs (committed w)) = Some a ∧ AuditLog.action a = action.

(** Character lists made of decimal digits only. *)
Definition digit_chars (l : list ascii) : Prop := Forall (fun c => isdigit c = true) l.

(** The characters [str(n)] is made of. *)
Definition numeral_char (c : ascii) : Prop := isdigit c = true ∨ c = "-"%char.

(** * The rest of the service and of the middleware *)

(** ** Role gates and [PermissionChecker] of [auth_middleware.py] *)

(** [[role.name for role in user.roles]] *)
Definition role_names (user : User.t) : list string := Role.name <$> User.roles user.

(** [role_name in user_roles] *)
Definition in_roles (role_name : string) (user : User.t) : bool :=
  bool_decide (role_name ∈ role_names user).

(** [any(role in allowed for role in user_roles)] *)
Definition any_role_in (allowed : list string) (user : User.t) : bool :=
  existsb (fun role => bool_decide (role ∈ allowed)) (role_names user).

(** [property_agent_id is None or property_agent_id == user.id] *)
Definition unowned_or_own (agent_id : option Z) (user : User.t) : bool :=
  match agent_id with
  | None => true
  | Some a => a =? User.id user
  end.

Module PermissionChecker.

Definition can_read_properties (user : User.t) : bool :=
  any_role_in ["client"; "agent"; "employee"; "admin"] user.

Definition can_create_properties (user : User.t) : bool :=
  any_role_in ["agent"; "admin"] user.

Definition can_edit_properties (user : User.t) (property_agent_id : option Z) : bool :=
  if in_roles "admin" user then true
  else if in_roles "agent" user then unowned_or_own property_agent_id user
  else false.

Definition can_delete_properties (user : User.t) (property_agent_id : option Z) : bool :=
  if in_roles "admin" user then true
  else if in_roles "agent" user then unowned_or_own property_agent_id user
  else false.

Definition can_manage_clients (user : User.t) (client_agent_id : option Z) : bool :=
  if in_roles "admin" user then true
  else if in_roles "agent" user then unowned_or_own client_agent_id user
  else false.

Definition can_view_analytics (user : User.t) : bool :=
  any_role_in ["agent"; "employee"; "admin"] user.

Definition can_manage_users (user : User.t) : bool := in_roles "admin" user.

End PermissionChecker.

Definition HTTP_403_FORBIDDEN : Z := 403.
Definition HTTP_429_TOO_MANY_REQUESTS : Z := 429.

Definition forbidden {A} (text : string) : M A :=
  raise (HTTPException HTTP_403_FORBIDDEN (Message text)).

(** The dependency functions of [auth_middleware.py].  [credentials] is
    [None] when the request carries no bearer token; [current_user] is the
    value that [Depends(get_current_user)] has produced. *)
Module Depends.

Section WithService.
Context `{Externals}.
Variable self : AuthService.

(** A bare [except:] turns every failure into [None]. *)
Definition get_optional_user (credentials : option string) : M (option User.t) :=
  match credentials with
  | None => ret None
  | Some token =>
      try_except (do user <- get_current_user self token; ret (Some user))
                 (fun _ => ret None)
  end.

Definition get_current_user (credentials : option string) : M User.t :=
  match credentials with
  | None => unauthorized "Authentication required"
  | Some token =>
      try_except (get_current_user self token)
        (fun e =>
           match e with
           | HTTPException _ _ => raise e
           | PythonError _ => unauthorized "Invalid authentication"
           end)
  end.

Definition require_permission (permission : string) (current_user : User.t) : M User.t :=
  do granted <- has_permission (User.id current_user) permission;
  if negb granted
  then forbidden ("Permission '" +:+ permission +:+ "' required")
  else ret current_user.

Definition require_role (role_name : string) (current_user : User.t) : M User.t :=
  if negb (in_roles role_name current_user)
  then forbidden ("Role '" +:+ role_name +:+ "' required")
  else ret current_user.

Definition require_admin (current_user : User.t) : M User.t :=
  require_role "admin" current_user.

Definition require_agent_or_admin (current_user : User.t) : M User.t :=
  if (negb (in_roles "agent" current_user) && negb (in_roles "admin" current_user))%bool
  then forbidden "Agent or Admin role required"
  else ret current_user.

End WithService.
End Depends.

(** ** [RateLimiter.get_limits_info] and [AuthMiddleware.apply_rate_limiting] *)

Record LimitsInfo := mkLimitsInfo {
  requests_this_minute : Z;
  requests_this_hour : Z;
  minute_limit : Z;
  hour_limit : Z;
  minute_remaining : Z;
  hour_remaining : Z
}.

Definition get_limits_info (self : RateLimiter) (identifier endpoint : string) (now : Q)
  (storage : Storage) : LimitsInfo * Storage :=
  let key := rate_key identifier endpoint in
  let storage1 := <[key := keep_last_hour now (stored key storage)]> storage in
  let minute_requests := Z.of_nat (length (in_last_minute now (stored key storage1))) in
  let hour_requests := Z.of_nat (length (stored key storage1)) in
  (mkLimitsInfo minute_requests hour_requests
                (requests_per_minute self) (requests_per_hour self)
                (Z.max 0 (requests_per_minute self - minute_requests))
                (Z.max 0 (requests_per_hour self - hour_requests)),
   storage1).

(** [AuthMiddleware.auth_endpoints] *)
Definition auth_endpoints : list string :=
  ["/auth/login"; "/auth/register"; "/auth/forgot-password"; "/auth/reset-password"].

(** What [apply_rate_limiting] does to the request: it lets it pass, or
    raises a 429 whose detail carries a message and the limits. *)
Inductive RateOutcome :=
| Passed
| TooManyRequests (message : string) (rate_limit_info : LimitsInfo).

(** [now] is the clock reading of the check, [later] the reading of the
    status query made when the check has denied. *)
Definition apply_rate_limiting (rate_limiter : RateLimiter) (client_ip path : string)
  (now later : Q) (storage : Storage) : RateOutcome * Storage :=
  if bool_decide (path ∈ auth_endpoints)
  then
    let '(allowed, storage1) := is_allowed rate_limiter client_ip "auth" now storage in
    if negb allowed
    then
      let '(rate_info, storage2) :=
        get_limits_info rate_limiter client_ip "auth" later storage1 in
      (TooManyRequests "Too many authentication attempts" rate_info, storage2)
    else (Passed, storage1)
  else
    let '(allowed, storage1) := is_allowed rate_limiter client_ip "general" now storage in
    if negb allowed
    then
      let '(rate_info, storage2) :=
        get_limits_info rate_limiter client_ip "general" later storage1 in
      (TooManyRequests "Rate limit exceeded" rate_info, storage2)
    else (Passed, storage1).

(** One use of the limiter on the shared storage. *)
Inductive LimiterCall :=
| Check (identifier endpoint : string) (now : Q)
| Status (identifier endpoint : string) (now : Q).

Definition limiter_step (self : RateLimiter) (c : LimiterCall) (storage : Storage) : Storage :=
  match c with
  | Check identifier endpoint now => snd (is_allowed self identifier endpoint now storage)
  | Status identifier endpoint now => snd (get_limits_info self identifier endpoint now storage)
  end.

Definition limiter_run (self : RateLimiter) (cs : list LimiterCall) (storage : Storage)
  : Storage :=
  foldl (fun st c => limiter_step self c st) storage cs.

(** ** [AuthMiddleware.get_client_ip] *)

(** A request as the middleware reads it: the headers in arrival order
    (ASGI delivers their names in lower case) and the peer address
    [request.client.host] (a request without peer information is not
    modelled). *)
Record Request := mkRequest {
  headers : list (string * string);
  client_host : string
}.

(** [s.lower()] on ASCII. *)
Definition lower_char (c : ascii) : ascii :=
  if isupper c then ascii_of_nat (nat_of_ascii c + 32) else c.

Fixpoint lower (s : string) : string :=
  match s with
  | EmptyString => EmptyString
  | String c s' => String (lower_char c) (lower s')
  end.

(** [request.headers.get(name)]: the first header of that name, compared
    without regard to case. *)
Definition headers_get (name : string) (request : Request) : option string :=
  snd <$> (snd <$> list_find (fun h => fst h = lower name) (headers request)).

(** [s.split(sep)[0]] *)
Fixpoint before_first (sep : ascii) (s : string) : string :=
  match s with
  | EmptyString => EmptyString
  | String c s' => if Ascii.eqb c sep then EmptyString else String c (before_first sep s')
  end.

(** [s.strip()] *)
Definition py_strip (s : string) : string :=
  string_of_list_ascii (strip (list_ascii_of_string s)).

(** An optional header value that is present and not empty. *)
Definition nonempty (v : option string) : option string :=
  match v with
  | Some EmptyString => None
  | other => other
  end.

Definition get_client_ip (request : Request) : string :=
  match nonempty (headers_get "X-Forwarded-For" request) with
  | Some forwarded_for => py_strip (before_first "," forwarded_for)
  | None =>
      match nonempty (headers_get "X-Real-IP" request) with
      | Some real_ip => real_ip
      | None => client_host request
      end
  end.

(** ** [SecurityUtils] *)

(** [l] starts with [pat]. *)
Fixpoint starts_with (pat l : list ascii) : bool :=
  match pat, l with
  | [], _ => true
  | p :: pat', c :: l' => (Ascii.eqb p c && starts_with pat' l')%bool
  | _ :: _, [] => false
  end.

(** [s.replace(pat, empty)] for a non-empty [pat]: the occurrences are found
    from the left and do not overlap; [skip] characters of the current
    occurrence remain to be dropped. *)
Fixpoint remove_all (pat : list ascii) (skip : nat) (l : list ascii) : list ascii :=
  match l with
  | [] => []
  | c :: l' =>
      match skip with
      | S k => remove_all pat k l'
      | O =>
          if starts_with pat l
          then remove_all pat (length pat - 1) l'
          else c :: remove_all pat 0 l'
      end
  end.

(** The characters that the pattern [[^a-zA-Z0-9.\-_]] of [re.sub] keeps. *)
Definition filename_char (c : ascii) : bool :=
  (islower c || isupper c || isdigit c
   || Ascii.eqb c "." || Ascii.eqb c "-" || Ascii.eqb c "_")%bool.

Definition backslash : ascii := ascii_of_nat 92.

Definition sanitize_filename (filename : string) : string :=
  let l0 := list_ascii_of_string filename in
  let l1 := remove_all ["."; "."; "/"]%char 0 l0 in
  let l2 := remove_all ["."%char; "."%char; backslash] 0 l1 in
  let l3 := List.filter filename_char l2 in
  string_of_list_ascii (take 255 l3).



(** ** What the requests preserve *)

(** A user row keeps its identity; once deactivated it stays so. *)
Definition user_step (u u' : User.t) : Prop :=
  User.id u' = User.id u ∧
  User.uuid u' = User.uuid u ∧
  User.email u' = User.email u ∧
  User.username u' = User.username u ∧
  User.roles u' = User.roles u ∧
  (User.is_active u = false → User.is_active u' = false).

(** Users are never deleted and audit rows are never touched again. *)
Definition history (d d' : Db) : Prop :=
  grows user_step (users d) (users d') ∧ audit_logs d `prefix_of` audit_logs d'.

(** A computation keeps a relation to an earlier database state [d0] when
    both the committed state and the transaction view stay related to it. *)
Definition keeps (R : Db -> Db -> Prop) {A} (m : M A) : Prop :=
  ∀ d0 w, R d0 (committed w) → R d0 (txn w) →
          R d0 (committed (snd (m w))) ∧ R d0 (txn (snd (m w))).

(** A modification of the transaction that rewrites no history. *)
Definition steady (f : Db -> Db) : Prop := ∀ d, history d (f d).

(** [user_data.get("username", user_data["email"])]: the user name a
    registration asks for is the e-mail address when the key is absent. *)
Definition requested_username (user_data : UserData) : option string :=
  match ud_username user_data with
  | None => Some (ud_email user_data)
  | Some v => v
  end.

(** * Properties *)

Local Open Scope list_scope.

(** ** Credential store *)

Lemma rule_message_inj r1 r2 : rule_message r1 = rule_message r2 -> r1 = r2.
Proof. destruct r1, r2; simpl; intros E; try reflexivity; discriminate E. Qed.

Lemma errors_are_violations (password : string) :
  errors (validate_password_strength password)
  = rule_message <$> filter (fun r => satisfies password r = false) all_rules.
Proof.
  unfold validate_password_strength, all_rules, append_unless; simpl.
  replace (negb (len password <? 8)) with (8 <=? len password)
    by (destruct (Z.leb_spec 8 (len password)), (Z.ltb_spec (len password) 8);
        simpl; auto; lia).
  unfold filter; simpl. unfold satisfies; simpl.
  destruct (8 <=? len password), (any_char isupper password),
    (any_char islower password), (any_char isdigit password),
    (any_char (char_in special_chars) password); reflexivity.
Qed.

(** C6. [validate_password_strength] is a function of the password alone.  A
    password of at least 8 characters with an uppercase letter, a lowercase
    letter, a digit and a special character is reported valid with an empty
    error list; for every password and every rule, the rule's message is in
    [errors] exactly when the rule is violated, so each violated rule is
    reported and no satisfied rule is. *)
Theorem validate_password_strength_reports_exactly_the_violations (password : string) :
  let v := validate_password_strength password in
  (forall r, rule_message r ∈ errors v <-> satisfies password r = false) /\
  (is_valid v = true <-> errors v = []) /\
  ((forall r, satisfies password r = true) -> is_valid v = true /\ errors v = []).
Proof.
  cbn zeta. rewrite errors_are_violations.
  assert (Hmem : forall r, rule_message r ∈
            rule_message <$> filter (fun r => satisfies password r = false) all_rules
            <-> satisfies password r = false).
  { intros r. rewrite list_elem_of_fmap. split.
    - intros (r' & E & Hin). apply rule_message_inj in E. subst r'.
      apply list_elem_of_filter in Hin. tauto.
    - intros Hr. exists r. split; [reflexivity|].
      apply list_elem_of_filter. split; [exact Hr|].
      unfold all_rules. destruct r; set_solver. }
  assert (Hvalid : is_valid (validate_password_strength password) = true
                   <-> errors (validate_password_strength password) = []).
  { change (is_valid (validate_password_strength password))
      with (Nat.eqb (length (errors (validate_password_strength password))) 0).
    destruct (errors (validate_password_strength password)); simpl; split;
      congruence. }
  rewrite errors_are_violations in Hvalid.
  split; [exact Hmem|]. split; [exact Hvalid|].
  intros Hall.
  assert (E : rule_message <$> filter (fun r => satisfies password r = false) all_rules = []).
  { destruct (rule_message <$> filter (fun r => satisfies password r = false) all_rules)
      as [|m ms] eqn:El; [reflexivity|].
    assert (Hin : m ∈ rule_message <$>
                    filter (fun r => satisfies password r = false) all_rules)
      by (rewrite El; left).
    apply list_elem_of_fmap in Hin. destruct Hin as (r & _ & Hin).
    apply list_elem_of_filter in Hin. destruct Hin as [Hf _].
    rewrite Hall in Hf. discriminate. }
  split; [apply Hvalid|]; exact E.
Qed.

Lemma validate_password_strength_reports_exactly_the_violations_witness :
  is_valid (validate_password_strength "Abcdef1!") = true
  /\ errors (validate_password_strength "Abcdef1!") = [].
Proof.
  apply (validate_password_strength_reports_exactly_the_violations "Abcdef1!").
  intros r; destruct r; vm_compute; reflexivity.
Defined.

(** ** The transaction monad *)

Lemma bind_Return {A B} (m : M A) (k : A -> M B) w a w' :
  m w = (Return a, w') -> bind m k w = k a w'.
Proof. unfold bind. intros ->. reflexivity. Qed.

Lemma bind_Raise {A B} (m : M A) (k : A -> M B) w e w' :
  m w = (Raise e, w') -> bind m k w = (Raise e, w').
Proof. unfold bind. intros ->. reflexivity. Qed.

Lemma bind_inv_Return {A B} (m : M A) (k : A -> M B) w b w2 :
  bind m k w = (Return b, w2) ->
  exists a w1, m w = (Return a, w1) /\ k a w1 = (Return b, w2).
Proof.
  unfold bind. destruct (m w) as [[a|e] w1]; intros E.
  - exists a, w1. split; [reflexivity | exact E].
  - discriminate E.
Qed.

Lemma commit_accepts w :
  faults w = [] -> unique_constraints (txn w) ->
  commit w = (Return tt, mkWorld (txn w) (txn w) [] (clock w) (entropy w)).
Proof.
  intros Hf Hu. unfold commit. rewrite Hf. simpl.
  rewrite bool_decide_eq_true_2 by exact Hu. reflexivity.
Qed.

Lemma commit_inv_Return w w' :
  commit w = (Return tt, w') ->
  unique_constraints (txn w) /\
  w' = mkWorld (txn w) (txn w) (tail (faults w)) (clock w) (entropy w).
Proof.
  unfold commit. destruct (faults w) as [|[|] fs]; try discriminate;
    case_bool_decide; try discriminate; intros [= <-]; auto.
Qed.

(** ** Queries and updates on tables *)

Lemma first_Some {A} (P : A -> Prop) `{!forall x, Decision (P x)} (l : list A) i x :
  first P l = Some (i, x) -> l !! i = Some x /\ P x /\ forall j y, l !! j = Some y -> (j < i)%nat -> ~ P y.
Proof. unfold first. apply list_find_Some. Qed.

Lemma first_None {A} (P : A -> Prop) `{!forall x, Decision (P x)} (l : list A) :
  first P l = None <-> forall x, x ∈ l -> ~ P x.
Proof. unfold first. rewrite list_find_None, Forall_forall. reflexivity. Qed.

Lemma first_exists {A} (P : A -> Prop) `{!forall x, Decision (P x)} (l : list A) x :
  x ∈ l -> P x -> exists i y, first P l = Some (i, y).
Proof.
  intros Hin HP. destruct (first P l) as [[i y]|] eqn:E; [eauto|].
  exfalso. apply (proj1 (first_None P l) E x Hin HP).
Qed.

(** A key that is unique in the table identifies the row. *)
Lemma unique_key {A K} (f : A -> K) (l : list A) i j x y :
  NoDup (f <$> l) -> l !! i = Some x -> l !! j = Some y -> f x = f y -> i = j /\ x = y.
Proof.
  intros Hnd Hi Hj E.
  assert (i = j).
  { apply (NoDup_lookup _ i j (f x) Hnd); rewrite list_lookup_fmap.
    - rewrite Hi. reflexivity.
    - rewrite Hj, E. reflexivity. }
  subst j. split; [reflexivity | congruence].
Qed.

Lemma first_unique {A K} (f : A -> K) (P : A -> Prop) `{!forall x, Decision (P x)}
  (l : list A) x :
  NoDup (f <$> l) -> x ∈ l -> P x -> (forall y, P y -> f y = f x) ->
  exists i, first P l = Some (i, x) /\ l !! i = Some x.
Proof.
  intros Hnd Hin HP Hkey.
  destruct (first_exists P l x Hin HP) as (i & y & E).
  destruct (first_Some P l i y E) as (Hi & HPy & _).
  apply list_elem_of_lookup in Hin. destruct Hin as [j Hj].
  destruct (unique_key f l i j y x Hnd Hi Hj (Hkey y HPy)) as [-> ->].
  exists j. split; assumption.
Qed.

Lemma fmap_assign_key {A K} (f : A -> K) (g : A -> A) (i : nat) (l : list A) :
  (forall x, f (g x) = f x) -> f <$> assign i g l = f <$> l.
Proof.
  intros Hk. unfold assign. revert i. induction l as [|a l IH]; intros [|i]; simpl;
    try reflexivity.
  - rewrite Hk. reflexivity.
  - f_equal. apply IH.
Qed.

Lemma fmap_update_where_key {A K} (f : A -> K) (P : A -> Prop)
  `{!forall x, Decision (P x)} (g : A -> A) (l : list A) :
  (forall x, f (g x) = f x) -> f <$> update_where P g l = f <$> l.
Proof.
  intros Hk. unfold update_where. rewrite <- list_fmap_compose.
  apply list_fmap_ext. intros _ x _. simpl.
  destruct (decide (P x)); [apply Hk | reflexivity].
Qed.

Section Properties.
Context `{Externals}.

(** ** Password reset *)

(** C10. A new password that violates a strength rule makes [reset_password]
    fail with the weak-password error, carrying the itemised violations,
    before the reset token is looked up: the world is returned unchanged,
    whatever the token and whatever the database holds. *)
Theorem reset_password_rejects_weak_password_first
  (reset_token new_password : string) (w : World) :
  is_valid (validate_password_strength new_password) = false ->
  reset_password reset_token new_password w
  = (Raise (HTTPException HTTP_400_BAD_REQUEST
              (MessageWithErrors "Password does not meet requirements"
                 (errors (validate_password_strength new_password)))), w).
Proof.
  intros Hweak. unfold reset_password. rewrite Hweak. reflexivity.
Qed.

Lemma unique_constraints_ext (d d' : Db) :
  User.email <$> users d' = User.email <$> users d ->
  User.username <$> users d' = User.username <$> users d ->
  User.uuid <$> users d' = User.uuid <$> users d ->
  UserSession.session_token <$> user_sessions d'
    = UserSession.session_token <$> user_sessions d ->
  UserSession.refresh_token <$> user_sessions d'
    = UserSession.refresh_token <$> user_sessions d ->
  PasswordReset.reset_token <$> password_resets d'
    = PasswordReset.reset_token <$> password_resets d ->
  unique_constraints d -> unique_constraints d'.
Proof.
  unfold unique_constraints. intros -> -> -> -> -> ->. tauto.
Qed.

Lemma unique_constraints_audit (f : list AuditLog.t -> list AuditLog.t) (d : Db) :
  unique_constraints (with_audit_logs f d) <-> unique_constraints d.
Proof. reflexivity. Qed.

Lemma redeemed_unique d i j user_id hashed :
  unique_constraints d -> unique_constraints (redeemed d i j user_id hashed).
Proof.
  apply unique_constraints_ext; simpl;
    first [ apply fmap_assign_key | apply fmap_update_where_key ];
    intros []; reflexivity.
Qed.

Lemma log_audit_event_accepts action user_id details ip ua (w : World) :
  faults w = [] -> unique_constraints (txn w) ->
  log_audit_event action user_id details ip ua w
  = (Return tt,
     let d := logged action user_id (or_empty_dict details) ip ua (clock w) (txn w) in
     mkWorld d d [] (clock w) (entropy w)).
Proof.
  intros Hf Hu. unfold log_audit_event, bind, utcnow, read_txn, modify_txn. simpl.
  rewrite commit_accepts; [reflexivity | exact Hf | exact Hu].
Qed.

Lemma reset_password_accepts (w : World) (T pw : string) (r : PasswordReset.t) (u : User.t) :
  txn w = committed w -> integrity (committed w) -> faults w = [] ->
  r ∈ password_resets (committed w) ->
  PasswordReset.reset_token r = T -> PasswordReset.used r = false ->
  clock w < PasswordReset.expires_at r ->
  u ∈ users (committed w) -> User.id u = PasswordReset.user_id r ->
  is_valid (validate_password_strength pw) = true ->
  exists i j d,
    users (committed w) !! i = Some u /\
    password_resets (committed w) !! j = Some r /\
    d = redeemed (committed w) i j (User.id u)
                 (bcrypt_hashpw pw (bcrypt_gensalt (entropy w))) /\
    reset_password T pw w
    = (Return true,
       let d' := logged "password_reset_completed" (Some (User.id u)) empty_dict
                        None None (clock w) d in
       mkWorld d' d' [] (clock w) (S (entropy w))).
Proof.
  intros Htxn [[Hpk _] Huniq] Hf Hr HT Hunused Hfresh Hu Hid Hvalid.
  destruct (first_unique PasswordReset.reset_token
              (fun r0 => PasswordReset.reset_token r0 = T
                         /\ PasswordReset.used r0 = false
                         /\ clock w < PasswordReset.expires_at r0)
              (password_resets (committed w)) r) as (j & Hj & Hjr); auto.
  { apply Huniq. }
  { intros y (Hy & _). congruence. }
  destruct (first_unique User.id (fun u0 => User.id u0 = PasswordReset.user_id r)
              (users (committed w)) u) as (i & Hi & Hiu); auto.
  { intros y Hy. congruence. }
  exists i, j, (redeemed (committed w) i j (User.id u)
                  (bcrypt_hashpw pw (bcrypt_gensalt (entropy w)))).
  split; [exact Hiu|]. split; [exact Hjr|]. split; [reflexivity|].
  unfold reset_password. rewrite Hvalid. simpl negb. cbv iota.
  unfold bind, utcnow, read_txn. simpl. rewrite Htxn, Hj. simpl. rewrite Hi.
  unfold hash_password, bind, draw, ret, modify_txn. simpl. rewrite ?Htxn.
  rewrite commit_accepts;
    [| exact Hf | apply (redeemed_unique (committed w)), Huniq].
  simpl. rewrite log_audit_event_accepts; [reflexivity | reflexivity |].
  apply (redeemed_unique (committed w)), Huniq.
Qed.

(** ** Rows are never deleted, reactivated or un-used *)

#[local] Instance session_step_refl : Reflexive session_step.
Proof. intros s. unfold session_step. tauto. Qed.

#[local] Instance session_step_trans : Transitive session_step.
Proof.
  intros a b c (?&?&?&?&?&?) (?&?&?&?&?&?). unfold session_step.
  repeat split; try congruence. auto.
Qed.

#[local] Instance reset_step_refl : Reflexive reset_step.
Proof. intros s. unfold reset_step. tauto. Qed.

#[local] Instance reset_step_trans : Transitive reset_step.
Proof.
  intros a b c (?&?&?&?&?) (?&?&?&?&?). unfold reset_step.
  repeat split; try congruence. auto.
Qed.

Lemma grows_refl {A} (R : A -> A -> Prop) `{!Reflexive R} l : grows R l l.
Proof. intros i x Hi. exists x. split; [exact Hi | reflexivity]. Qed.

Lemma grows_trans {A} (R : A -> A -> Prop) `{!Transitive R} l1 l2 l3 :
  grows R l1 l2 -> grows R l2 l3 -> grows R l1 l3.
Proof.
  intros H12 H23 i x Hi.
  destruct (H12 i x Hi) as (y & Hy & Rxy).
  destruct (H23 i y Hy) as (z & Hz & Ryz).
  exists z. split; [exact Hz | etransitivity; eassumption].
Qed.

Lemma grows_add {A} (R : A -> A -> Prop) `{!Reflexive R} l row : grows R l (add row l).
Proof.
  intros i x Hi. exists x. split; [| reflexivity].
  unfold add. apply lookup_app_l_Some. exact Hi.
Qed.

Lemma grows_assign {A} (R : A -> A -> Prop) `{!Reflexive R} l i f :
  (forall x, R x (f x)) -> grows R l (assign i f l).
Proof.
  intros Hf j x Hj. unfold assign.
  destruct (decide (i = j)) as [->|Hne].
  - exists (f x). split; [| apply Hf].
    rewrite list_lookup_alter_eq, Hj. reflexivity.
  - exists x. split; [| reflexivity].
    rewrite list_lookup_alter_ne by exact Hne. exact Hj.
Qed.

Lemma grows_update_where {A} (R : A -> A -> Prop) `{!Reflexive R}
  (P : A -> Prop) `{!forall x, Decision (P x)} l f :
  (forall x, R x (f x)) -> grows R l (update_where P f l).
Proof.
  intros Hf j x Hj. unfold update_where. rewrite list_lookup_fmap, Hj. simpl.
  destruct (decide (P x)); eexists; split; try reflexivity. apply Hf.
Qed.

Lemma evolves_refl d : evolves d d.
Proof. split; apply grows_refl; apply _. Qed.

Lemma evolves_trans d1 d2 d3 : evolves d1 d2 -> evolves d2 d3 -> evolves d1 d3.
Proof. intros [? ?] [? ?]. split; eapply grows_trans; try eassumption; apply _. Qed.

Lemma monotone_with_users f : monotone (with_users f).
Proof. intros d. split; simpl; apply grows_refl; apply _. Qed.

Lemma monotone_with_audit_logs f : monotone (with_audit_logs f).
Proof. intros d. split; simpl; apply grows_refl; apply _. Qed.

Lemma monotone_with_user_sessions f :
  (forall l, grows session_step l (f l)) -> monotone (with_user_sessions f).
Proof. intros Hf d. split; simpl; [apply Hf | apply grows_refl; apply _]. Qed.

Lemma monotone_with_password_resets f :
  (forall l, grows reset_step l (f l)) -> monotone (with_password_resets f).
Proof. intros Hf d. split; simpl; [apply grows_refl; apply _ | apply Hf]. Qed.

Lemma session_step_deactivate s : session_step s (UserSession.set_is_active false s).
Proof. unfold session_step. simpl. tauto. Qed.

Lemma session_step_touch t0 s : session_step s (UserSession.set_last_accessed t0 s).
Proof. unfold session_step. simpl. tauto. Qed.

Lemma reset_step_use r : reset_step r (PasswordReset.set_used true r).
Proof. unfold reset_step. simpl. tauto. Qed.

Ltac monotone_tac :=
  first
    [ apply monotone_with_users
    | apply monotone_with_audit_logs
    | apply monotone_with_user_sessions; intros ?;
      first [ apply grows_add; apply _
            | apply grows_assign;
              [apply _ | first [apply session_step_deactivate | apply session_step_touch]]
            | apply grows_update_where; [apply _ | apply session_step_deactivate] ]
    | apply monotone_with_password_resets; intros ?;
      first [ apply grows_add; apply _
            | apply grows_assign; [apply _ | apply reset_step_use] ] ].

Lemma preserves_ret {A} (a : A) : preserves (ret a).
Proof. intros d0 w Hw. exact Hw. Qed.

Lemma preserves_raise {A} e : preserves (@raise A e).
Proof. intros d0 w Hw. exact Hw. Qed.

Lemma preserves_utcnow : preserves utcnow.
Proof. intros d0 w Hw. exact Hw. Qed.

Lemma preserves_read_txn : preserves read_txn.
Proof. intros d0 w Hw. exact Hw. Qed.

Lemma preserves_draw : preserves draw.
Proof. intros d0 w Hw. exact Hw. Qed.

Lemma evolved_from_intro d0 c t fs k e :
  unique_constraints c -> evolves d0 c -> evolves d0 t ->
  evolved_from d0 (mkWorld c t fs k e).
Proof. intros. split; [|split]; assumption. Qed.

Lemma preserves_modify_txn f : monotone f -> preserves (modify_txn f).
Proof.
  intros Hf d0 w (Hu & Hc & Ht). apply evolved_from_intro; try assumption.
  apply (evolves_trans d0 (txn w)); [exact Ht | apply Hf].
Qed.

Lemma preserves_commit : preserves commit.
Proof.
  intros d0 w (Hu & Hc & Ht). unfold commit.
  destruct (faults w) as [|[|] fs]; simpl;
    try (apply evolved_from_intro; assumption);
    case_bool_decide; simpl; apply evolved_from_intro; assumption.
Qed.

Lemma preserves_commit_not_null_violation {A} : preserves (@commit_not_null_violation A).
Proof. intros d0 w (Hu & Hc & Ht). apply evolved_from_intro; assumption. Qed.

Lemma preserves_bind {A B} (m : M A) (k : A -> M B) :
  preserves m -> (forall a, preserves (k a)) -> preserves (bind m k).
Proof.
  intros Hm Hk d0 w Hw. unfold bind. specialize (Hm d0 w Hw).
  destruct (m w) as [[a|e] w1]; simpl in *; [apply Hk, Hm | exact Hm].
Qed.

Lemma preserves_try_except {A} (m : M A) (h : Exn -> M A) :
  preserves m -> (forall e, preserves (h e)) -> preserves (try_except m h).
Proof.
  intros Hm Hh d0 w Hw. unfold try_except. specialize (Hm d0 w Hw).
  destruct (m w) as [[a|e] w1]; simpl in *; [exact Hm | apply Hh, Hm].
Qed.

Create HintDb preserves.

Ltac preserve :=
  repeat first
    [ apply preserves_ret | apply preserves_raise | apply preserves_utcnow
    | apply preserves_read_txn | apply preserves_draw | apply preserves_commit
    | apply preserves_commit_not_null_violation
    | apply preserves_modify_txn; monotone_tac
    | solve [auto with preserves]
    | apply preserves_bind; [| intros ?]
    | apply preserves_try_except; [| intros ?]
    | match goal with
      | |- preserves (match ?x with _ => _ end) => destruct x
      | |- preserves (if ?b then _ else _) => destruct b
      end ].

Lemma preserves_log_audit_event action user_id details ip ua :
  preserves (log_audit_event action user_id details ip ua).
Proof. unfold log_audit_event. preserve. Qed.
#[local] Hint Resolve preserves_log_audit_event : preserves.

Lemma preserves_generate_tokens self user_id device_info :
  preserves (generate_tokens self user_id device_info).
Proof. unfold generate_tokens. preserve. Qed.
#[local] Hint Resolve preserves_generate_tokens : preserves.

Lemma preserves_verify_token self token token_type :
  preserves (verify_token self token token_type).
Proof. unfold verify_token, unauthorized. preserve. Qed.
#[local] Hint Resolve preserves_verify_token : preserves.

Lemma preserves_get_user_permissions user_id : preserves (get_user_permissions user_id).
Proof. unfold get_user_permissions. preserve. Qed.
#[local] Hint Resolve preserves_get_user_permissions : preserves.

Lemma preserves_create_password_reset_token email :
  preserves (create_password_reset_token email).
Proof. unfold create_password_reset_token. preserve. Qed.
#[local] Hint Resolve preserves_create_password_reset_token : preserves.

Lemma preserves_perform self c : preserves (perform self c).
Proof.
  destruct c; unfold perform, void, register_user, authenticate_user, login_failed,
    refresh_token, logout_user, get_current_user, forgot_password, route_boundary,
    reset_password, change_password, deactivate_user, get_user_sessions,
    revoke_session, revoke_all_sessions, payload_user_id, hash_password,
    unauthorized, bad_request; preserve.
Qed.

Lemma evolved_open_session d0 w : evolved_from d0 w -> evolved_from d0 (open_session w).
Proof. intros (Hu & Hc & _). apply evolved_from_intro; assumption. Qed.

Lemma preserves_request {A} (m : M A) : preserves m -> preserves (request m).
Proof.
  intros Hm d0 w Hw. unfold request.
  specialize (Hm d0 (open_session w) (evolved_open_session d0 w Hw)).
  destruct (m (open_session w)) as [r w1]. simpl in *.
  apply evolved_open_session, Hm.
Qed.

Lemma evolved_step self e d0 w : evolved_from d0 w -> evolved_from d0 (step self e w).
Proof.
  intros Hw. destruct e as [c|t]; simpl.
  - apply (preserves_request (perform self c) (preserves_perform self c) d0 w Hw).
  - exact Hw.
Qed.

Lemma evolved_run self es d0 w : evolved_from d0 w -> evolved_from d0 (run self es w).
Proof.
  revert w. induction es as [|e es IH]; intros w Hw; simpl; [exact Hw|].
  apply IH, evolved_step, Hw.
Qed.

Lemma assign_unique_key {A K} (f : A -> K) (g : A -> A) (i : nat) (l : list A) x y :
  NoDup (f <$> l) -> l !! i = Some x -> (forall z, f (g z) = f z) ->
  y ∈ assign i g l -> f y = f x -> y = g x.
Proof.
  intros Hnd Hi Hk Hy E. unfold assign in Hy.
  apply list_elem_of_lookup in Hy. destruct Hy as [k Hk'].
  destruct (decide (i = k)) as [->|Hne].
  - rewrite list_lookup_alter_eq, Hi in Hk'. simpl in Hk'. congruence.
  - rewrite list_lookup_alter_ne in Hk' by exact Hne.
    destruct (unique_key f l k i y x Hnd Hk' Hi E) as [-> _]. congruence.
Qed.

Lemma assign_elem {A} (g : A -> A) (i : nat) (l : list A) x :
  l !! i = Some x -> g x ∈ assign i g l.
Proof.
  intros Hi. apply list_elem_of_lookup. exists i. unfold assign.
  rewrite list_lookup_alter_eq, Hi. reflexivity.
Qed.

Lemma filter_update_where_nil {A} (P : A -> Prop) `{!forall x, Decision (P x)}
  (g : A -> A) (l : list A) :
  (forall x, P x -> ~ P (g x)) -> filter P (update_where P g l) = [].
Proof.
  intros Hg. unfold update_where. induction l as [|a l IH]; [reflexivity|].
  rewrite fmap_cons, filter_cons, IH.
  destruct (decide (P a)) as [Ha|Ha].
  - rewrite decide_False by (apply Hg, Ha). reflexivity.
  - rewrite decide_False by exact Ha. reflexivity.
Qed.

(** Once a reset row holding [T] is used, no later state has an unused one. *)
Lemma used_token_stays_used d0 (w : World) j r T :
  evolved_from d0 w ->
  password_resets d0 !! j = Some r ->
  PasswordReset.reset_token r = T -> PasswordReset.used r = true ->
  forall r', r' ∈ password_resets (committed w) ->
             PasswordReset.reset_token r' = T -> PasswordReset.used r' = true.
Proof.
  intros (Hu & [_ Hg] & _) Hj HT Hused r' Hin HT'.
  destruct (Hg j r Hj) as (r2 & Hj2 & (_ & _ & Htok & _ & Hkeep)).
  apply list_elem_of_lookup in Hin. destruct Hin as [k Hk].
  destruct (unique_key PasswordReset.reset_token (password_resets (committed w))
              k j r' r2) as [_ ->];
    try assumption; [apply Hu | congruence | auto].
Qed.

(** C1 (as the code has it). A stored reset token [T], unused and unexpired,
    bound to user [u]: the first [reset_password T pw] with a strength-valid
    password returns [True], stores the new hash for [u], marks [T] used and
    leaves [u] without active session; whatever requests are served
    afterwards, a further [reset_password T pw2] with a strength-valid
    password fails with 400 "Invalid or expired reset token" and changes
    nothing.  (With a weak [pw2] the call fails with the weak-password error
    instead, as every call with a weak password does.) *)
Theorem reset_password_redeems_once (self : AuthService) (w : World) (T pw : string)
  (r : PasswordReset.t) (u : User.t) :
  integrity (committed w) -> faults w = [] ->
  r ∈ password_resets (committed w) ->
  PasswordReset.reset_token r = T -> PasswordReset.used r = false ->
  clock w < PasswordReset.expires_at r ->
  u ∈ users (committed w) -> User.id u = PasswordReset.user_id r ->
  is_valid (validate_password_strength pw) = true ->
  let w1 := snd (request (reset_password T pw) w) in
  let hashed := bcrypt_hashpw pw (bcrypt_gensalt (entropy w)) in
  fst (request (reset_password T pw) w) = Return true /\
  User.set_password_hash hashed u ∈ users (committed w1) /\
  (forall u', u' ∈ users (committed w1) -> User.id u' = User.id u ->
              User.password_hash u' = hashed) /\
  PasswordReset.set_used true r ∈ password_resets (committed w1) /\
  (forall r', r' ∈ password_resets (committed w1) ->
              PasswordReset.reset_token r' = T -> PasswordReset.used r' = true) /\
  active_sessions (User.id u) (committed w1) = [] /\
  (forall es pw2,
     is_valid (validate_password_strength pw2) = true ->
     let w2 := run self es w1 in
     request (reset_password T pw2) w2
     = (Raise (HTTPException HTTP_400_BAD_REQUEST
                 (Message "Invalid or expired reset token")), open_session w2)).
Proof.
  intros Hint Hf Hr HT Hunused Hfresh Hu Hid Hvalid.
  destruct (reset_password_accepts (open_session w) T pw r u)
    as (i & j & d & Hi & Hj & Hd & Hrun); try assumption; try reflexivity.
  simpl in Hi, Hj, Hd, Hrun.
  unfold request. rewrite Hrun. cbn zeta. cbn [fst snd open_session committed].
  destruct Hint as [[Hpk _] Huniq].
  assert (Hud : unique_constraints d) by (subst d; apply redeemed_unique, Huniq).
  split; [reflexivity|].
  split; [subst d; simpl; apply assign_elem, Hi|].
  split.
  { intros u' Hu' Hid'. subst d. simpl in Hu'.
    assert (E : u' = User.set_password_hash
                       (bcrypt_hashpw pw (bcrypt_gensalt (entropy w))) u).
    { apply (assign_unique_key User.id _ i (users (committed w)) u u' Hpk Hi);
        [intros []; reflexivity | exact Hu' | exact Hid']. }
    rewrite E. reflexivity. }
  split; [subst d; simpl; apply assign_elem, Hj|].
  assert (Hused : forall r', r' ∈ password_resets d ->
            PasswordReset.reset_token r' = T -> PasswordReset.used r' = true).
  { intros r' Hr' HT'. subst d. simpl in Hr'.
    assert (E : r' = PasswordReset.set_used true r).
    { apply (assign_unique_key PasswordReset.reset_token _ j
               (password_resets (committed w)) r r');
        [apply Huniq | exact Hj | intros []; reflexivity | exact Hr' | congruence]. }
    rewrite E. reflexivity. }
  split; [exact Hused|].
  split.
  { subst d. unfold active_sessions. simpl.
    apply filter_update_where_nil. intros s _ [_ Hs]. simpl in Hs. discriminate. }
  intros es pw2 Hvalid2. cbn zeta.
  set (d' := logged "password_reset_completed" (Some (User.id u)) empty_dict None None
               (clock w) d) in *.
  set (w1 := open_session (mkWorld d' d' [] (clock w) (S (entropy w)))).
  assert (Hev : evolved_from d' (run self es w1)).
  { apply evolved_run. apply evolved_from_intro; try apply evolves_refl. exact Hud. }
  assert (Hj' : password_resets d' !! j = Some (PasswordReset.set_used true r)).
  { subst d' d. simpl. unfold assign. rewrite list_lookup_alter_eq, Hj. reflexivity. }
  pose proof (used_token_stays_used d' _ j _ T Hev Hj' HT eq_refl) as Hstay.
  unfold request, reset_password. rewrite Hvalid2. simpl negb. cbv iota.
  unfold bind, utcnow, read_txn. simpl.
  match goal with
  | |- context [first ?P ?l] => destruct (first P l) as [[k r']|] eqn:E
  end; [| reflexivity].
  exfalso. apply first_Some in E. destruct E as (Hk & (HT' & Hun' & _) & _).
  rewrite (Hstay r') in Hun'; [discriminate | | exact HT'].
  apply list_elem_of_lookup. exists k. exact Hk.
Qed.

(** ** Token service *)

Lemma unique_constraints_add_session (d : Db) (s : UserSession.t) :
  unique_constraints d ->
  UserSession.session_token s ∉ UserSession.session_token <$> user_sessions d ->
  UserSession.refresh_token s ∉ UserSession.refresh_token <$> user_sessions d ->
  unique_constraints (with_user_sessions (add s) d).
Proof.
  intros (He & Hn & Hi & Hs & Hr & Ht) Hfs Hfr. unfold unique_constraints, add. simpl.
  rewrite !fmap_app. simpl.
  repeat split; try assumption; apply NoDup_app; (split; [assumption|]);
    (split; [| apply NoDup_singleton]); intros x Hx Hx';
    apply list_elem_of_singleton in Hx'; subst x; contradiction.
Qed.

Lemma generate_tokens_accepts self user_id device_info (w : World) :
  faults w = [] ->
  unique_constraints (with_user_sessions (add (issue self user_id device_info w)) (txn w)) ->
  generate_tokens self user_id device_info w
  = (Return (tokens_of self (clock w) (issue self user_id device_info w)),
     let d := with_user_sessions (add (issue self user_id device_info w)) (txn w) in
     mkWorld d d [] (clock w) (S (entropy w))).
Proof.
  intros Hf Hu. unfold generate_tokens, bind, utcnow, draw, read_txn, modify_txn, ret.
  simpl. rewrite commit_accepts; [reflexivity | exact Hf | exact Hu].
Qed.







(** ** Session registry *)

Lemma filter_update_where_none {A} (P Q : A -> Prop) `{!forall x, Decision (P x)}
  `{!forall x, Decision (Q x)} (g : A -> A) (l : list A) :
  (forall x, ~ P (g x)) -> (forall x, x ∈ l -> P x -> Q x) ->
  filter P (update_where Q g l) = [].
Proof.
  intros Hg. unfold update_where. induction l as [|a l IH]; intros HPQ; [reflexivity|].
  rewrite fmap_cons, filter_cons, IH by (intros x Hx; apply HPQ; right; exact Hx).
  destruct (decide (Q a)) as [Ha|Ha].
  - rewrite decide_False by apply Hg. reflexivity.
  - rewrite decide_False; [reflexivity|]. intros HP. apply Ha, HPQ; [left | exact HP].
Qed.

Lemma filter_update_where_keep {A K} (f : A -> K) (P Q : A -> Prop)
  `{!forall x, Decision (P x)} `{!forall x, Decision (Q x)} (g : A -> A) (l : list A) s :
  NoDup (f <$> l) -> s ∈ l -> P s ->
  (forall x, Q x <-> P x /\ f x <> f s) -> (forall x, ~ P (g x)) ->
  filter P (update_where Q g l) = [s].
Proof.
  intros Hnd Hin HP HQ Hg. induction l as [|a l IH]; [inversion Hin|].
  rewrite fmap_cons in Hnd. apply NoDup_cons in Hnd. destruct Hnd as [Hna Hnd].
  unfold update_where in *. rewrite fmap_cons, filter_cons.
  apply elem_of_cons in Hin. destruct Hin as [<-|Hin].
  - rewrite (decide_False (P := Q s)) by (rewrite HQ; tauto).
    rewrite decide_True by exact HP. f_equal.
    apply filter_update_where_none; [exact Hg|].
    intros x Hx HPx. apply HQ. split; [exact HPx|].
    intros E. apply Hna. rewrite <- E. apply list_elem_of_fmap. eauto.
  - assert (Hne : f a <> f s).
    { intros E. apply Hna. rewrite E. apply list_elem_of_fmap. eauto. }
    rewrite IH by assumption.
    destruct (decide (Q a)) as [Ha|Ha].
    + rewrite decide_False by apply Hg. reflexivity.
    + rewrite decide_False; [reflexivity|]. intros HPa. apply Ha, HQ. tauto.
Qed.

Lemma filter_ext_in {A} (P Q : A -> Prop) `{!forall x, Decision (P x)}
  `{!forall x, Decision (Q x)} (l : list A) :
  (forall x, x ∈ l -> P x <-> Q x) -> filter P l = filter Q l.
Proof.
  induction l as [|a l IH]; intros Hext; [reflexivity|].
  rewrite !filter_cons, IH by (intros x Hx; apply Hext; right; exact Hx).
  destruct (decide (P a)) as [Ha|Ha].
  - rewrite decide_True; [reflexivity|]. apply Hext; [left | exact Ha].
  - rewrite decide_False; [reflexivity|]. intros HQa. apply Ha, Hext; [left | exact HQa].
Qed.

Lemma filter_length_but_one {A K} (f : A -> K) (P Q : A -> Prop)
  `{!forall x, Decision (P x)} `{!forall x, Decision (Q x)} (l : list A) s :
  NoDup (f <$> l) -> s ∈ l -> P s ->
  (forall x, Q x <-> P x /\ f x <> f s) ->
  length (filter P l) = S (length (filter Q l)).
Proof.
  intros Hnd Hin HP HQ. induction l as [|a l IH]; [inversion Hin|].
  rewrite fmap_cons in Hnd. apply NoDup_cons in Hnd. destruct Hnd as [Hna Hnd].
  rewrite !filter_cons.
  apply elem_of_cons in Hin. destruct Hin as [<-|Hin].
  - rewrite decide_True by exact HP.
    rewrite (decide_False (P := Q s)) by (rewrite HQ; tauto).
    simpl. f_equal. f_equal. apply filter_ext_in.
    intros x Hx. rewrite HQ. split; [| tauto]. intros HPx. split; [exact HPx|].
    intros E. apply Hna. rewrite <- E. apply list_elem_of_fmap. eauto.
  - assert (Hne : f a <> f s).
    { intros E. apply Hna. rewrite E. apply list_elem_of_fmap. eauto. }
    specialize (IH Hnd Hin).
    destruct (decide (P a)) as [Ha|Ha].
    + rewrite decide_True by (apply HQ; tauto). simpl. rewrite IH. reflexivity.
    + rewrite decide_False by (rewrite HQ; tauto). exact IH.
Qed.

Lemma revocable_except user_id K (s0 : UserSession.t) :
  K <> "" ->
  revocable user_id (Some K) s0
  <-> (UserSession.user_id s0 = user_id /\ UserSession.is_active s0 = true)
      /\ UserSession.session_token s0 <> K.
Proof.
  intros HK. unfold revocable, truthy.
  destruct (String.eqb_spec K "") as [E|_]; [contradiction|]. simpl.
  split; intros [HP Hne]; (split; [exact HP|]).
  - intros E. apply (Hne eq_refl). congruence.
  - intros _ E. apply Hne. congruence.
Qed.

(** C5. A user with [n] active sessions, one of which holds access token [K]:
    [revoke_all_sessions user_id K] returns [n - 1] and leaves the session
    holding [K] as the user's only active session. *)
Theorem revoke_all_sessions_keeps_current (w : World) (user_id : Z) (K : string)
  (s : UserSession.t) :
  unique_constraints (committed w) -> faults w = [] ->
  s ∈ user_sessions (committed w) ->
  UserSession.user_id s = user_id -> UserSession.is_active s = true ->
  UserSession.session_token s = K -> K <> "" ->
  let n := length (active_sessions user_id (committed w)) in
  let w1 := snd (request (revoke_all_sessions user_id (Some K)) w) in
  fst (request (revoke_all_sessions user_id (Some K)) w) = Return (Z.of_nat n - 1)
  /\ active_sessions user_id (committed w1) = [s].
Proof.
  intros Huniq Hf Hs Huid Hact HK Hne.
  set (d1 := with_user_sessions
               (update_where (revocable user_id (Some K))
                             (UserSession.set_is_active false)) (committed w)).
  assert (Hu1 : unique_constraints d1).
  { revert Huniq. apply unique_constraints_ext; try reflexivity; simpl;
      apply fmap_update_where_key; intros []; reflexivity. }
  assert (Hreq : exists d2,
             request (revoke_all_sessions user_id (Some K)) w
             = (Return (Z.of_nat (length (filter (revocable user_id (Some K))
                                            (user_sessions (committed w))))),
                open_session (mkWorld d2 d2 [] (clock w) (entropy w)))
             /\ user_sessions d2 = user_sessions d1).
  { eexists. unfold request, revoke_all_sessions, bind, read_txn, modify_txn, ret.
    cbn [open_session committed txn faults clock entropy].
    rewrite commit_accepts; [| exact Hf | exact Hu1].
    rewrite log_audit_event_accepts; [| reflexivity | exact Hu1].
    split; reflexivity. }
  destruct Hreq as (d2 & Hreq & Hd2).
  cbn zeta. rewrite !Hreq. cbn [fst snd open_session committed].
  assert (HQ : forall x, revocable user_id (Some K) x
                         <-> (UserSession.user_id x = user_id
                              /\ UserSession.is_active x = true)
                             /\ UserSession.session_token x <> UserSession.session_token s).
  { intros x. rewrite HK. apply revocable_except, Hne. }
  split.
  - f_equal. unfold active_sessions.
    assert (E : length (filter (fun s0 => UserSession.user_id s0 = user_id
                                          /\ UserSession.is_active s0 = true)
                               (user_sessions (committed w)))
                = S (length (filter (revocable user_id (Some K))
                                    (user_sessions (committed w))))).
    { apply (filter_length_but_one UserSession.session_token _ _ _ s); auto.
      apply Huniq. }
    rewrite E. lia.
  - unfold active_sessions. rewrite Hd2. unfold d1. simpl.
    apply (filter_update_where_keep UserSession.session_token); auto.
    + apply Huniq.
    + intros x [_ Hx]. simpl in Hx. discriminate.
Qed.

(** A session row is live for access token [t] at time [now]. *)
Lemma verify_token_access_miss self t (w : World) :
  (forall s, s ∈ user_sessions (txn w) ->
             ~ (UserSession.session_token s = t /\ UserSession.is_active s = true
                /\ clock w < UserSession.expires_at s)) ->
  exists text, verify_token self t "access" w
               = (Raise (HTTPException HTTP_401_UNAUTHORIZED (Message text)), w).
Proof.
  intros Hmiss. unfold verify_token, bind, utcnow, read_txn, unauthorized, raise. simpl.
  destruct (jwt_decode self t (clock w)) as [p| |]; eauto.
  destruct (decide (p_type p ≠ Some "access")); eauto.
  match goal with
  | |- context [first ?P ?l] => destruct (first P l) as [[k s]|] eqn:E
  end; eauto.
  exfalso. apply first_Some in E. destruct E as (Hk & HP & _).
  apply (Hmiss s); [| exact HP]. apply list_elem_of_lookup. eauto.
Qed.

Lemma verify_token_access_hit self t p i s (w : World) :
  faults w = [] -> unique_constraints (txn w) ->
  jwt_decode self t (clock w) = Decoded p -> p_type p = Some "access" ->
  first (fun s0 => UserSession.session_token s0 = t /\ UserSession.is_active s0 = true
                   /\ clock w < UserSession.expires_at s0) (user_sessions (txn w))
  = Some (i, s) ->
  verify_token self t "access" w
  = (Return p,
     let d := with_user_sessions
                (assign i (UserSession.set_last_accessed (clock w))) (txn w) in
     mkWorld d d [] (clock w) (entropy w)).
Proof.
  intros Hf Hu Hd Hty Hfirst.
  unfold verify_token, bind, utcnow, read_txn, modify_txn, ret. simpl.
  rewrite Hd. rewrite decide_False by (rewrite Hty; auto). simpl.
  rewrite Hfirst. rewrite commit_accepts; [reflexivity | exact Hf |].
  revert Hu. apply unique_constraints_ext; try reflexivity; simpl;
    apply fmap_assign_key; intros []; reflexivity.
Qed.

(** C7 (as the code has it). [logout_user t] verifies [t] first.  When no
    active, unexpired session row holds [t] it fails with a 401 response and
    changes nothing (it does not return [False]).  When such a row exists and
    [t] decodes to an access token of the row's user, it deactivates the row,
    records a "logout" audit entry and returns [True]. *)
Theorem logout_user_verifies_first (self : AuthService) (w : World) (t : string) :
  ((forall s, s ∈ user_sessions (committed w) ->
              ~ (UserSession.session_token s = t /\ UserSession.is_active s = true
                 /\ clock w < UserSession.expires_at s)) ->
   exists text,
     request (logout_user self t) w
     = (Raise (HTTPException HTTP_401_UNAUTHORIZED (Message text)), open_session w))
  /\
  (forall s p,
     unique_constraints (committed w) -> faults w = [] ->
     s ∈ user_sessions (committed w) ->
     UserSession.session_token s = t -> UserSession.is_active s = true ->
     clock w < UserSession.expires_at s ->
     jwt_decode self t (clock w) = Decoded p ->
     p_type p = Some "access" -> p_user_id p = Some (UserSession.user_id s) ->
     let w1 := snd (request (logout_user self t) w) in
     fst (request (logout_user self t) w) = Return true /\
     (exists s', s' ∈ user_sessions (committed w1) /\ UserSession.id s' = UserSession.id s
                 /\ UserSession.session_token s' = t) /\
     (forall s', s' ∈ user_sessions (committed w1) ->
                 UserSession.session_token s' = t -> UserSession.is_active s' = false) /\
     (exists a, last (audit_logs (committed w1)) = Some a
                /\ AuditLog.action a = "logout"
                /\ AuditLog.user_id a = Some (UserSession.user_id s))).
Proof.
  split.
  - intros Hmiss. destruct (verify_token_access_miss self t (open_session w) Hmiss)
      as (text & Hv).
    exists text. unfold request, logout_user. rewrite (bind_Raise _ _ _ _ _ Hv).
    reflexivity.
  - intros s p Huniq Hf Hs Htok Hact Hfresh Hd Hty Huid.
    destruct (first_unique UserSession.session_token
                (fun s0 => UserSession.session_token s0 = t
                           /\ UserSession.is_active s0 = true
                           /\ clock w < UserSession.expires_at s0)
                (user_sessions (committed w)) s) as (i & Hfirst & Hi); auto.
    { apply Huniq. }
    { intros y (Hy & _). congruence. }
    set (touch := UserSession.set_last_accessed (clock w)).
    set (d1 := with_user_sessions (assign i touch) (committed w)).
    assert (Hu1 : unique_constraints d1).
    { revert Huniq. apply unique_constraints_ext; try reflexivity; simpl;
        apply fmap_assign_key; intros []; reflexivity. }
    assert (Hi1 : user_sessions d1 !! i = Some (touch s)).
    { unfold d1, assign. simpl. rewrite list_lookup_alter_eq, Hi. reflexivity. }
    destruct (first_unique UserSession.session_token
                (fun s0 => UserSession.session_token s0 = t
                           /\ UserSession.user_id s0 = UserSession.user_id s
                           /\ UserSession.is_active s0 = true)
                (user_sessions d1) (touch s)) as (i' & Hfirst1 & Hi1'); auto.
    { apply Hu1. }
    { apply list_elem_of_lookup. eauto. }
    { intros y (Hy & _). simpl. congruence. }
    set (d2 := with_user_sessions (assign i' (UserSession.set_is_active false)) d1).
    assert (Hu2 : unique_constraints d2).
    { revert Hu1. apply unique_constraints_ext; try reflexivity; simpl;
        apply fmap_assign_key; intros []; reflexivity. }
    set (d3 := logged "logout" (Some (UserSession.user_id s)) empty_dict None None
                 (clock w) d2).
    assert (Hreq : request (logout_user self t) w
                   = (Return true, open_session (mkWorld d3 d3 [] (clock w) (entropy w)))).
    { unfold request, logout_user.
      rewrite (bind_Return _ _ _ _ _
                 (verify_token_access_hit self t p i s (open_session w)
                    Hf Huniq Hd Hty Hfirst)).
      unfold payload_user_id. rewrite Huid.
      unfold bind, ret, read_txn, modify_txn.
      cbn [open_session committed txn faults clock entropy].
      fold touch. fold d1. rewrite Hfirst1.
      rewrite commit_accepts; [| reflexivity | exact Hu2].
      rewrite log_audit_event_accepts; [reflexivity | reflexivity | exact Hu2]. }
    cbn zeta. rewrite !Hreq. cbn [fst snd open_session committed].
    assert (Hi2 : user_sessions d3 !! i'
                  = Some (UserSession.set_is_active false (touch s))).
    { change (user_sessions d3)
        with (assign i' (UserSession.set_is_active false) (user_sessions d1)).
      unfold assign. rewrite list_lookup_alter_eq, Hi1'. reflexivity. }
    split; [reflexivity|]. split; [|split].
    + eexists. split; [apply list_elem_of_lookup; eauto|]. split; [reflexivity | exact Htok].
    + intros s' Hs' Ht'. apply list_elem_of_lookup in Hs'. destruct Hs' as [k Hk].
      destruct (unique_key UserSession.session_token (user_sessions d3) k i' s'
                  (UserSession.set_is_active false (touch s))) as [_ ->];
        try assumption; [apply Hu2 | simpl; congruence | reflexivity].
    + eexists. split; [unfold d3, logged, add; simpl; apply last_snoc|].
      split; reflexivity.
Qed.

(** ** Password-reset request *)

(** C3 (as the code has it). When no active user has the e-mail address,
    [forgot_password] changes nothing (no reset-token row, no audit row) and the
    service signals the miss by raising an HTTP exception of status 200 whose
    detail is the success message; the route re-raises it.  When an active user
    has the address and the database accepts the new token, the route returns
    the success message and exactly one reset-token row is added. *)
Theorem forgot_password_miss_changes_nothing (w : World) (email : string)
  (ip_address user_agent : option string) :
  ((forall u, u ∈ users (committed w) ->
              ~ (User.email u = email /\ User.is_active u = true)) ->
   request (forgot_password email ip_address user_agent) w
   = (Raise (HTTPException HTTP_200_OK (Message reset_message)), open_session w))
  /\
  (forall u,
     unique_constraints (committed w) -> faults w = [] ->
     u ∈ users (committed w) -> User.email u = email -> User.is_active u = true ->
     token_urlsafe (entropy w)
       ∉ PasswordReset.reset_token <$> password_resets (committed w) ->
     let w1 := snd (request (forgot_password email ip_address user_agent) w) in
     fst (request (forgot_password email ip_address user_agent) w)
       = Return (JObj [("message", JStr reset_message)]) /\
     exists r, password_resets (committed w1) = add r (password_resets (committed w))
               /\ PasswordReset.user_id r = User.id u
               /\ PasswordReset.reset_token r = token_urlsafe (entropy w)
               /\ PasswordReset.used r = false
               /\ PasswordReset.expires_at r = clock w + timedelta_hours 1).
Proof.
  split.
  - intros Hmiss.
    unfold request, forgot_password, route_boundary, try_except,
      create_password_reset_token, bind, read_txn. cbn [open_session txn].
    match goal with
    | |- context [first ?P ?l] => destruct (first P l) as [[k u]|] eqn:E
    end; [| reflexivity].
    exfalso. apply first_Some in E. destruct E as (Hk & HP & _).
    apply (Hmiss u); [| exact HP]. apply list_elem_of_lookup. eauto.
  - intros u Huniq Hf Hu Hemail Hact Hnew.
    destruct (first_unique User.email
                (fun u0 => User.email u0 = email /\ User.is_active u0 = true)
                (users (committed w)) u) as (i & Hfirst & Hi); auto.
    { apply Huniq. }
    { intros y (Hy & _). congruence. }
    set (r := PasswordReset.mk (next_id PasswordReset.id (password_resets (committed w)))
                (User.id u) (token_urlsafe (entropy w)) (clock w + timedelta_hours 1)
                false (clock w)).
    set (d1 := with_password_resets (add r) (committed w)).
    assert (Hu1 : unique_constraints d1).
    { destruct Huniq as (He & Hn & Hd & Hs & Hr & Ht).
      unfold unique_constraints, d1, add. simpl. rewrite fmap_app. simpl.
      repeat split; try assumption. apply NoDup_app. split; [assumption|].
      split; [| apply NoDup_singleton]. intros x Hx Hx'.
      apply list_elem_of_singleton in Hx'. subst x. contradiction. }
    assert (Hreq : exists d3,
               request (forgot_password email ip_address user_agent) w
               = (Return (JObj [("message", JStr reset_message)]),
                  open_session (mkWorld d3 d3 [] (clock w) (S (entropy w))))
               /\ password_resets d3 = password_resets d1).
    { eexists. unfold request, forgot_password, route_boundary, try_except,
        create_password_reset_token.
      unfold bind at 1. unfold bind at 1. unfold read_txn at 1.
      cbn [open_session txn]. rewrite Hfirst.
      unfold bind at 1. unfold draw at 1. unfold bind at 1. unfold utcnow at 1.
      unfold bind at 1. unfold modify_txn at 1.
      cbn [open_session committed txn faults clock entropy].
      fold r. fold d1. unfold bind at 1.
      rewrite commit_accepts; [| exact Hf | exact Hu1].
      cbn [txn clock entropy]. unfold bind at 1.
      rewrite log_audit_event_accepts; [| reflexivity | exact Hu1].
      unfold ret at 1. cbn zeta. unfold bind at 1.
      rewrite log_audit_event_accepts; [| reflexivity | exact Hu1].
      unfold ret. split; reflexivity. }
    destruct Hreq as (d3 & Hreq & Hd3).
    cbn zeta. rewrite !Hreq. cbn [fst snd open_session committed].
    split; [reflexivity|]. exists r. rewrite Hd3. repeat split; reflexivity.
Qed.

(** ** Audit log *)

Lemma bind_inv_Raise {A B} (m : M A) (k : A -> M B) w e w2 :
  bind m k w = (Raise e, w2) ->
  m w = (Raise e, w2) \/ exists a w1, m w = (Return a, w1) /\ k a w1 = (Raise e, w2).
Proof.
  unfold bind. destruct (m w) as [[a|e'] w1]; intros E.
  - right. exists a, w1. split; [reflexivity | exact E].
  - left. injection E as -> ->. reflexivity.
Qed.

Lemma commit_inv_Raise w e w' :
  commit w = (Raise e, w') -> (exists pe, e = PythonError pe) /\ committed w' = committed w.
Proof.
  unfold commit. destruct (faults w) as [|[|] fs];
    try case_bool_decide; intros [= <- <-]; eauto.
Qed.

Lemma log_audit_event_inv_Return action user_id details ip ua w w1 :
  log_audit_event action user_id details ip ua w = (Return tt, w1) ->
  committed w1 = logged action user_id (or_empty_dict details) ip ua (clock w) (txn w)
  /\ txn w1 = committed w1 /\ audited action w1.
Proof.
  unfold log_audit_event, bind, utcnow, read_txn, modify_txn. simpl. intros E.
  apply commit_inv_Return in E. destruct E as [_ ->]. simpl.
  split; [reflexivity|]. split; [reflexivity|].
  eexists. split; [unfold add; apply last_snoc | reflexivity].
Qed.

Lemma log_audit_event_inv_Raise action user_id details ip ua w e w1 :
  log_audit_event action user_id details ip ua w = (Raise e, w1) ->
  (exists pe, e = PythonError pe) /\ committed w1 = committed w.
Proof.
  unfold log_audit_event, bind, utcnow, read_txn, modify_txn. simpl. intros E.
  apply commit_inv_Raise in E. exact E.
Qed.


Lemma get_user_permissions_world user_id w r w1 :
  get_user_permissions user_id w = (r, w1) -> w1 = w.
Proof.
  unfold get_user_permissions, bind, read_txn, ret.
  destruct (first _ _) as [[? ?]|]; intros [= _ <-]; reflexivity.
Qed.

(** Unwinds the runs that returned a value down to their last action. *)
Ltac unwind :=
  repeat match goal with
    | H : bind _ _ _ = (Return _, _) |- _ =>
        let H1 := fresh "Hrun" in
        apply bind_inv_Return in H; destruct H as (? & ? & H1 & H); cbv beta in H
    | H : ret _ _ = (Return _, _) |- _ =>
        unfold ret in H; first [discriminate H | injection H; clear H; intros; subst]
    | H : raise _ _ = (Return _, _) |- _ => discriminate H
    | H : bad_request _ _ = (Return _, _) |- _ => discriminate H
    | H : unauthorized _ _ = (Return _, _) |- _ => discriminate H
    | H : commit_not_null_violation _ = (Return _, _) |- _ => discriminate H
    | H : login_failed _ _ = (Return _, _) |- _ => unfold login_failed in H
    | H : (match ?x with _ => _ end) _ = (Return _, _) |- _ => destruct x eqn:?
    | H : (if ?b then _ else _) _ = (Return _, _) |- _ => destruct b eqn:?
    | H : log_audit_event _ _ _ _ _ _ = (Return ?u, _) |- _ =>
        destruct u; apply log_audit_event_inv_Return in H; destruct H as (? & ? & ?)
    | H : get_user_permissions _ _ = (_, _) |- _ =>
        apply get_user_permissions_world in H; subst
    end.

Lemma generate_tokens_inv_Raise self user_id device_info w e w1 :
  generate_tokens self user_id device_info w = (Raise e, w1) -> exists pe, e = PythonError pe.
Proof.
  unfold generate_tokens, bind, utcnow, draw, read_txn, modify_txn, ret. simpl.
  match goal with |- context [commit ?w0] => destruct (commit w0) as [[[]|e'] w'] eqn:E end;
    intros [= <- <-].
  apply commit_inv_Raise in E. tauto.
Qed.

(** Which step of a run raised an HTTP exception. *)
Ltac blame :=
  repeat match goal with
    | H : bind _ _ _ = (Raise _, _) |- _ =>
        apply bind_inv_Raise in H; destruct H as [H | (? & ? & ? & H)]; cbv beta in H
    | H : utcnow _ = (Raise _, _) |- _ => discriminate H
    | H : read_txn _ = (Raise _, _) |- _ => discriminate H
    | H : draw _ = (Raise _, _) |- _ => discriminate H
    | H : modify_txn _ _ = (Raise _, _) |- _ => discriminate H
    | H : ret _ _ = (Raise _, _) |- _ => discriminate H
    | H : commit _ = (Raise (HTTPException _ _), _) |- _ =>
        apply commit_inv_Raise in H; destruct H as [[? ?] _]; discriminate
    | H : log_audit_event _ _ _ _ _ _ = (Raise (HTTPException _ _), _) |- _ =>
        apply log_audit_event_inv_Raise in H; destruct H as [[? ?] _]; discriminate
    | H : generate_tokens _ _ _ _ = (Raise (HTTPException _ _), _) |- _ =>
        apply generate_tokens_inv_Raise in H; destruct H as [? ?]; discriminate
    | H : get_user_permissions _ _ = (Raise _, _) |- _ =>
        unfold get_user_permissions, bind, read_txn, ret in H;
        destruct (first _ _) as [[? ?]|] in H; discriminate H
    | H : (match ?x with _ => _ end) _ = (Raise _, _) |- _ => destruct x eqn:?
    | H : (if ?b then _ else _) _ = (Raise _, _) |- _ => destruct b eqn:?
    | H : log_audit_event _ _ _ _ _ _ = (Return ?u, _) |- _ =>
        destruct u; apply log_audit_event_inv_Return in H; destruct H as (? & ? & ?)
    | H : unauthorized _ _ = (Raise _, _) |- _ =>
        unfold unauthorized, raise in H; injection H; clear H; intros; subst
    end.



End Properties.

(** ** Rate limiter *)

Lemma stored_insert key (v : list Q) (storage : Storage) :
  stored key (<[key := v]> storage) = v.
Proof. unfold stored. rewrite lookup_insert_eq. reflexivity. Qed.

Lemma filter_all {A} (P : A -> Prop) `{!forall x, Decision (P x)} (l : list A) :
  (forall x, x ∈ l -> P x) -> filter P l = l.
Proof.
  induction l as [|a l IH]; intros HP; [reflexivity|].
  rewrite filter_cons, decide_True by (apply HP; left).
  rewrite IH; [reflexivity|]. intros x Hx. apply HP. right. exact Hx.
Qed.

Lemma filter_none {A} (P : A -> Prop) `{!forall x, Decision (P x)} (l : list A) :
  (forall x, x ∈ l -> ~ P x) -> filter P l = [].
Proof.
  induction l as [|a l IH]; intros HP; [reflexivity|].
  rewrite filter_cons, decide_False by (apply HP; left).
  apply IH. intros x Hx. apply HP. right. exact Hx.
Qed.

(** What a check leaves in the window of its key: the entries of the last
    hour, followed by the current time exactly when the check is allowed. *)
Lemma is_allowed_records self identifier endpoint now (storage : Storage) :
  stored (rate_key identifier endpoint)
         (snd (is_allowed self identifier endpoint now storage))
  = (keep_last_hour now (stored (rate_key identifier endpoint) storage)
     ++ (if fst (is_allowed self identifier endpoint now storage) then [now] else []))%list.
Proof.
  unfold is_allowed. cbn zeta.
  destruct (_ || _)%bool; simpl; rewrite !stored_insert; [rewrite app_nil_r|]; reflexivity.
Qed.

Lemma is_allowed_answer self identifier endpoint now (storage : Storage) :
  fst (is_allowed self identifier endpoint now storage)
  = negb ((requests_per_minute self
             <=? Z.of_nat (length (in_last_minute now
                   (keep_last_hour now (stored (rate_key identifier endpoint) storage)))))
          || (requests_per_hour self
                <=? Z.of_nat (length
                      (keep_last_hour now (stored (rate_key identifier endpoint) storage))))).
Proof.
  unfold is_allowed. cbn zeta. rewrite !stored_insert.
  destruct (_ || _)%bool; reflexivity.
Qed.

Lemma checks_fresh_window identifier endpoint (times pre : list Q) (storage : Storage) :
  stored (rate_key identifier endpoint) storage = pre ->
  (forall a b, a ∈ pre ++ times -> b ∈ pre ++ times -> (a - b < 60)%Q) ->
  (length pre + length times <= 60)%nat ->
  fst (checks default_rate_limiter identifier endpoint times storage)
    = replicate (length times) true
  /\ stored (rate_key identifier endpoint)
            (snd (checks default_rate_limiter identifier endpoint times storage))
     = (pre ++ times)%list.
Proof.
  revert pre storage. induction times as [|now rest IH]; intros pre storage Hpre Hspan Hlen.
  - simpl. rewrite app_nil_r. auto.
  - simpl in Hlen. cbn [checks].
    pose proof (is_allowed_records default_rate_limiter identifier endpoint now storage) as Hrec.
    pose proof (is_allowed_answer default_rate_limiter identifier endpoint now storage) as Hans.
    destruct (is_allowed default_rate_limiter identifier endpoint now storage)
      as [answer storage1]. cbn [fst snd] in Hrec, Hans.
    assert (Hnow : now ∈ pre ++ now :: rest) by (apply elem_of_app; right; left).
    assert (Hkeep : keep_last_hour now pre = pre).
    { apply filter_all. intros x Hx.
      assert (now - x < 60)%Q by (apply Hspan; [exact Hnow | apply elem_of_app; auto]).
      lra. }
    assert (Hmin : in_last_minute now pre = pre).
    { apply filter_all. intros x Hx.
      assert (now - x < 60)%Q by (apply Hspan; [exact Hnow | apply elem_of_app; auto]).
      lra. }
    rewrite Hpre, Hkeep in Hrec, Hans. rewrite Hmin in Hans.
    assert (answer = true) as ->.
    { rewrite Hans. simpl.
      rewrite (proj2 (Z.leb_gt 60 _)) by lia.
      rewrite (proj2 (Z.leb_gt 1000 _)) by lia. reflexivity. }
    destruct (IH (pre ++ [now])%list storage1) as [Hfst Hsnd].
    + exact Hrec.
    + intros a b Ha Hb. apply Hspan; rewrite <- app_assoc in *; assumption.
    + rewrite length_app. simpl. lia.
    + destruct (checks default_rate_limiter identifier endpoint rest storage1)
        as [answers storage2]. cbn [fst snd] in *.
      rewrite Hfst, Hsnd, <- app_assoc. split; reflexivity.
Qed.

(** C8. Under the default caps, for a key with no recorded request: 60 checks
    within a 60-second span are all allowed, the 61st check within that span
    is denied and leaves the window as it was, and a check made more than 60
    seconds after those calls is allowed again.  In general a check leaves in
    the window the entries of the last hour, followed by the current time
    exactly when it is allowed. *)
Theorem rate_limiter_minute_cap (identifier endpoint : string) (storage : Storage)
  (times : list Q) (t t' : Q) :
  stored (rate_key identifier endpoint) storage = [] ->
  length times = 60%nat ->
  (forall a b, a ∈ times ++ [t] -> b ∈ times ++ [t] -> (a - b < 60)%Q) ->
  (forall a, a ∈ times -> (a + 60 < t')%Q) ->
  let key := rate_key identifier endpoint in
  let st60 := snd (checks default_rate_limiter identifier endpoint times storage) in
  let st61 := snd (is_allowed default_rate_limiter identifier endpoint t st60) in
  fst (checks default_rate_limiter identifier endpoint times storage) = replicate 60 true /\
  fst (is_allowed default_rate_limiter identifier endpoint t st60) = false /\
  stored key st61 = stored key st60 /\
  fst (is_allowed default_rate_limiter identifier endpoint t' st61) = true /\
  (forall self now (st : Storage),
     stored key (snd (is_allowed self identifier endpoint now st))
     = (keep_last_hour now (stored key st)
        ++ (if fst (is_allowed self identifier endpoint now st) then [now] else []))%list).
Proof.
  intros Hfresh Hlen Hspan Hlater. cbn zeta.
  destruct (checks_fresh_window identifier endpoint times [] storage Hfresh)
    as [Hfst Hsnd].
  { intros a b Ha Hb. simpl in Ha, Hb.
    apply Hspan; apply elem_of_app; left; assumption. }
  { simpl. lia. }
  simpl in Hsnd. rewrite Hlen in Hfst.
  set (st60 := snd (checks default_rate_limiter identifier endpoint times storage)) in *.
  assert (Ht : t ∈ times ++ [t]) by (apply elem_of_app; right; left).
  assert (Hkeep : keep_last_hour t times = times).
  { apply filter_all. intros x Hx.
    assert (t - x < 60)%Q by (apply Hspan; [exact Ht | apply elem_of_app; auto]). lra. }
  assert (Hmin : in_last_minute t times = times).
  { apply filter_all. intros x Hx.
    assert (t - x < 60)%Q by (apply Hspan; [exact Ht | apply elem_of_app; auto]). lra. }
  assert (H61 : fst (is_allowed default_rate_limiter identifier endpoint t st60) = false).
  { rewrite is_allowed_answer, Hsnd, Hkeep, Hmin, Hlen. reflexivity. }
  assert (Hst61 : stored (rate_key identifier endpoint)
                    (snd (is_allowed default_rate_limiter identifier endpoint t st60))
                  = times).
  { rewrite is_allowed_records, H61, Hsnd, Hkeep, app_nil_r. reflexivity. }
  split; [exact Hfst|]. split; [exact H61|]. split; [rewrite Hst61, Hsnd; reflexivity|].
  split; [| intros; apply is_allowed_records].
  rewrite is_allowed_answer, Hst61.
  assert (Hnone : in_last_minute t' (keep_last_hour t' times) = []).
  { apply filter_none. intros x Hx Hlt.
    apply list_elem_of_filter in Hx. destruct Hx as [_ Hx].
    specialize (Hlater x Hx). lra. }
  rewrite Hnone. simpl.
  assert (Hle : (length (keep_last_hour t' times) <= 60)%nat).
  { rewrite <- Hlen. apply length_filter. }
  rewrite (proj2 (Z.leb_gt 1000 _)) by lia. reflexivity.
Qed.

(** ** CSRF tokens *)

Lemma uint_digit_chars d : digit_chars (list_ascii_of_string (NilEmpty.string_of_uint d)).
Proof. induction d; simpl; constructor; (reflexivity || assumption). Qed.

Lemma digit_not_space c : isdigit c = true -> is_space c = false.
Proof. destruct c as [[|] [|] [|] [|] [|] [|] [|] [|]]; vm_compute; congruence. Qed.

Lemma digit_not_sign c : isdigit c = true -> c <> "-"%char /\ c <> "+"%char.
Proof.
  destruct c as [[|] [|] [|] [|] [|] [|] [|] [|]]; vm_compute; intros E;
    try discriminate E; split; discriminate.
Qed.

Lemma digit_not_separator c : isdigit c = true -> c <> "."%char /\ c <> ":"%char.
Proof.
  destruct c as [[|] [|] [|] [|] [|] [|] [|] [|]]; vm_compute; intros E;
    try discriminate E; split; discriminate.
Qed.

Lemma lstrip_head c l : is_space c = false -> lstrip (c :: l) = c :: l.
Proof. intros E. simpl. rewrite E. reflexivity. Qed.

Lemma strip_digits_end c l :
  is_space c = false -> digit_chars l -> l <> [] -> strip (c :: l) = c :: l.
Proof.
  intros Hc Hl Hne. unfold strip. rewrite lstrip_head by exact Hc.
  destruct (exists_last Hne) as (l' & z & ->).
  unfold digit_chars in Hl. rewrite Forall_app, Forall_singleton in Hl.
  destruct Hl as [_ Hz].
  assert (E : rev (c :: l' ++ [z]) = z :: rev (c :: l'))
    by (rewrite app_comm_cons; apply rev_unit).
  rewrite E, lstrip_head by (apply digit_not_space, Hz).
  rewrite <- E. apply rev_involutive.
Qed.

Lemma strip_digits l : digit_chars l -> l <> [] -> strip l = l.
Proof.
  intros Hl Hne. destruct l as [|c l]; [contradiction|].
  unfold digit_chars in Hl. rewrite Forall_cons in Hl. destruct Hl as [Hc Hl].
  destruct l as [|c' l].
  - unfold strip. rewrite lstrip_head by (apply digit_not_space, Hc). simpl.
    rewrite (digit_not_space c Hc). reflexivity.
  - apply strip_digits_end; [apply digit_not_space, Hc | exact Hl | discriminate].
Qed.

Lemma literal_digits_after l : digit_chars l -> literal_digits true l = Some l.
Proof.
  induction 1 as [|c l Hc _ IH]; [reflexivity|].
  simpl. rewrite Hc, IH. reflexivity.
Qed.

Lemma literal_digits_start l : digit_chars l -> l <> [] -> literal_digits false l = Some l.
Proof.
  intros Hl Hne. destruct l as [|c l]; [contradiction|].
  unfold digit_chars in Hl. rewrite Forall_cons in Hl. destruct Hl as [Hc Hl].
  simpl. rewrite Hc, (literal_digits_after l Hl). reflexivity.
Qed.

Lemma uint_chars_nonempty d :
  d <> Decimal.Nil -> list_ascii_of_string (NilEmpty.string_of_uint d) <> [].
Proof. destruct d; simpl; congruence. Qed.

Lemma digits_value_uint d :
  d <> Decimal.Nil ->
  digits_value (list_ascii_of_string (NilEmpty.string_of_uint d)) = Some (Z.of_uint d).
Proof.
  intros Hd. unfold digits_value.
  rewrite literal_digits_start by (apply uint_digit_chars || apply uint_chars_nonempty, Hd).
  simpl. rewrite string_of_list_ascii_of_string, NilEmpty.usu. reflexivity.
Qed.

Lemma py_int_uint d :
  d <> Decimal.Nil -> py_int (NilEmpty.string_of_uint d) = Some (Z.of_uint d).
Proof.
  intros Hd. unfold py_int.
  rewrite strip_digits by (apply uint_digit_chars || apply uint_chars_nonempty, Hd).
  pose proof (digits_value_uint d Hd) as Hv.
  pose proof (uint_digit_chars d) as Hc.
  destruct (list_ascii_of_string (NilEmpty.string_of_uint d)) as [|c l] eqn:E.
  - exfalso. apply (uint_chars_nonempty d Hd E).
  - unfold digit_chars in Hc. rewrite Forall_cons in Hc. destruct Hc as [Hc _].
    destruct (digit_not_sign c Hc) as [Hm Hp].
    destruct c as [[|] [|] [|] [|] [|] [|] [|] [|]]; try exact Hv; congruence.
Qed.

Lemma py_int_neg_uint d :
  d <> Decimal.Nil ->
  py_int (String "-" (NilEmpty.string_of_uint d)) = Some (- Z.of_uint d).
Proof.
  intros Hd. unfold py_int. cbn [list_ascii_of_string].
  rewrite strip_digits_end;
    [| reflexivity | apply uint_digit_chars | apply uint_chars_nonempty, Hd].
  rewrite digits_value_uint by exact Hd. reflexivity.
Qed.

(** [int(str(n)) == n] *)
Lemma py_int_py_str n : py_int (py_str n) = Some n.
Proof.
  unfold py_str. rewrite <- (DecimalZ.of_to n) at 2.
  destruct n as [|p|p]; simpl.
  - reflexivity.
  - pose proof (DecimalPos.Unsigned.to_uint_nonnil p) as Hp.
    unfold NilZero.string_of_uint.
    destruct (Pos.to_uint p) eqn:E; try contradiction; rewrite <- E;
      apply py_int_uint; rewrite E; discriminate.
  - pose proof (DecimalPos.Unsigned.to_uint_nonnil p) as Hp.
    unfold NilZero.string_of_uint.
    destruct (Pos.to_uint p) eqn:E; try contradiction; rewrite <- E;
      apply py_int_neg_uint; rewrite E; discriminate.
Qed.

Lemma py_str_chars n : Forall numeral_char (list_ascii_of_string (py_str n)).
Proof.
  assert (Hu : forall d, Forall numeral_char
                           (list_ascii_of_string (NilZero.string_of_uint d))).
  { intros d. unfold NilZero.string_of_uint.
    assert (Hd : Forall numeral_char (list_ascii_of_string (NilEmpty.string_of_uint d))).
    { eapply Forall_impl; [apply uint_digit_chars|]. intros c Hc. left. exact Hc. }
    destruct d; try exact Hd. repeat constructor. }
  unfold py_str. destruct (Z.to_int n) as [d|d]; simpl; [apply Hu|].
  constructor; [right; reflexivity | apply Hu].
Qed.

Lemma split_once_app sep (a b : string) :
  Forall (fun c => c <> sep) (list_ascii_of_string a) ->
  split_once sep (a +:+ String sep b) = Some (a, b).
Proof.
  induction a as [|c a IH]; simpl; intros Ha.
  - rewrite Ascii.eqb_refl. reflexivity.
  - rewrite Forall_cons in Ha. destruct Ha as [Hc Ha].
    rewrite (proj2 (Ascii.eqb_neq c sep) Hc), IH by exact Ha. reflexivity.
Qed.

Lemma py_str_without sep n :
  sep <> "-"%char -> isdigit sep = false ->
  Forall (fun c => c <> sep) (list_ascii_of_string (py_str n)).
Proof.
  intros Hm Hd. eapply Forall_impl; [apply py_str_chars|].
  intros c [Hc | ->] E; subst; congruence.
Qed.

(** The signed message determines the user id. *)
Lemma csrf_message_inj user_id user_id' timestamp :
  csrf_message user_id timestamp = csrf_message user_id' timestamp -> user_id = user_id'.
Proof.
  unfold csrf_message. intros E.
  assert (Hs : forall n, split_once ":" (py_str n +:+ ":" +:+ timestamp)
                         = Some (py_str n, timestamp)).
  { intros n. apply (split_once_app ":" (py_str n) timestamp).
    apply py_str_without; [discriminate | reflexivity]. }
  pose proof (Hs user_id) as H1. rewrite E, Hs in H1.
  injection H1 as H1. apply (f_equal py_int) in H1.
  rewrite !py_int_py_str in H1. congruence.
Qed.

Section CSRFProperties.
Context `{Externals}.
Variable self : CSRFProtection.

Lemma validate_generated_token user_id user_id' max_age now now' :
  validate_token self (generate_token self user_id now) user_id' max_age now'
  = if decide (inject_Z max_age < now' - inject_Z (int_of_float now))%Q
    then false
    else String.eqb
           (hmac_sha256_hexdigest (secret self)
              (csrf_message user_id (py_str (int_of_float now))))
           (hmac_sha256_hexdigest (secret self)
              (csrf_message user_id' (py_str (int_of_float now)))).
Proof.
  unfold validate_token, generate_token.
  match goal with
  | |- context [?a +:+ "." +:+ ?b] => change (a +:+ "." +:+ b) with (a +:+ String "." b)
  end.
  rewrite (split_once_app "." (py_str (int_of_float now)))
    by (apply py_str_without; [discriminate | reflexivity]).
  rewrite py_int_py_str. reflexivity.
Qed.

(** C9. [generate_token user_id] has the form "<timestamp>.<signature>", the
    signature being the HMAC-SHA256 hex digest of "user_id:timestamp" under
    the server secret.  The token validates for [user_id] whenever it is
    checked within [max_age] of its timestamp; it is rejected for every user
    once [max_age] has elapsed, and it is rejected for a user id whose signed
    message has a different digest (no HMAC collision). *)
Theorem csrf_token_round_trip (user_id : Z) (now : Q) :
  let timestamp := py_str (int_of_float now) in
  let token := generate_token self user_id now in
  token = timestamp +:+ "."
            +:+ hmac_sha256_hexdigest (secret self)
                  (py_str user_id +:+ ":" +:+ timestamp) /\
  (forall max_age now',
     (now' - inject_Z (int_of_float now) <= inject_Z max_age)%Q ->
     validate_token self token user_id max_age now' = true) /\
  (forall user_id' max_age now',
     (inject_Z max_age < now' - inject_Z (int_of_float now))%Q ->
     validate_token self token user_id' max_age now' = false) /\
  (forall user_id' max_age now',
     hmac_sha256_hexdigest (secret self) (csrf_message user_id' timestamp)
       <> hmac_sha256_hexdigest (secret self) (csrf_message user_id timestamp) ->
     validate_token self token user_id' max_age now' = false).
Proof.
  cbn zeta. split; [reflexivity|]. split; [|split].
  - intros max_age now' Hage. rewrite validate_generated_token.
    rewrite decide_False by (apply Qle_not_lt, Hage). apply String.eqb_refl.
  - intros user_id' max_age now' Hage. rewrite validate_generated_token.
    rewrite decide_True by exact Hage. reflexivity.
  - intros user_id' max_age now' Hne. rewrite validate_generated_token.
    destruct (decide _); [reflexivity|].
    apply String.eqb_neq. congruence.
Qed.

End CSRFProperties.

(** * The properties at work on a sample database *)

Lemma sample_db_integrity : integrity sample_db.
Proof. repeat split; apply (bool_decide_unpack _); vm_compute; exact I. Qed.

Lemma validate_rejects_abc : is_valid (validate_password_strength "abc") = false.
Proof. reflexivity. Qed.

Lemma validate_accepts_sample : is_valid (validate_password_strength "Abcdef1!") = true.
Proof. reflexivity. Qed.

Lemma reset_password_rejects_weak_password_first_witness :
  reset_password "reset-1" "abc" sample_world
  = (Raise (HTTPException HTTP_400_BAD_REQUEST
              (MessageWithErrors "Password does not meet requirements"
                 (errors (validate_password_strength "abc")))), sample_world).
Proof.
  apply (reset_password_rejects_weak_password_first "reset-1" "abc" sample_world).
  reflexivity.
Defined.

Lemma reset_password_redeems_once_witness :
  fst (request (reset_password "reset-1" "Abcdef1!") sample_world) = Return true.
Proof.
  apply (reset_password_redeems_once default_auth_service sample_world
           "reset-1" "Abcdef1!" sample_reset sample_user).
  - exact sample_db_integrity.
  - reflexivity.
  - simpl. left.
  - reflexivity.
  - reflexivity.
  - vm_compute. reflexivity.
  - simpl. left.
  - reflexivity.
  - reflexivity.
Defined.

(** The second redemption of a used token with a weak password is answered
    with the weak-password error, not with "Invalid or expired reset token". *)
Lemma reset_password_second_call_weak_password :
  fst (request (reset_password "reset-1" "Abcdef1!") sample_world) = Return true
  /\ fst (request (reset_password "reset-1" "abc")
            (snd (request (reset_password "reset-1" "Abcdef1!") sample_world)))
     <> Raise (HTTPException HTTP_400_BAD_REQUEST
                 (Message "Invalid or expired reset token")).
Proof.
  split; [vm_compute; reflexivity|]. intros E. vm_compute in E. discriminate E.
Qed.

Ltac by_computation := apply (bool_decide_unpack _); vm_compute; exact I.


Lemma revoke_all_sessions_keeps_current_witness :
  fst (request (revoke_all_sessions 1 (Some "A1.a.")) sample_world) = Return 1
  /\ active_sessions 1
       (committed (snd (request (revoke_all_sessions 1 (Some "A1.a.")) sample_world)))
     = [sample_session 1 "A1.a." "R1.a.j1" true].
Proof.
  apply (revoke_all_sessions_keeps_current sample_world 1 "A1.a."
           (sample_session 1 "A1.a." "R1.a.j1" true)).
  - apply sample_db_integrity.
  - reflexivity.
  - simpl. left.
  - reflexivity.
  - reflexivity.
  - reflexivity.
  - discriminate.
Defined.

Lemma logout_user_verifies_first_witness :
  fst (request (logout_user default_auth_service "A1.a.") sample_world) = Return true.
Proof.
  apply (proj2 (logout_user_verifies_first default_auth_service sample_world "A1.a.")
           (sample_session 1 "A1.a." "R1.a.j1" true)
           (mkPayload (Some 1) (Some "access") None None None)).
  - apply sample_db_integrity.
  - reflexivity.
  - simpl. left.
  - reflexivity.
  - reflexivity.
  - vm_compute. reflexivity.
  - vm_compute. reflexivity.
  - reflexivity.
  - reflexivity.
Defined.

(** Logging out with the token of a session that is already inactive fails
    with a 401 response; it does not return [False]. *)
Lemma logout_user_of_inactive_session_raises :
  fst (request (logout_user default_auth_service "A1.c.") sample_world)
  = Raise (HTTPException HTTP_401_UNAUTHORIZED (Message "Token not found or expired"))
  /\ fst (request (logout_user default_auth_service "A1.c.") sample_world)
     <> Return false.
Proof.
  split; [vm_compute; reflexivity|]. intros E. vm_compute in E. discriminate E.
Qed.

Lemma forgot_password_miss_changes_nothing_witness :
  request (forgot_password "nobody@x.com" None None) sample_world
  = (Raise (HTTPException HTTP_200_OK (Message reset_message)),
     open_session sample_world).
Proof.
  apply (proj1 (forgot_password_miss_changes_nothing sample_world "nobody@x.com"
                  None None)).
  intros u Hu [He _]. simpl in Hu. apply list_elem_of_singleton in Hu. subst u.
  discriminate He.
Defined.

(** For an unknown address the route raises (status 200) instead of returning
    the success body that a known address gets. *)
Lemma forgot_password_miss_raises_past_the_route :
  fst (request (forgot_password "a@x.com" None None) sample_world)
  = Return (JObj [("message", JStr reset_message)])
  /\ fst (request (forgot_password "nobody@x.com" None None) sample_world)
     = Raise (HTTPException HTTP_200_OK (Message reset_message))
  /\ fst (request (forgot_password "nobody@x.com" None None) sample_world)
     <> fst (request (forgot_password "a@x.com" None None) sample_world).
Proof.
  split; [vm_compute; reflexivity|]. split; [vm_compute; reflexivity|].
  intros E. vm_compute in E. discriminate E.
Qed.



Lemma rate_limiter_minute_cap_witness :
  fst (checks default_rate_limiter "10.0.0.1" "general" (replicate 60 0%Q) ∅)
    = replicate 60 true
  /\ fst (is_allowed default_rate_limiter "10.0.0.1" "general" 30%Q
            (snd (checks default_rate_limiter "10.0.0.1" "general" (replicate 60 0%Q) ∅)))
     = false.
Proof.
  pose proof (rate_limiter_minute_cap "10.0.0.1" "general" ∅ (replicate 60 0%Q)
                30%Q 61%Q) as P.
  cbn zeta in P. destruct P as (P1 & P2 & _).
  - reflexivity.
  - reflexivity.
  - intros a b Ha Hb.
    assert (Hall : Forall (fun a => Forall (fun b => (a - b < 60)%Q)
                                      (replicate 60 0%Q ++ [30%Q]))
                     (replicate 60 0%Q ++ [30%Q])) by by_computation.
    rewrite Forall_forall in Hall. specialize (Hall a Ha).
    rewrite Forall_forall in Hall. exact (Hall b Hb).
  - intros a Ha. apply elem_of_replicate in Ha. destruct Ha as [-> _]. reflexivity.
  - split; assumption.
Defined.

Lemma csrf_token_round_trip_witness :
  validate_token csrf_protection (generate_token csrf_protection 7 1000%Q) 7 3600 2000%Q
  = true.
Proof.
  destruct (csrf_token_round_trip csrf_protection 7 1000%Q) as (_ & Hvalid & _).
  apply Hvalid. vm_compute. discriminate.
Defined.

(** * Further properties of the service and the middleware *)

(** ** Role gates *)

Lemma in_roles_iff role_name user :
  in_roles role_name user = true <-> role_name ∈ role_names user.
Proof. unfold in_roles. apply bool_decide_eq_true. Qed.

Lemma any_role_in_iff allowed user :
  any_role_in allowed user = true <-> exists r, r ∈ role_names user /\ r ∈ allowed.
Proof.
  unfold any_role_in. rewrite existsb_exists. split.
  - intros (r & Hr & Ha). exists r. split; [apply list_elem_of_In, Hr|].
    apply bool_decide_eq_true in Ha. exact Ha.
  - intros (r & Hr & Ha). exists r. split; [apply list_elem_of_In, Hr|].
    apply bool_decide_eq_true. exact Ha.
Qed.

Lemma any_role_in_weaken allowed allowed' user :
  (forall r, r ∈ allowed -> r ∈ allowed') ->
  any_role_in allowed user = true -> any_role_in allowed' user = true.
Proof.
  rewrite !any_role_in_iff. intros Hsub (r & Hr & Ha). exists r. auto.
Qed.

Lemma any_role_in_has role_name allowed user :
  role_name ∈ allowed -> in_roles role_name user = true ->
  any_role_in allowed user = true.
Proof.
  rewrite in_roles_iff, any_role_in_iff. intros Ha Hr. exists role_name. auto.
Qed.

Ltac in_list := solve [repeat first [left | right]].
Ltac sub_list :=
  let r := fresh "r" in let Hr := fresh "Hr" in
  intros r Hr;
  repeat (apply elem_of_cons in Hr; destruct Hr as [->|Hr]; [in_list|]);
  inversion Hr.

Lemma can_edit_properties_iff (user : User.t) (agent_id : option Z) :
  PermissionChecker.can_edit_properties user agent_id = true
  <-> "admin" ∈ role_names user
      \/ ("agent" ∈ role_names user
          /\ (agent_id = None \/ agent_id = Some (User.id user))).
Proof.
  unfold PermissionChecker.can_edit_properties, unowned_or_own.
  destruct (in_roles "admin" user) eqn:Ha.
  - apply in_roles_iff in Ha. tauto.
  - assert (Hna : ~ "admin" ∈ role_names user)
      by (rewrite <- in_roles_iff, Ha; discriminate).
    destruct (in_roles "agent" user) eqn:Hg.
    + apply in_roles_iff in Hg. destruct agent_id as [a|].
      * rewrite Z.eqb_eq. split.
        -- intros ->. right. auto.
        -- intros [?|[_ [E|E]]]; [contradiction | discriminate | congruence].
      * split; auto.
    + assert (Hng : ~ "agent" ∈ role_names user)
        by (rewrite <- in_roles_iff, Hg; discriminate).
      split; [discriminate | tauto].
Qed.

(** X1. The ownership rule of [can_edit_properties]: an admin may edit every
    property; an agent may edit a property exactly when it has no owning agent
    or the agent owns it; nobody else may edit anything.  Deleting a property
    and managing a client follow the same rule. *)
Theorem can_edit_properties_ownership (user : User.t) (agent_id : option Z) :
  (PermissionChecker.can_edit_properties user agent_id = true
   <-> "admin" ∈ role_names user
       \/ ("agent" ∈ role_names user
           /\ (agent_id = None \/ agent_id = Some (User.id user)))) /\
  PermissionChecker.can_delete_properties user agent_id
    = PermissionChecker.can_edit_properties user agent_id /\
  PermissionChecker.can_manage_clients user agent_id
    = PermissionChecker.can_edit_properties user agent_id.
Proof.
  split; [apply can_edit_properties_iff | split; reflexivity].
Qed.

(** X2. The checks of [PermissionChecker] are ordered: whoever may manage
    users may edit every property; whoever may edit some property may create
    properties; whoever may create properties may view analytics; whoever may
    view analytics may read properties. *)
Theorem permission_checks_are_ordered (user : User.t) (agent_id : option Z) :
  (PermissionChecker.can_manage_users user = true ->
   forall a, PermissionChecker.can_edit_properties user a = true) /\
  (PermissionChecker.can_edit_properties user agent_id = true ->
   PermissionChecker.can_create_properties user = true) /\
  (PermissionChecker.can_create_properties user = true ->
   PermissionChecker.can_view_analytics user = true) /\
  (PermissionChecker.can_view_analytics user = true ->
   PermissionChecker.can_read_properties user = true).
Proof.
  split; [|split; [|split]].
  - unfold PermissionChecker.can_manage_users, PermissionChecker.can_edit_properties.
    intros -> a. reflexivity.
  - unfold PermissionChecker.can_edit_properties, PermissionChecker.can_create_properties.
    destruct (in_roles "admin" user) eqn:Ha.
    + intros _. apply (any_role_in_has "admin"); [in_list | exact Ha].
    + destruct (in_roles "agent" user) eqn:Hg; [| discriminate].
      intros _. apply (any_role_in_has "agent"); [in_list | exact Hg].
  - apply any_role_in_weaken. sub_list.
  - apply any_role_in_weaken. sub_list.
Qed.

Lemma permission_checks_are_ordered_witness :
  PermissionChecker.can_read_properties
    (User.mk 7 "u" "e" "n" "h" "f" "l" None None true false None None None None None
             empty_dict [Role.mk 2 "employee" []]) = true.
Proof.
  apply (permission_checks_are_ordered
           (User.mk 7 "u" "e" "n" "h" "f" "l" None None true false None None None None
                    None empty_dict [Role.mk 2 "employee" []]) None).
  reflexivity.
Defined.

(** X3. Capabilities grow with the roles: a user who holds every role of
    another user (and has the same id) passes every check the other passes. *)
Theorem permission_checks_are_monotone (user user' : User.t) (agent_id : option Z) :
  (forall r, r ∈ role_names user -> r ∈ role_names user') ->
  User.id user' = User.id user ->
  (PermissionChecker.can_read_properties user = true ->
   PermissionChecker.can_read_properties user' = true) /\
  (PermissionChecker.can_create_properties user = true ->
   PermissionChecker.can_create_properties user' = true) /\
  (PermissionChecker.can_edit_properties user agent_id = true ->
   PermissionChecker.can_edit_properties user' agent_id = true) /\
  (PermissionChecker.can_view_analytics user = true ->
   PermissionChecker.can_view_analytics user' = true) /\
  (PermissionChecker.can_manage_users user = true ->
   PermissionChecker.can_manage_users user' = true).
Proof.
  intros Hsub Hid.
  assert (Hany : forall allowed, any_role_in allowed user = true ->
                                 any_role_in allowed user' = true).
  { intros allowed. rewrite !any_role_in_iff. intros (r & Hr & Ha). exists r. auto. }
  repeat split; try apply Hany.
  - rewrite !can_edit_properties_iff, Hid.
    intros [Ha | [Hg Ho]]; auto.
  - unfold PermissionChecker.can_manage_users. rewrite !in_roles_iff. apply Hsub.
Qed.

Lemma permission_checks_are_monotone_witness :
  PermissionChecker.can_edit_properties
    (User.mk 7 "u" "e" "n" "h" "f" "l" None None true false None None None None None
             empty_dict [Role.mk 1 "client" []; Role.mk 3 "agent" []]) (Some 7) = true.
Proof.
  apply (permission_checks_are_monotone
           (User.mk 7 "u" "e" "n" "h" "f" "l" None None true false None None None None
                    None empty_dict [Role.mk 3 "agent" []])
           (User.mk 7 "u" "e" "n" "h" "f" "l" None None true false None None None None
                    None empty_dict [Role.mk 1 "client" []; Role.mk 3 "agent" []])
           (Some 7)).
  - intros r Hr. unfold role_names in *. simpl in *.
    apply list_elem_of_singleton in Hr. subst r. right. left.
  - reflexivity.
  - reflexivity.
Defined.

(** X4. The role gates agree with the checker and never touch the world:
    [require_admin] lets exactly the users through who may manage users,
    [require_agent_or_admin] exactly those who may create properties; everybody
    else gets a 403. *)
Theorem role_gates_agree_with_checker (current_user : User.t) (w : World) :
  Depends.require_admin current_user w
  = (if PermissionChecker.can_manage_users current_user
     then Return current_user
     else Raise (HTTPException HTTP_403_FORBIDDEN (Message "Role 'admin' required")), w)
  /\
  Depends.require_agent_or_admin current_user w
  = (if PermissionChecker.can_create_properties current_user
     then Return current_user
     else Raise (HTTPException HTTP_403_FORBIDDEN
                   (Message "Agent or Admin role required")), w).
Proof.
  split.
  - unfold Depends.require_admin, Depends.require_role, PermissionChecker.can_manage_users.
    destruct (in_roles "admin" current_user); reflexivity.
  - unfold Depends.require_agent_or_admin, PermissionChecker.can_create_properties.
    destruct (any_role_in ["agent"; "admin"] current_user) eqn:Hany.
    + apply any_role_in_iff in Hany. destruct Hany as (r & Hr & Ha).
      apply elem_of_cons in Ha. destruct Ha as [->|Ha].
      * rewrite (proj2 (in_roles_iff "agent" _) Hr). reflexivity.
      * apply list_elem_of_singleton in Ha. subst r.
        rewrite (proj2 (in_roles_iff "admin" _) Hr), andb_false_r. reflexivity.
    + destruct (in_roles "agent" current_user) eqn:Hg.
      * rewrite (any_role_in_has "agent") in Hany; [discriminate | in_list | exact Hg].
      * destruct (in_roles "admin" current_user) eqn:Ha; [| reflexivity].
        rewrite (any_role_in_has "admin") in Hany; [discriminate | in_list | exact Ha].
Qed.

(** ** File names and file types *)

Lemma string_of_list_length l : String.length (string_of_list_ascii l) = length l.
Proof. induction l as [|c l IH]; simpl; [reflexivity | rewrite IH; reflexivity]. Qed.

Lemma Forall_list_filter {A} (f : A -> bool) (l : list A) :
  Forall (fun x => f x = true) (List.filter f l).
Proof.
  induction l as [|a l IH]; simpl; [constructor|].
  destruct (f a) eqn:E; [constructor|]; assumption.
Qed.

Lemma list_filter_all {A} (f : A -> bool) (l : list A) :
  Forall (fun x => f x = true) l -> List.filter f l = l.
Proof.
  induction 1 as [|a l Ha _ IH]; simpl; [reflexivity|]. rewrite Ha, IH. reflexivity.
Qed.

Lemma starts_with_missing_char (x : ascii) pat l :
  In x pat -> Forall (fun c => c <> x) l -> starts_with pat l = false.
Proof.
  revert l. induction pat as [|p pat IH]; intros l Hin Hl; [contradiction|].
  destruct l as [|c l]; [reflexivity|]. simpl.
  rewrite Forall_cons in Hl. destruct Hl as [Hc Hl].
  destruct Hin as [->|Hin].
  - rewrite (proj2 (Ascii.eqb_neq x c)) by congruence. reflexivity.
  - rewrite (IH l Hin Hl). apply andb_false_r.
Qed.

Lemma remove_all_missing_char (x : ascii) pat l :
  In x pat -> Forall (fun c => c <> x) l -> remove_all pat 0 l = l.
Proof.
  intros Hin. induction l as [|c l IH]; intros Hl; [reflexivity|].
  cbn [remove_all]. rewrite (starts_with_missing_char x pat (c :: l) Hin Hl).
  rewrite Forall_cons in Hl. rewrite IH by apply Hl. reflexivity.
Qed.

Lemma filename_char_no_separator c :
  filename_char c = true -> c <> "/"%char /\ c <> backslash.
Proof.
  destruct c as [[|] [|] [|] [|] [|] [|] [|] [|]]; vm_compute; intros E;
    try discriminate E; split; discriminate.
Qed.

(** X5. [sanitize_filename] returns at most 255 characters, all of them
    letters, digits, dots, hyphens or underscores, so the result holds no path
    separator; sanitising a sanitised name changes nothing. *)
Theorem sanitize_filename_is_safe_and_idempotent (filename : string) :
  let clean := sanitize_filename filename in
  (String.length clean <= 255)%nat /\
  Forall (fun c => filename_char c = true) (list_ascii_of_string clean) /\
  Forall (fun c => c <> "/"%char /\ c <> backslash) (list_ascii_of_string clean) /\
  sanitize_filename clean = clean.
Proof.
  cbn zeta. unfold sanitize_filename at 1 2 3.
  set (l := List.filter filename_char _).
  assert (Hl : Forall (fun c => filename_char c = true) (take 255 l))
    by (apply Forall_take, Forall_list_filter).
  assert (Hsep : Forall (fun c => c <> "/"%char /\ c <> backslash) (take 255 l))
    by (eapply Forall_impl; [exact Hl | apply filename_char_no_separator]).
  assert (Hlen : (length (take 255 l) <= 255)%nat) by (rewrite length_take; lia).
  rewrite string_of_list_length, list_ascii_of_string_of_list_ascii.
  split; [exact Hlen|]. split; [exact Hl|]. split; [exact Hsep|].
  unfold sanitize_filename. fold l.
  rewrite list_ascii_of_string_of_list_ascii.
  rewrite (remove_all_missing_char "/"%char ["."; "."; "/"]%char);
    [| simpl; auto | eapply Forall_impl; [exact Hsep | simpl; tauto]].
  rewrite (remove_all_missing_char backslash ["."%char; "."%char; backslash]);
    [| simpl; auto | eapply Forall_impl; [exact Hsep | simpl; tauto]].
  rewrite list_filter_all by exact Hl.
  rewrite take_ge by (rewrite length_take; lia). reflexivity.
Qed.







Lemma any_char_app p a b : any_char p (a +:+ b) = (any_char p a || any_char p b)%bool.
Proof.
  unfold any_char. induction a as [|c a IH]; simpl; [reflexivity|].
  rewrite IH. apply orb_assoc.
Qed.





(** ** Client address *)

Lemma lstrip_Forall (P : ascii -> Prop) l : Forall P l -> Forall P (lstrip l).
Proof.
  induction 1 as [|c l Hc Hl IH]; simpl; [constructor|].
  destruct (is_space c); [exact IH | constructor; assumption].
Qed.

Lemma strip_Forall (P : ascii -> Prop) l : Forall P l -> Forall P (strip l).
Proof.
  intros Hl. unfold strip.
  apply Forall_rev, lstrip_Forall, Forall_rev, lstrip_Forall, Hl.
Qed.

Lemma lstrip_head_not_space l c : head (lstrip l) = Some c -> is_space c = false.
Proof.
  induction l as [|a l IH]; simpl; [discriminate|].
  destruct (is_space a) eqn:E; [exact IH|]. simpl. congruence.
Qed.

Lemma lstrip_last l : lstrip l <> [] -> last (lstrip l) = last l.
Proof.
  induction l as [|a l IH]; simpl; [reflexivity|].
  destruct (is_space a); [| reflexivity].
  intros Hne. rewrite (IH Hne).
  destruct l as [|b l]; [simpl in Hne; contradiction | reflexivity].
Qed.

Lemma head_rev {A} (l : list A) : head (rev l) = last l.
Proof.
  induction l as [|x l _] using rev_ind; [reflexivity|].
  rewrite rev_unit, last_snoc. reflexivity.
Qed.

Lemma last_rev {A} (l : list A) : last (rev l) = head l.
Proof. rewrite <- (rev_involutive l) at 2. symmetry. apply head_rev. Qed.

Lemma strip_ends_not_space l c :
  (head (strip l) = Some c \/ last (strip l) = Some c) -> is_space c = false.
Proof.
  unfold strip. rewrite head_rev, last_rev. intros [Hc|Hc].
  - destruct (lstrip (rev (lstrip l))) as [|x n] eqn:En; [discriminate|].
    rewrite <- En, lstrip_last, last_rev in Hc by (rewrite En; discriminate).
    apply (lstrip_head_not_space l c Hc).
  - apply (lstrip_head_not_space _ c Hc).
Qed.

Lemma before_first_without sep s :
  Forall (fun c => c <> sep) (list_ascii_of_string (before_first sep s)).
Proof.
  induction s as [|c s IH]; simpl; [constructor|].
  destruct (Ascii.eqb_spec c sep); simpl; constructor; assumption.
Qed.

(** X7. [get_client_ip] trusts the request headers before the connection: a
    non-empty [X-Forwarded-For] decides alone, giving the text before its first
    comma without surrounding white space (so the result holds no comma and
    neither starts nor ends with white space); without it a non-empty
    [X-Real-IP] is returned as it stands; the peer address is used only when
    both are missing or empty. *)
Theorem get_client_ip_precedence (request : Request) :
  (forall v, headers_get "X-Forwarded-For" request = Some v -> v <> "" ->
     get_client_ip request = py_strip (before_first "," v)
     /\ Forall (fun c => c <> ","%char) (list_ascii_of_string (get_client_ip request))
     /\ (forall c, head (list_ascii_of_string (get_client_ip request)) = Some c
                   \/ last (list_ascii_of_string (get_client_ip request)) = Some c ->
                   is_space c = false)) /\
  (forall v, nonempty (headers_get "X-Forwarded-For" request) = None ->
     headers_get "X-Real-IP" request = Some v -> v <> "" ->
     get_client_ip request = v) /\
  (nonempty (headers_get "X-Forwarded-For" request) = None ->
   nonempty (headers_get "X-Real-IP" request) = None ->
   get_client_ip request = client_host request).
Proof.
  split; [|split].
  - intros v Hv Hne.
    assert (E : get_client_ip request = py_strip (before_first "," v)).
    { unfold get_client_ip. rewrite Hv. destruct v; [contradiction | reflexivity]. }
    rewrite E. unfold py_strip. rewrite list_ascii_of_string_of_list_ascii.
    split; [reflexivity|]. split.
    + apply strip_Forall, before_first_without.
    + intros c. apply strip_ends_not_space.
  - intros v Hx Hv Hne. unfold get_client_ip. rewrite Hx, Hv.
    destruct v; [contradiction | reflexivity].
  - intros Hx Hr. unfold get_client_ip. rewrite Hx, Hr. reflexivity.
Qed.

Lemma get_client_ip_precedence_witness :
  get_client_ip (mkRequest [("x-real-ip", "10.0.0.9");
                            ("x-forwarded-for", " 203.0.113.7 , 10.0.0.1")]
                           "172.16.0.2")
  = "203.0.113.7".
Proof.
  destruct (get_client_ip_precedence
              (mkRequest [("x-real-ip", "10.0.0.9");
                          ("x-forwarded-for", " 203.0.113.7 , 10.0.0.1")]
                         "172.16.0.2")) as [Hf _].
  destruct (Hf " 203.0.113.7 , 10.0.0.1") as [E _].
  - reflexivity.
  - discriminate.
  - rewrite E. reflexivity.
Defined.

(** ** CSRF tokens, continued *)



Section CSRFSoundness.
Context `{Externals}.
Variable self : CSRFProtection.


End CSRFSoundness.


(** ** Rate limiter, continued *)

Lemma stored_insert_other key key' (v : list Q) (storage : Storage) :
  key' <> key -> stored key' (<[key := v]> storage) = stored key' storage.
Proof. intros Hne. unfold stored. rewrite lookup_insert_ne by congruence. reflexivity. Qed.

Lemma is_allowed_other self identifier endpoint now (storage : Storage) key' :
  key' <> rate_key identifier endpoint ->
  stored key' (snd (is_allowed self identifier endpoint now storage)) = stored key' storage.
Proof.
  intros Hne. unfold is_allowed. cbn zeta.
  destruct (_ || _)%bool; simpl; rewrite !stored_insert_other by exact Hne; reflexivity.
Qed.

Lemma get_limits_info_records self identifier endpoint now (storage : Storage) :
  stored (rate_key identifier endpoint)
         (snd (get_limits_info self identifier endpoint now storage))
  = keep_last_hour now (stored (rate_key identifier endpoint) storage).
Proof. unfold get_limits_info. simpl. apply stored_insert. Qed.

Lemma get_limits_info_other self identifier endpoint now (storage : Storage) key' :
  key' <> rate_key identifier endpoint ->
  stored key' (snd (get_limits_info self identifier endpoint now storage))
  = stored key' storage.
Proof. intros Hne. unfold get_limits_info. simpl. apply stored_insert_other, Hne. Qed.

(** X9. [get_limits_info] reports what [is_allowed] decides on: at the same
    time and state a check is allowed exactly when both remaining counts it
    reports are positive; the counts are never negative; and asking for the
    status records no request (it only drops entries older than an hour). *)
Theorem get_limits_info_agrees_with_is_allowed (self : RateLimiter)
  (identifier endpoint : string) (now : Q) (storage : Storage) :
  let info := fst (get_limits_info self identifier endpoint now storage) in
  (fst (is_allowed self identifier endpoint now storage) = true
   <-> 0 < minute_remaining info /\ 0 < hour_remaining info) /\
  0 <= minute_remaining info /\ 0 <= hour_remaining info /\
  stored (rate_key identifier endpoint)
         (snd (get_limits_info self identifier endpoint now storage))
  = keep_last_hour now (stored (rate_key identifier endpoint) storage).
Proof.
  cbn zeta. split; [| split; [| split]].
  - rewrite is_allowed_answer. unfold get_limits_info. cbn [fst minute_remaining hour_remaining].
    rewrite !stored_insert.
    destruct (Z.leb_spec (requests_per_minute self)
                (Z.of_nat (length (in_last_minute now
                   (keep_last_hour now (stored (rate_key identifier endpoint) storage))))));
    destruct (Z.leb_spec (requests_per_hour self)
                (Z.of_nat (length
                   (keep_last_hour now (stored (rate_key identifier endpoint) storage)))));
      simpl; split; try discriminate; try lia; intros _; reflexivity.
  - unfold get_limits_info. simpl. lia.
  - unfold get_limits_info. simpl. lia.
  - apply get_limits_info_records.
Qed.

Lemma list_ascii_of_string_app a b :
  list_ascii_of_string (a +:+ b) = list_ascii_of_string a ++ list_ascii_of_string b.
Proof. induction a as [|c a IH]; simpl; [reflexivity | rewrite IH; reflexivity]. Qed.

Lemma rate_key_last identifier c endpoint:
  last (list_ascii_of_string (rate_key identifier (endpoint +:+ String c "")))
  = Some c.
Proof.
  unfold rate_key. rewrite !list_ascii_of_string_app.
  change (list_ascii_of_string (String c "")) with [c].
  rewrite !app_assoc. apply last_snoc.
Qed.

Lemma auth_key_is_not_general_key ip ip' : rate_key ip "auth" <> rate_key ip' "general".
Proof.
  intros E. apply (f_equal (fun s => last (list_ascii_of_string s))) in E.
  assert (H1 : last (list_ascii_of_string (rate_key ip "auth")) = Some "h"%char)
    by exact (rate_key_last ip "h" "aut").
  assert (H2 : last (list_ascii_of_string (rate_key ip' "general")) = Some "l"%char)
    by exact (rate_key_last ip' "l" "genera").
  rewrite H1, H2 in E. discriminate E.
Qed.

(** X10. [apply_rate_limiting] counts authentication paths and all other
    paths in separate windows: a request to an authentication path passes
    exactly when the check of the ["auth"] window of its address allows it, and
    leaves every ["general"] window (of any address) and every other key
    untouched; a request to any other path does the same with the roles of the
    two windows exchanged. *)
Theorem rate_limit_buckets_are_separate (rate_limiter : RateLimiter)
  (client_ip path : string) (now later : Q) (storage : Storage) :
  let bucket := if bool_decide (path ∈ auth_endpoints) then "auth" else "general" in
  let other := if bool_decide (path ∈ auth_endpoints) then "general" else "auth" in
  let result := apply_rate_limiting rate_limiter client_ip path now later storage in
  (fst result = Passed
   <-> fst (is_allowed rate_limiter client_ip bucket now storage) = true) /\
  (forall key, key <> rate_key client_ip bucket ->
               stored key (snd result) = stored key storage) /\
  (forall ip, stored (rate_key ip other) (snd result) = stored (rate_key ip other) storage).
Proof.
  cbn zeta.
  assert (Hgen : forall bucket message,
            let result :=
              let '(allowed, storage1) :=
                is_allowed rate_limiter client_ip bucket now storage in
              if negb allowed
              then let '(rate_info, storage2) :=
                     get_limits_info rate_limiter client_ip bucket later storage1 in
                   (TooManyRequests message rate_info, storage2)
              else (Passed, storage1) in
            (fst result = Passed
             <-> fst (is_allowed rate_limiter client_ip bucket now storage) = true) /\
            (forall key, key <> rate_key client_ip bucket ->
                         stored key (snd result) = stored key storage)).
  { intros bucket message. cbn zeta.
    pose proof (is_allowed_other rate_limiter client_ip bucket now storage) as Hother.
    destruct (is_allowed rate_limiter client_ip bucket now storage) as [allowed storage1].
    cbn [fst snd] in *.
    destruct allowed; cbn [negb].
    - split; [tauto | exact Hother].
    - pose proof (get_limits_info_other rate_limiter client_ip bucket later storage1)
        as Hinfo.
      destruct (get_limits_info rate_limiter client_ip bucket later storage1)
        as [info storage2]. cbn [fst snd] in *.
      split; [split; discriminate|].
      intros key Hne. rewrite Hinfo, Hother by exact Hne. reflexivity. }
  unfold apply_rate_limiting. case_bool_decide.
  - destruct (Hgen "auth" "Too many authentication attempts") as [Hp Hk].
    split; [exact Hp|]. split; [exact Hk|].
    intros ip. apply Hk. intros E. apply (auth_key_is_not_general_key client_ip ip).
    symmetry. exact E.
  - destruct (Hgen "general" "Rate limit exceeded") as [Hp Hk].
    split; [exact Hp|]. split; [exact Hk|].
    intros ip. apply Hk. apply auth_key_is_not_general_key.
Qed.

Lemma keep_last_hour_length now l : (length (keep_last_hour now l) <= length l)%nat.
Proof. apply length_filter. Qed.

(** X11. Starting from the empty storage, whatever checks and status queries
    are made: no window ever holds more entries than the hourly cap, and every
    recorded timestamp is the time of a check made for that key. *)
Theorem rate_limit_windows_are_bounded (self : RateLimiter) (calls : list LimiterCall)
  (key : string) :
  let window := stored key (limiter_run self calls ∅) in
  Z.of_nat (length window) <= Z.max 0 (requests_per_hour self) /\
  (forall t, t ∈ window ->
     exists identifier endpoint,
       Check identifier endpoint t ∈ calls /\ rate_key identifier endpoint = key).
Proof.
  cbn zeta. induction calls as [|c calls IH] using rev_ind.
  - simpl. unfold stored. rewrite lookup_empty. simpl. split; [lia|].
    intros t Ht. inversion Ht.
  - unfold limiter_run in *. rewrite foldl_app. simpl.
    set (st := foldl (fun st c0 => limiter_step self c0 st) ∅ calls) in *.
    destruct IH as [IHlen IHsrc].
    assert (Hweak : forall t,
              (exists identifier endpoint,
                 Check identifier endpoint t ∈ calls /\ rate_key identifier endpoint = key)
              -> exists identifier endpoint,
                   Check identifier endpoint t ∈ calls ++ [c]
                   /\ rate_key identifier endpoint = key).
    { intros t (i & e & Hin & Hk). exists i, e. split; [| exact Hk].
      apply elem_of_app. left. exact Hin. }
    assert (Hkeep : forall now,
              Z.of_nat (length (keep_last_hour now (stored key st)))
              <= Z.max 0 (requests_per_hour self)).
    { intros now. pose proof (keep_last_hour_length now (stored key st)). lia. }
    assert (Hkeepsrc : forall now t, t ∈ keep_last_hour now (stored key st) ->
              exists identifier endpoint,
                Check identifier endpoint t ∈ calls ++ [c]
                /\ rate_key identifier endpoint = key).
    { intros now t Ht. apply list_elem_of_filter in Ht. apply Hweak, IHsrc, Ht. }
    destruct c as [identifier endpoint now | identifier endpoint now];
      cbn [limiter_step].
    + destruct (decide (key = rate_key identifier endpoint)) as [->|Hne].
      * rewrite is_allowed_records.
        pose proof (is_allowed_answer self identifier endpoint now st) as Hans.
        destruct (fst (is_allowed self identifier endpoint now st)).
        -- split.
           ++ rewrite length_app. simpl. symmetry in Hans.
              apply negb_true_iff, orb_false_iff in Hans. destruct Hans as [_ Hh].
              apply Z.leb_gt in Hh. lia.
           ++ intros t Ht. apply elem_of_app in Ht. destruct Ht as [Ht|Ht].
              ** apply (Hkeepsrc now t Ht).
              ** apply list_elem_of_singleton in Ht. subst t.
                 exists identifier, endpoint. split; [| reflexivity].
                 apply elem_of_app. right. left.
        -- rewrite app_nil_r. split; [apply Hkeep | apply Hkeepsrc].
      * rewrite is_allowed_other by exact Hne. split; [exact IHlen|].
        intros t Ht. apply Hweak, IHsrc, Ht.
    + destruct (decide (key = rate_key identifier endpoint)) as [->|Hne].
      * rewrite get_limits_info_records. split; [apply Hkeep | apply Hkeepsrc].
      * rewrite get_limits_info_other by exact Hne. split; [exact IHlen|].
        intros t Ht. apply Hweak, IHsrc, Ht.
Qed.

(** ** Permission resolver *)

Lemma get_user_permissions_found user_id i user (w : World) :
  first (fun u => User.id u = user_id) (users (txn w)) = Some (i, user) ->
  get_user_permissions user_id w
  = (Return (remove_dups
               (role ← User.roles user;
                permission ← Role.permissions role;
                [Permission.action permission +:+ "_" +:+ Permission.resource permission])),
     w).
Proof.
  intros Hf. unfold get_user_permissions, bind, read_txn, ret. rewrite Hf. reflexivity.
Qed.

Lemma get_user_permissions_missing user_id (w : World) :
  (forall u, u ∈ users (txn w) -> User.id u <> user_id) ->
  get_user_permissions user_id w = (Return [], w).
Proof.
  intros Hmiss. unfold get_user_permissions, bind, read_txn, ret.
  rewrite (proj2 (first_None _ _)); [reflexivity|]. exact Hmiss.
Qed.

Lemma permission_strings_elem (user : User.t) (p : string) :
  p ∈ remove_dups
        (role ← User.roles user;
         permission ← Role.permissions role;
         [Permission.action permission +:+ "_" +:+ Permission.resource permission])
  <-> exists role permission,
        role ∈ User.roles user
        /\ permission ∈ Role.permissions role
        /\ p = Permission.action permission +:+ "_" +:+ Permission.resource permission.
Proof.
  rewrite elem_of_remove_dups, list_elem_of_bind. split.
  - intros (role & Hp & Hrole). apply list_elem_of_bind in Hp.
    destruct Hp as (permission & Hp & Hperm).
    apply list_elem_of_singleton in Hp. exists role, permission. auto.
  - intros (role & permission & Hrole & Hperm & ->).
    exists role. split; [| exact Hrole]. apply list_elem_of_bind.
    exists permission. split; [left | exact Hperm].
Qed.

Lemma get_user_permissions_of_user user_id user (w : World) :
  NoDup (User.id <$> users (txn w)) ->
  user ∈ users (txn w) -> User.id user = user_id ->
  get_user_permissions user_id w
  = (Return (remove_dups
               (role ← User.roles user;
                permission ← Role.permissions role;
                [Permission.action permission +:+ "_" +:+ Permission.resource permission])),
     w).
Proof.
  intros Hnd Hin Hid.
  destruct (first_unique User.id (fun u => User.id u = user_id) (users (txn w)) user)
    as (i & Hfirst & _); auto.
  { intros y Hy. congruence. }
  exact (get_user_permissions_found user_id i user w Hfirst).
Qed.

Lemma sample_user_ids : NoDup (User.id <$> users (txn sample_world)).
Proof. apply (bool_decide_unpack _). vm_compute. exact I. Qed.

(** X12. The permissions of a user are the union, without repetition, of
    the "action_resource" strings of the permissions of all the roles the user
    holds, and [has_permission] is membership in that list; an unknown user id
    has no permission at all.  Resolving permissions never changes the
    world. *)
Theorem permissions_are_the_union_over_roles (user_id : Z) (w : World) :
  (forall user,
     NoDup (User.id <$> users (txn w)) ->
     user ∈ users (txn w) -> User.id user = user_id ->
     exists permissions,
       get_user_permissions user_id w = (Return permissions, w)
       /\ NoDup permissions
       /\ (forall p, p ∈ permissions
                     <-> exists role permission,
                           role ∈ User.roles user
                           /\ permission ∈ Role.permissions role
                           /\ p = Permission.action permission +:+ "_"
                                    +:+ Permission.resource permission)
       /\ (forall p, has_permission user_id p w
                     = (Return (bool_decide (p ∈ permissions)), w))) /\
  ((forall u, u ∈ users (txn w) -> User.id u <> user_id) ->
   get_user_permissions user_id w = (Return [], w)
   /\ forall p, has_permission user_id p w = (Return false, w)).
Proof.
  split.
  - intros user Hnd Hin Hid.
    pose proof (get_user_permissions_of_user user_id user w Hnd Hin Hid) as Hget.
    eexists. split; [exact Hget|].
    split; [apply NoDup_remove_dups|]. split.
    + intros p. apply permission_strings_elem.
    + intros p. unfold has_permission.
      rewrite (bind_Return _ _ _ _ _ Hget). reflexivity.
  - intros Hmiss. split; [apply get_user_permissions_missing, Hmiss|].
    intros p. unfold has_permission.
    rewrite (bind_Return _ _ _ _ _ (get_user_permissions_missing user_id w Hmiss)).
    reflexivity.
Qed.

Lemma permissions_are_the_union_over_roles_witness :
  has_permission 1 "read_properties" sample_world = (Return true, sample_world)
  /\ has_permission 1 "delete_properties" sample_world = (Return false, sample_world)
  /\ has_permission 7 "read_properties" sample_world = (Return false, sample_world).
Proof.
  destruct (proj1 (permissions_are_the_union_over_roles 1 sample_world) sample_user)
    as (ps & Hget & _ & _ & Hhas).
  - exact sample_user_ids.
  - simpl. left.
  - reflexivity.
  - rewrite !Hhas. vm_compute in Hget. injection Hget as <-.
    split; [reflexivity|]. split; [reflexivity|].
    apply (proj2 (permissions_are_the_union_over_roles 7 sample_world)).
    intros u Hu. simpl in Hu. apply list_elem_of_singleton in Hu. subst u.
    simpl. lia.
Defined.

(** X13. [has_permission] is monotone in the roles: between two states in
    which the user's row differs only by holding more roles, a permission that
    was granted stays granted. *)
Theorem has_permission_is_monotone_in_roles (user_id : Z) (p : string)
  (w w' : World) (user user' : User.t) :
  NoDup (User.id <$> users (txn w)) -> NoDup (User.id <$> users (txn w')) ->
  user ∈ users (txn w) -> User.id user = user_id ->
  user' ∈ users (txn w') -> User.id user' = user_id ->
  (forall role, role ∈ User.roles user -> role ∈ User.roles user') ->
  has_permission user_id p w = (Return true, w) ->
  has_permission user_id p w' = (Return true, w').
Proof.
  intros Hnd Hnd' Hin Hid Hin' Hid' Hsub. unfold has_permission.
  rewrite (bind_Return _ _ _ _ _ (get_user_permissions_of_user user_id user w Hnd Hin Hid)).
  rewrite (bind_Return _ _ _ _ _
             (get_user_permissions_of_user user_id user' w' Hnd' Hin' Hid')).
  unfold ret. intros [= Hp]. apply bool_decide_eq_true in Hp.
  rewrite bool_decide_eq_true_2; [reflexivity|].
  apply permission_strings_elem. apply permission_strings_elem in Hp.
  destruct Hp as (role & permission & Hr & Hpm & ->).
  exists role, permission. auto.
Qed.

Lemma has_permission_is_monotone_in_roles_witness :
  let promoted :=
    User.mk 1 "uuid-a" "a@x.com" "a@x.com" "salt$Abcdef1!" "Ann" "Lee" None None
      true false None None None None None empty_dict
      [Role.mk 2 "agent" [];
       Role.mk 1 "client" [Permission.mk 1 "read_properties" "properties" "read"]] in
  let w' := mkWorld sample_db (with_users (fun _ => [promoted]) sample_db) [] 100 0 in
  has_permission 1 "read_properties" w' = (Return true, w').
Proof.
  intros promoted w'.
  apply (has_permission_is_monotone_in_roles 1 "read_properties" sample_world w'
           sample_user promoted).
  - exact sample_user_ids.
  - apply (bool_decide_unpack _). vm_compute. exact I.
  - simpl. left.
  - reflexivity.
  - simpl. left.
  - reflexivity.
  - intros role Hr. simpl in Hr. apply list_elem_of_singleton in Hr. subst role.
    right. left.
  - reflexivity.
Defined.

(** X14. [require_permission] decides on the roles stored for the current
    user's id: it returns the current user when one of the stored roles holds
    the permission, answers 403 "Permission '...' required" when none does,
    and answers the same 403 for every permission when no stored user has that
    id.  It never changes the world. *)
Theorem require_permission_checks_stored_roles (permission : string)
  (current_user : User.t) (w : World) :
  (forall user,
     NoDup (User.id <$> users (txn w)) ->
     user ∈ users (txn w) -> User.id user = User.id current_user ->
     ((exists role p,
         role ∈ User.roles user /\ p ∈ Role.permissions role
         /\ permission = Permission.action p +:+ "_" +:+ Permission.resource p) ->
      Depends.require_permission permission current_user w = (Return current_user, w))
     /\ (~ (exists role p,
              role ∈ User.roles user /\ p ∈ Role.permissions role
              /\ permission = Permission.action p +:+ "_" +:+ Permission.resource p) ->
         Depends.require_permission permission current_user w
         = (Raise (HTTPException HTTP_403_FORBIDDEN
                     (Message ("Permission '" +:+ permission +:+ "' required"))), w)))
  /\ ((forall u, u ∈ users (txn w) -> User.id u <> User.id current_user) ->
      Depends.require_permission permission current_user w
      = (Raise (HTTPException HTTP_403_FORBIDDEN
                  (Message ("Permission '" +:+ permission +:+ "' required"))), w)).
Proof.
  split.
  - intros user Hnd Hin Hid.
    pose proof (get_user_permissions_of_user _ user w Hnd Hin Hid) as Hget.
    unfold Depends.require_permission, has_permission.
    rewrite (bind_Return _ _ _ _ _ (bind_Return _ _ _ _ _ Hget)).
    unfold ret. split; intros Hp.
    + rewrite bool_decide_eq_true_2; [reflexivity|].
      apply permission_strings_elem, Hp.
    + rewrite bool_decide_eq_false_2; [reflexivity|].
      intros Hin'. apply Hp. apply permission_strings_elem, Hin'.
  - intros Hmiss.
    unfold Depends.require_permission, has_permission.
    rewrite (bind_Return _ _ _ _ _
               (bind_Return _ _ _ _ _ (get_user_permissions_missing _ w Hmiss))).
    reflexivity.
Qed.

Lemma require_permission_checks_stored_roles_witness :
  Depends.require_permission "read_properties" sample_user sample_world
  = (Return sample_user, sample_world).
Proof.
  apply (proj1 (require_permission_checks_stored_roles "read_properties" sample_user
                  sample_world) sample_user).
  - exact sample_user_ids.
  - simpl. left.
  - reflexivity.
  - exists (Role.mk 1 "client" [Permission.mk 1 "read_properties" "properties" "read"]),
      (Permission.mk 1 "read_properties" "properties" "read").
    split; [left|]. split; [left|reflexivity].
Defined.

(** ** Token types and the authentication dependencies *)

(** Unwinds the runs that returned a value down to their last action. *)
Ltac unwind :=
  repeat match goal with
    | H : bind _ _ _ = (Return _, _) |- _ =>
        let H1 := fresh "Hrun" in
        apply bind_inv_Return in H; destruct H as (? & ? & H1 & H); cbv beta in H
    | H : ret _ _ = (Return _, _) |- _ =>
        unfold ret in H; first [discriminate H | injection H; clear H; intros; subst]
    | H : raise _ _ = (Return _, _) |- _ => discriminate H
    | H : bad_request _ _ = (Return _, _) |- _ => discriminate H
    | H : unauthorized _ _ = (Return _, _) |- _ => discriminate H
    | H : commit_not_null_violation _ = (Return _, _) |- _ => discriminate H
    | H : login_failed _ _ = (Return _, _) |- _ => unfold login_failed in H
    | H : (match ?x with _ => _ end) _ = (Return _, _) |- _ => destruct x eqn:?
    | H : (if ?b then _ else _) _ = (Return _, _) |- _ => destruct b eqn:?
    | H : log_audit_event _ _ _ _ _ _ = (Return ?u, _) |- _ =>
        destruct u; apply log_audit_event_inv_Return in H; destruct H as (? & ? & ?)
    | H : get_user_permissions _ _ = (_, _) |- _ =>
        apply get_user_permissions_world in H; subst
    end.

(** Which step of a run raised an HTTP exception. *)
Ltac blame :=
  repeat match goal with
    | H : bind _ _ _ = (Raise _, _) |- _ =>
        apply bind_inv_Raise in H; destruct H as [H | (? & ? & ? & H)]; cbv beta in H
    | H : utcnow _ = (Raise _, _) |- _ => discriminate H
    | H : read_txn _ = (Raise _, _) |- _ => discriminate H
    | H : draw _ = (Raise _, _) |- _ => discriminate H
    | H : modify_txn _ _ = (Raise _, _) |- _ => discriminate H
    | H : ret _ _ = (Raise _, _) |- _ => discriminate H
    | H : commit _ = (Raise (HTTPException _ _), _) |- _ =>
        apply commit_inv_Raise in H; destruct H as [[? ?] _]; discriminate
    | H : log_audit_event _ _ _ _ _ _ = (Raise (HTTPException _ _), _) |- _ =>
        apply log_audit_event_inv_Raise in H; destruct H as [[? ?] _]; discriminate
    | H : generate_tokens _ _ _ _ = (Raise (HTTPException _ _), _) |- _ =>
        apply generate_tokens_inv_Raise in H; destruct H as [? ?]; discriminate
    | H : get_user_permissions _ _ = (Raise _, _) |- _ =>
        unfold get_user_permissions, bind, read_txn, ret in H;
        destruct (first _ _) as [[? ?]|] in H; discriminate H
    | H : (match ?x with _ => _ end) _ = (Raise _, _) |- _ => destruct x eqn:?
    | H : (if ?b then _ else _) _ = (Raise _, _) |- _ => destruct b eqn:?
    | H : log_audit_event _ _ _ _ _ _ = (Return ?u, _) |- _ =>
        destruct u; apply log_audit_event_inv_Return in H; destruct H as (? & ? & ?)
    | H : unauthorized _ _ = (Raise _, _) |- _ =>
        unfold unauthorized, raise in H; injection H; clear H; intros; subst
    end.

Section Guards.
Context `{Externals}.

Lemma verify_token_wrong_type self token token_type p (w : World) :
  jwt_decode self token (clock w) = Decoded p -> p_type p <> Some token_type ->
  verify_token self token token_type w
  = (Raise (HTTPException HTTP_401_UNAUTHORIZED (Message "Invalid token type")), w).
Proof.
  intros Hd Hty. unfold verify_token, bind, utcnow. simpl. rewrite Hd.
  rewrite decide_True by exact Hty. reflexivity.
Qed.

(** X15. A token of the wrong type is refused before any table is read: a
    token that does not decode to an access token is answered 401 "Invalid
    token type" by [get_current_user] and by [logout_user], and a token that
    does not decode to a refresh token gets the same answer from
    [refresh_token]; nothing changes. *)
Theorem token_of_the_wrong_type_is_refused (self : AuthService) (token : string)
  (p : Payload) (device_info : option Json) (w : World) :
  jwt_decode self token (clock w) = Decoded p ->
  (p_type p <> Some "access" ->
   get_current_user self token w
   = (Raise (HTTPException HTTP_401_UNAUTHORIZED (Message "Invalid token type")), w)
   /\ logout_user self token w
      = (Raise (HTTPException HTTP_401_UNAUTHORIZED (Message "Invalid token type")), w))
  /\ (p_type p <> Some "refresh" ->
      refresh_token self token device_info w
      = (Raise (HTTPException HTTP_401_UNAUTHORIZED (Message "Invalid token type")), w)).
Proof.
  intros Hd. split; [intros Hty; split | intros Hty];
    unfold get_current_user, logout_user, refresh_token;
    rewrite (bind_Raise _ _ _ _ _ (verify_token_wrong_type self token _ p w Hd Hty));
    reflexivity.
Qed.

Lemma verify_token_raises_401 self token token_type (w w1 : World) status_code detail :
  verify_token self token token_type w = (Raise (HTTPException status_code detail), w1) ->
  status_code = HTTP_401_UNAUTHORIZED /\ exists text, detail = Message text.
Proof.
  unfold verify_token. intros E. blame; eauto.
Qed.

Lemma get_current_user_raises_401 self token (w w1 : World) status_code detail :
  get_current_user self token w = (Raise (HTTPException status_code detail), w1) ->
  status_code = HTTP_401_UNAUTHORIZED /\ exists text, detail = Message text.
Proof.
  unfold get_current_user, payload_user_id. intros E. blame; eauto.
  - eapply verify_token_raises_401; eauto.
  - unfold raise in *. discriminate.
Qed.

Lemma get_current_user_returns_active self token (w w1 : World) user :
  get_current_user self token w = (Return user, w1) ->
  User.is_active user = true /\ user ∈ users (txn w1).
Proof.
  unfold get_current_user, payload_user_id. intros E. unwind.
  match goal with
  | H : first _ _ = Some _ |- _ => apply first_Some in H; destruct H as (Hi & [_ Ha] & _)
  end.
  split; [exact Ha|]. apply list_elem_of_lookup.
  unfold read_txn in *. injection Hrun1 as <- <-. eauto.
Qed.

(** X16. The [get_current_user] dependency answers with an active user read
    from the database or with a 401 response, never with anything else: a
    request without credentials gets "Authentication required" and leaves the
    world as it is, and an error of the service that is not an HTTP exception
    (a failed commit, a payload without [user_id]) is turned into "Invalid
    authentication". *)
Theorem current_user_dependency_answers_user_or_401 (self : AuthService)
  (credentials : option string) (w : World) :
  match Depends.get_current_user self credentials w with
  | (Return user, w1) => User.is_active user = true /\ user ∈ users (txn w1)
  | (Raise e, _) =>
      exists text, e = HTTPException HTTP_401_UNAUTHORIZED (Message text)
  end
  /\ Depends.get_current_user self None w
     = (Raise (HTTPException HTTP_401_UNAUTHORIZED (Message "Authentication required")), w)
  /\ (forall token e w1,
        get_current_user self token w = (Raise (PythonError e), w1) ->
        Depends.get_current_user self (Some token) w
        = (Raise (HTTPException HTTP_401_UNAUTHORIZED (Message "Invalid authentication")),
           w1)).
Proof.
  split; [| split; [reflexivity|]].
  - destruct credentials as [token|]; [| simpl; eauto].
    unfold Depends.get_current_user, try_except.
    destruct (get_current_user self token w) as [[user|[status_code detail|e]] w1] eqn:E.
    + exact (get_current_user_returns_active self token w w1 user E).
    + apply get_current_user_raises_401 in E. destruct E as (-> & text & ->).
      simpl. eauto.
    + simpl. eauto.
  - intros token e w1 E. unfold Depends.get_current_user, try_except. rewrite E.
    reflexivity.
Qed.

(** X17. The [get_optional_user] dependency never raises: it returns the
    user exactly when the [get_current_user] dependency returns that user, and
    [None] whenever that one raises; both leave the same world behind. *)
Theorem optional_user_dependency_never_raises (self : AuthService)
  (credentials : option string) (w : World) :
  exists r,
    Depends.get_optional_user self credentials w
    = (Return r, snd (Depends.get_current_user self credentials w))
    /\ (forall user,
          r = Some user
          <-> fst (Depends.get_current_user self credentials w) = Return user)
    /\ (r = None
        <-> exists e, fst (Depends.get_current_user self credentials w) = Raise e).
Proof.
  destruct credentials as [token|].
  - unfold Depends.get_optional_user, Depends.get_current_user, try_except, bind, ret.
    destruct (get_current_user self token w) as [[user|[status_code detail|e]] w1];
      simpl; eexists; (split; [reflexivity|]); split;
      try (intros user'; split; congruence);
      try (split; [eauto | discriminate]);
      try (split; [eauto | reflexivity]);
      try (split; [discriminate | intros [e' E]; discriminate E]).
  - exists None. simpl. split; [reflexivity|]. split.
    + intros user. split; discriminate.
    + split; eauto.
Qed.

End Guards.

Lemma token_of_the_wrong_type_is_refused_witness :
  get_current_user default_auth_service "R1.a.j1" sample_world
  = (Raise (HTTPException HTTP_401_UNAUTHORIZED (Message "Invalid token type")),
     sample_world)
  /\ refresh_token default_auth_service "A1.a." None sample_world
     = (Raise (HTTPException HTTP_401_UNAUTHORIZED (Message "Invalid token type")),
        sample_world).
Proof.
  split.
  - refine (proj1 (proj1 (token_of_the_wrong_type_is_refused default_auth_service
                            "R1.a.j1"
                            (mkPayload (Some 1) (Some "refresh") None None None) None
                            sample_world _) _)).
    + vm_compute. reflexivity.
    + discriminate.
  - refine (proj2 (token_of_the_wrong_type_is_refused default_auth_service "A1.a."
                     (mkPayload (Some 1) (Some "access") None None None) None
                     sample_world _) _).
    + vm_compute. reflexivity.
    + discriminate.
Defined.

(** ** What no sequence of requests undoes *)

#[local] Instance user_step_refl : Reflexive user_step.
Proof. intros u. unfold user_step. tauto. Qed.

#[local] Instance user_step_trans : Transitive user_step.
Proof.
  intros a b c (?&?&?&?&?&?) (?&?&?&?&?&?). unfold user_step.
  repeat split; try congruence. auto.
Qed.

Lemma history_refl d : history d d.
Proof. split; [apply grows_refl; apply _ | reflexivity]. Qed.

Lemma history_trans d1 d2 d3 : history d1 d2 -> history d2 d3 -> history d1 d3.
Proof.
  intros [Hu Ha] [Hu' Ha']. split.
  - eapply grows_trans; [apply _ | exact Hu | exact Hu'].
  - etransitivity; eassumption.
Qed.

Lemma steady_with_user_sessions f : steady (with_user_sessions f).
Proof. intros d. split; simpl; [apply grows_refl; apply _ | reflexivity]. Qed.

Lemma steady_with_password_resets f : steady (with_password_resets f).
Proof. intros d. split; simpl; [apply grows_refl; apply _ | reflexivity]. Qed.

Lemma steady_add_audit_log a : steady (with_audit_logs (add a)).
Proof.
  intros d. split; simpl; [apply grows_refl; apply _ |]. unfold add.
  apply prefix_app_r. reflexivity.
Qed.

Lemma steady_add_user u : steady (with_users (add u)).
Proof. intros d. split; simpl; [apply grows_add; apply _ | reflexivity]. Qed.

Lemma steady_assign_user i g :
  (forall u, user_step u (g u)) -> steady (with_users (assign i g)).
Proof.
  intros Hg d. split; simpl; [apply grows_assign; [apply _ | exact Hg] | reflexivity].
Qed.

Lemma user_step_set_last_login t0 u : user_step u (User.set_last_login t0 u).
Proof. unfold user_step. simpl. tauto. Qed.

Lemma user_step_set_password_hash h u : user_step u (User.set_password_hash h u).
Proof. unfold user_step. simpl. tauto. Qed.

Lemma user_step_deactivate u : user_step u (User.set_is_active false u).
Proof. unfold user_step. simpl. tauto. Qed.

Ltac steady_tac :=
  first
    [ apply steady_with_user_sessions
    | apply steady_with_password_resets
    | apply steady_add_audit_log
    | apply steady_add_user
    | apply steady_assign_user; intros ?;
      first [ apply user_step_set_last_login | apply user_step_set_password_hash
            | apply user_step_deactivate ] ].

Lemma keeps_pure {A} (m : M A) :
  (forall w, committed (snd (m w)) = committed w /\ txn (snd (m w)) = txn w) ->
  keeps history m.
Proof. intros Hm d0 w Hc Ht. destruct (Hm w) as [-> ->]. auto. Qed.

Lemma keeps_ret {A} (a : A) : keeps history (ret a).
Proof. apply keeps_pure. intros w. auto. Qed.

Lemma keeps_raise {A} e : keeps history (@raise A e).
Proof. apply keeps_pure. intros w. auto. Qed.

Lemma keeps_utcnow : keeps history utcnow.
Proof. apply keeps_pure. intros w. auto. Qed.

Lemma keeps_read_txn : keeps history read_txn.
Proof. apply keeps_pure. intros w. auto. Qed.

Lemma keeps_draw : keeps history draw.
Proof. apply keeps_pure. intros w. auto. Qed.

Lemma keeps_modify_txn f : steady f -> keeps history (modify_txn f).
Proof.
  intros Hf d0 w Hc Ht. simpl. split; [exact Hc|].
  apply (history_trans d0 (txn w)); [exact Ht | apply Hf].
Qed.

Lemma keeps_commit : keeps history commit.
Proof.
  intros d0 w Hc Ht. unfold commit.
  destruct (faults w) as [|[|] fs]; simpl; auto; case_bool_decide; simpl; auto.
Qed.

Lemma keeps_commit_not_null_violation {A} : keeps history (@commit_not_null_violation A).
Proof. intros d0 w Hc Ht. simpl. auto. Qed.

Lemma keeps_bind {A B} (m : M A) (k : A -> M B) :
  keeps history m -> (forall a, keeps history (k a)) -> keeps history (bind m k).
Proof.
  intros Hm Hk d0 w Hc Ht. unfold bind. specialize (Hm d0 w Hc Ht).
  destruct (m w) as [[a|e] w1]; simpl in *; [apply Hk; tauto | exact Hm].
Qed.

Lemma keeps_try_except {A} (m : M A) (h : Exn -> M A) :
  keeps history m -> (forall e, keeps history (h e)) -> keeps history (try_except m h).
Proof.
  intros Hm Hh d0 w Hc Ht. unfold try_except. specialize (Hm d0 w Hc Ht).
  destruct (m w) as [[a|e] w1]; simpl in *; [exact Hm | apply Hh; tauto].
Qed.

Create HintDb keeps.

Ltac keep :=
  repeat first
    [ apply keeps_ret | apply keeps_raise | apply keeps_utcnow
    | apply keeps_read_txn | apply keeps_draw | apply keeps_commit
    | apply keeps_commit_not_null_violation
    | apply keeps_modify_txn; steady_tac
    | solve [auto with keeps]
    | apply keeps_bind; [| intros ?]
    | apply keeps_try_except; [| intros ?]
    | match goal with
      | |- keeps history (match ?x with _ => _ end) => destruct x
      | |- keeps history (if ?b then _ else _) => destruct b
      end ].

(** Runs the primitive actions of a run that has been unwound. *)
Ltac primitives :=
  unfold utcnow, read_txn, modify_txn, draw in *;
  repeat match goal with
         | H : (Return _, _) = (Return _, _) |- _ => injection H; clear H; intros; subst
         end.

Section Permanence.
Context `{Externals}.

Lemma keeps_log_audit_event action user_id details ip ua :
  keeps history (log_audit_event action user_id details ip ua).
Proof. unfold log_audit_event. keep. Qed.
#[local] Hint Resolve keeps_log_audit_event : keeps.

Lemma keeps_generate_tokens self user_id device_info :
  keeps history (generate_tokens self user_id device_info).
Proof. unfold generate_tokens. keep. Qed.
#[local] Hint Resolve keeps_generate_tokens : keeps.

Lemma keeps_verify_token self token token_type :
  keeps history (verify_token self token token_type).
Proof. unfold verify_token, unauthorized. keep. Qed.
#[local] Hint Resolve keeps_verify_token : keeps.

Lemma keeps_get_user_permissions user_id : keeps history (get_user_permissions user_id).
Proof. unfold get_user_permissions. keep. Qed.
#[local] Hint Resolve keeps_get_user_permissions : keeps.

Lemma keeps_create_password_reset_token email :
  keeps history (create_password_reset_token email).
Proof. unfold create_password_reset_token. keep. Qed.
#[local] Hint Resolve keeps_create_password_reset_token : keeps.

Lemma keeps_perform self c : keeps history (perform self c).
Proof.
  destruct c; unfold perform, void, register_user, authenticate_user, login_failed,
    refresh_token, logout_user, get_current_user, forgot_password, route_boundary,
    reset_password, change_password, deactivate_user, get_user_sessions,
    revoke_session, revoke_all_sessions, payload_user_id, hash_password,
    unauthorized, bad_request; keep.
Qed.

(** A request sees of the world only what a fresh database session shows. *)
Lemma open_session_step self e w w' :
  open_session w = open_session w' ->
  open_session (step self e w) = open_session (step self e w').
Proof.
  intros E. destruct e as [c|t].
  - unfold step, request. rewrite E. reflexivity.
  - unfold open_session in *. simpl. injection E; intros; congruence.
Qed.

Lemma open_session_run self es w w' :
  open_session w = open_session w' ->
  open_session (run self es w) = open_session (run self es w').
Proof.
  revert w w'. induction es as [|e es IH]; intros w w' E; simpl; [exact E|].
  apply IH, open_session_step, E.
Qed.

Lemma committed_run_open_session self es w :
  committed (run self es (open_session w)) = committed (run self es w).
Proof.
  change (committed (open_session (run self es (open_session w)))
          = committed (open_session (run self es w))).
  f_equal. apply open_session_run. reflexivity.
Qed.

Lemma history_run self es w : history (committed w) (committed (run self es w)).
Proof.
  rewrite <- committed_run_open_session.
  assert (G : forall es w d0, history d0 (committed w) -> history d0 (txn w) ->
                history d0 (committed (run self es w))
                /\ history d0 (txn (run self es w))).
  { clear. intros es. induction es as [|e es IH]; intros w d0 Hc Ht; simpl; [auto|].
    apply IH; destruct e as [c|t]; simpl; auto.
    - unfold request.
      pose proof (keeps_perform self c d0 (open_session w) Hc Hc) as [Hc1 _].
      destruct (perform self c (open_session w)) as [r w1]. simpl in *. exact Hc1.
    - unfold request.
      pose proof (keeps_perform self c d0 (open_session w) Hc Hc) as [Hc1 _].
      destruct (perform self c (open_session w)) as [r w1]. simpl in *. exact Hc1. }
  apply G; simpl; apply history_refl.
Qed.

Lemma evolved_run_committed self es w :
  unique_constraints (committed w) ->
  evolved_from (committed w) (open_session (run self es w)).
Proof.
  intros Hu.
  assert (E : open_session (run self es w) = open_session (run self es (open_session w))).
  { apply open_session_run. reflexivity. }
  rewrite E. apply evolved_open_session, evolved_run.
  apply evolved_from_intro; [exact Hu | apply evolves_refl | apply evolves_refl].
Qed.

(** X18. No sequence of requests rewrites history: whatever requests are
    served and however time passes, every user row stays at its place with the
    same id, uuid, email, username and roles, a deactivated user stays
    deactivated, and the audit log only grows at its end. *)
Theorem users_and_audit_log_are_never_rewritten (self : AuthService) (es : list Event)
  (w : World) :
  let w' := run self es w in
  (forall i u, users (committed w) !! i = Some u ->
     exists u', users (committed w') !! i = Some u'
                /\ User.id u' = User.id u /\ User.uuid u' = User.uuid u
                /\ User.email u' = User.email u /\ User.username u' = User.username u
                /\ User.roles u' = User.roles u
                /\ (User.is_active u = false -> User.is_active u' = false))
  /\ (exists later, audit_logs (committed w') = (audit_logs (committed w) ++ later)%list).
Proof.
  destruct (history_run self es w) as [Hu Ha]. split.
  - intros i u Hi. destruct (Hu i u Hi) as (u' & Hi' & Hstep). exists u'. split; assumption.
  - exact Ha.
Qed.

(** Once a session row holding access token [t] is inactive, no later state
    has an active one. *)
Lemma inactive_session_token_stays_inactive d0 (w : World) s t :
  evolved_from d0 w ->
  s ∈ user_sessions d0 ->
  UserSession.session_token s = t -> UserSession.is_active s = false ->
  forall s', s' ∈ user_sessions (committed w) ->
             UserSession.session_token s' = t -> UserSession.is_active s' = false.
Proof.
  intros (Hu & [Hg _] & _) Hin Ht Hoff s' Hin' Ht'.
  apply list_elem_of_lookup in Hin. destruct Hin as [i Hi].
  destruct (Hg i s Hi) as (s2 & Hi2 & (_ & _ & Htok & _ & _ & Hkeep)).
  apply list_elem_of_lookup in Hin'. destruct Hin' as [k Hk].
  destruct (unique_key UserSession.session_token (user_sessions (committed w))
              k i s' s2) as [_ ->];
    try assumption; [apply Hu | congruence | auto].
Qed.

(** X19. Revocation is permanent.  Once the session row of an access token
    is inactive (after a logout, a revocation, a token refresh, a password
    reset or the deactivation of the user), whatever requests are served
    afterwards the row stays inactive, and [get_current_user] and
    [logout_user] answer that token with a 401 response and change nothing. *)
Theorem revoked_access_token_stays_refused (self : AuthService) (w : World)
  (t : string) (s : UserSession.t) :
  unique_constraints (committed w) ->
  s ∈ user_sessions (committed w) ->
  UserSession.session_token s = t -> UserSession.is_active s = false ->
  forall es,
    let w' := run self es w in
    (forall s', s' ∈ user_sessions (committed w') ->
                UserSession.session_token s' = t -> UserSession.is_active s' = false)
    /\ (exists text,
          request (get_current_user self t) w'
          = (Raise (HTTPException HTTP_401_UNAUTHORIZED (Message text)), open_session w'))
    /\ (exists text,
          request (logout_user self t) w'
          = (Raise (HTTPException HTTP_401_UNAUTHORIZED (Message text)), open_session w')).
Proof.
  intros Hu Hin Ht Hoff es w'.
  pose proof (inactive_session_token_stays_inactive (committed w)
                (open_session w') s t (evolved_run_committed self es w Hu) Hin Ht Hoff)
    as Hdead.
  assert (Hmiss : exists text,
             verify_token self t "access" (open_session w')
             = (Raise (HTTPException HTTP_401_UNAUTHORIZED (Message text)),
                open_session w')).
  { apply verify_token_access_miss. intros s' Hs' (Htok & Hact & _).
    rewrite (Hdead s' Hs' Htok) in Hact. discriminate. }
  destruct Hmiss as (text & Hv).
  split; [exact Hdead|].
  split; exists text; unfold request, get_current_user, logout_user;
    rewrite (bind_Raise _ _ _ _ _ Hv); reflexivity.
Qed.

Lemma authenticate_user_returns_active self login password device_info (w w1 : World) r :
  authenticate_user self login password device_info w = (Return r, w1) ->
  exists i user0,
    users (txn w) !! i = Some user0 /\ User.is_active user0 = true
    /\ User.email (ar_user r) = User.email user0.
Proof.
  unfold authenticate_user. intros E.
  apply bind_inv_Return in E. destruct E as (db & w0 & Hdb & E).
  unfold read_txn in Hdb. injection Hdb as <- <-.
  destruct (first _ _) as [[i user0]|] eqn:Hfirst.
  - apply first_Some in Hfirst. destruct Hfirst as (Hi & [_ Hact] & _).
    destruct (negb _); [unfold login_failed in E; unwind |].
    unwind. exists i, user0. auto.
  - unfold login_failed in E. unwind.
Qed.

Lemma verify_token_users self token token_type p (w w1 : World) :
  verify_token self token token_type w = (Return p, w1) ->
  users (txn w1) = users (txn w).
Proof.
  unfold verify_token. intros E. unwind; primitives;
    try match goal with
      | H : commit _ = (Return ?u, _) |- _ =>
          destruct u; apply commit_inv_Return in H; destruct H as [_ ->]
      end;
    reflexivity.
Qed.

Lemma get_current_user_returns_row self token (w w1 : World) user :
  get_current_user self token w = (Return user, w1) ->
  exists i, users (txn w) !! i = Some user /\ User.is_active user = true.
Proof.
  unfold get_current_user, payload_user_id. intros E. unwind.
  match goal with
  | H : verify_token _ _ _ _ = _ |- _ => apply verify_token_users in H; rename H into Hv
  end.
  primitives.
  match goal with
  | H : first _ _ = Some _ |- _ => apply first_Some in H; destruct H as (Hi & [_ Ha] & _)
  end.
  rewrite Hv in Hi. eauto.
Qed.

(** X20. Deactivation is permanent.  Once the row of a user is inactive,
    whatever requests are served afterwards no login returns that account and
    no access token resolves to it (accounts are told apart by their e-mail
    address, which is unique and never changes). *)
Theorem deactivated_account_stays_locked (self : AuthService) (w : World) (u : User.t) :
  unique_constraints (committed w) ->
  u ∈ users (committed w) -> User.is_active u = false ->
  forall es login password device_info token,
    let w' := run self es w in
    (forall r, fst (request (authenticate_user self login password device_info) w')
               = Return r ->
               User.email (ar_user r) <> User.email u)
    /\ (forall user, fst (request (get_current_user self token) w') = Return user ->
                     User.email user <> User.email u).
Proof.
  intros Hu Hin Hoff es login password device_info token w'.
  destruct (evolved_run_committed self es w Hu) as (Hu' & _ & _).
  simpl in Hu'. fold w' in Hu'.
  destruct (history_run self es w) as [Hg _]. fold w' in Hg.
  apply list_elem_of_lookup in Hin. destruct Hin as [i Hi].
  destruct (Hg i u Hi) as (u' & Hi' & (_ & _ & Hmail & _ & _ & Hkeep)).
  specialize (Hkeep Hoff).
  assert (Hlocked : forall k x, users (committed w') !! k = Some x ->
                                User.is_active x = true -> User.email x <> User.email u).
  { intros k x Hk Hact Heq.
    destruct (unique_key User.email (users (committed w')) k i x u') as [_ ->];
      try assumption; [apply Hu' | congruence | congruence]. }
  split.
  - intros r. unfold request.
    destruct (authenticate_user self login password device_info (open_session w'))
      as [res w1] eqn:E. simpl. intros ->.
    apply authenticate_user_returns_active in E.
    destruct E as (k & user0 & Hk & Hact & ->). exact (Hlocked k user0 Hk Hact).
  - intros user. unfold request.
    destruct (get_current_user self token (open_session w')) as [res w1] eqn:E.
    simpl. intros ->.
    apply get_current_user_returns_row in E. destruct E as (k & Hk & Hact).
    exact (Hlocked k user Hk Hact).
Qed.

End Permanence.

Lemma revoked_access_token_stays_refused_witness :
  let w' := run default_auth_service
              [Serve (Logout "A1.a."); Elapse 200; Serve (GetUserSessions 1)]
              sample_world in
  exists text,
    request (get_current_user default_auth_service "A1.c.") w'
    = (Raise (HTTPException HTTP_401_UNAUTHORIZED (Message text)), open_session w').
Proof.
  intros w'.
  apply (revoked_access_token_stays_refused default_auth_service sample_world "A1.c."
           (sample_session 3 "A1.c." "R1.c.j3" false)).
  - apply sample_db_integrity.
  - simpl. right. right. left.
  - reflexivity.
  - reflexivity.
Defined.

Lemma deactivated_account_stays_locked_witness :
  let d := with_users (assign 0 (User.set_is_active false)) sample_db in
  let w' := run default_auth_service [Serve (ChangePassword 1 "Abcdef1!" "Ghijkl2?")]
              (mkWorld d d [] 100 0) in
  unique_constraints d
  /\ (forall r,
        fst (request (authenticate_user default_auth_service "a@x.com" "Ghijkl2?" None) w')
        = Return r ->
        User.email (ar_user r) <> "a@x.com").
Proof.
  intros d w'.
  assert (Hu : unique_constraints d) by by_computation.
  split; [exact Hu|].
  apply (deactivated_account_stays_locked default_auth_service (mkWorld d d [] 100 0)
           (User.set_is_active false sample_user)).
  - exact Hu.
  - simpl. left.
  - reflexivity.
  - exact "".
Defined.

(** ** Account and session operations, one call at a time *)

Section Operations.
Context `{Externals}.

Lemma unique_constraints_assign_user (d : Db) i g :
  (forall u, User.email (g u) = User.email u) ->
  (forall u, User.username (g u) = User.username u) ->
  (forall u, User.uuid (g u) = User.uuid u) ->
  unique_constraints d -> unique_constraints (with_users (assign i g) d).
Proof.
  intros He Hn Hi. apply unique_constraints_ext; try reflexivity; simpl;
    apply fmap_assign_key; assumption.
Qed.

Lemma unique_constraints_update_sessions (d : Db) (P : UserSession.t -> Prop)
  `{!forall x, Decision (P x)} b :
  unique_constraints d ->
  unique_constraints (with_user_sessions (update_where P (UserSession.set_is_active b)) d).
Proof.
  apply unique_constraints_ext; try reflexivity; simpl;
    apply fmap_update_where_key; intros []; reflexivity.
Qed.

Lemma audited_logged action user_id details ip ua now d fs k e :
  exists a,
    last (audit_logs (committed (mkWorld (logged action user_id details ip ua now d)
                                         (logged action user_id details ip ua now d)
                                         fs k e))) = Some a
    /\ AuditLog.action a = action /\ AuditLog.user_id a = user_id.
Proof.
  eexists. simpl. unfold add. rewrite last_snoc. split; [reflexivity|]. split; reflexivity.
Qed.

(** X21. [change_password] checks in this order: the user id (404 "User not
    found"), the current password (400 "Current password is incorrect", also
    when the new password is weak), the strength of the new password (400 with
    the itemised violations); each refusal leaves the world as it is.  When
    all three pass and the database accepts the commits it returns [True],
    stores the hash of the new password in the user's row, records a
    "password_changed" audit entry, and leaves every session and reset token
    as it was (unlike [reset_password], it revokes no session). *)
Theorem change_password_checks_in_order (w : World) (user_id : Z)
  (current_password new_password : string) :
  ((forall u, u ∈ users (txn w) -> User.id u <> user_id) ->
   change_password user_id current_password new_password w
   = (Raise (HTTPException HTTP_404_NOT_FOUND (Message "User not found")), w))
  /\ (forall user,
        NoDup (User.id <$> users (txn w)) ->
        user ∈ users (txn w) -> User.id user = user_id ->
        (verify_password current_password (User.password_hash user) = false ->
         change_password user_id current_password new_password w
         = (Raise (HTTPException HTTP_400_BAD_REQUEST
                     (Message "Current password is incorrect")), w))
        /\ (verify_password current_password (User.password_hash user) = true ->
            is_valid (validate_password_strength new_password) = false ->
            change_password user_id current_password new_password w
            = (Raise (HTTPException HTTP_400_BAD_REQUEST
                        (weak_password (validate_password_strength new_password))), w))
        /\ (verify_password current_password (User.password_hash user) = true ->
            is_valid (validate_password_strength new_password) = true ->
            faults w = [] -> unique_constraints (txn w) ->
            exists w1 i,
              change_password user_id current_password new_password w = (Return true, w1)
              /\ users (txn w) !! i = Some user
              /\ users (committed w1)
                 = assign i (User.set_password_hash
                               (bcrypt_hashpw new_password (bcrypt_gensalt (entropy w))))
                          (users (txn w))
              /\ user_sessions (committed w1) = user_sessions (txn w)
              /\ password_resets (committed w1) = password_resets (txn w)
              /\ exists a, last (audit_logs (committed w1)) = Some a
                           /\ AuditLog.action a = "password_changed"
                           /\ AuditLog.user_id a = Some user_id)).
Proof.
  split.
  - intros Hmiss. unfold change_password, bind, read_txn.
    rewrite (proj2 (first_None _ _)); [reflexivity | exact Hmiss].
  - intros user Hnd Hin Hid.
    destruct (first_unique User.id (fun u => User.id u = user_id) (users (txn w)) user)
      as (i & Hfirst & Hi); auto.
    { intros y Hy. congruence. }
    split; [| split].
    + intros Hv. unfold change_password, bind, read_txn. rewrite Hfirst, Hv. reflexivity.
    + intros Hv Hweak. unfold change_password, bind, read_txn.
      rewrite Hfirst, Hv, Hweak. reflexivity.
    + intros Hv Hok Hf Hu.
      set (h := bcrypt_hashpw new_password (bcrypt_gensalt (entropy w))).
      assert (Hu1 : unique_constraints (with_users (assign i (User.set_password_hash h))
                                          (txn w))).
      { apply unique_constraints_assign_user; auto; intros []; reflexivity. }
      eexists. exists i.
      unfold change_password, hash_password, bind, read_txn, draw, modify_txn, ret.
      rewrite Hfirst, Hv, Hok. cbn [negb committed txn faults clock entropy].
      rewrite commit_accepts; [| exact Hf | exact Hu1].
      rewrite log_audit_event_accepts; [| reflexivity | exact Hu1].
      split; [reflexivity|]. split; [exact Hi|].
      split; [reflexivity|]. split; [reflexivity|]. split; [reflexivity|].
      rewrite Hid. apply audited_logged.
Qed.

(** X22. [deactivate_user] returns [False] and changes nothing when no user
    has the id.  Otherwise (the database accepting the commits) it returns
    [True], clears the user's [is_active] flag, leaves the user without active
    session, touches no session of another user, and records a
    "user_deactivated" audit entry under the administrator's id. *)
Theorem deactivate_user_ends_every_session (w : World) (user_id admin_user_id : Z) :
  ((forall u, u ∈ users (txn w) -> User.id u <> user_id) ->
   deactivate_user user_id admin_user_id w = (Return false, w))
  /\ (forall user,
        NoDup (User.id <$> users (txn w)) ->
        user ∈ users (txn w) -> User.id user = user_id ->
        faults w = [] -> unique_constraints (txn w) ->
        exists w1 i,
          deactivate_user user_id admin_user_id w = (Return true, w1)
          /\ users (txn w) !! i = Some user
          /\ users (committed w1)
             = assign i (User.set_is_active false) (users (txn w))
          /\ active_sessions user_id (committed w1) = []
          /\ (forall k s, user_sessions (txn w) !! k = Some s ->
                          UserSession.user_id s <> user_id ->
                          user_sessions (committed w1) !! k = Some s)
          /\ exists a, last (audit_logs (committed w1)) = Some a
                       /\ AuditLog.action a = "user_deactivated"
                       /\ AuditLog.user_id a = Some admin_user_id).
Proof.
  split.
  - intros Hmiss. unfold deactivate_user, bind, read_txn.
    rewrite (proj2 (first_None _ _)); [reflexivity | exact Hmiss].
  - intros user Hnd Hin Hid Hf Hu.
    destruct (first_unique User.id (fun u => User.id u = user_id) (users (txn w)) user)
      as (i & Hfirst & Hi); auto.
    { intros y Hy. congruence. }
    set (d1 := with_user_sessions
                 (update_where (fun s => UserSession.user_id s = user_id
                                         /\ UserSession.is_active s = true)
                               (UserSession.set_is_active false))
                 (with_users (assign i (User.set_is_active false)) (txn w))).
    assert (Hu1 : unique_constraints d1).
    { apply unique_constraints_update_sessions, unique_constraints_assign_user; auto;
        intros []; reflexivity. }
    eexists. exists i.
    unfold deactivate_user, bind, read_txn, modify_txn, ret. rewrite Hfirst.
    cbn [committed txn faults clock entropy].
    rewrite commit_accepts; [| exact Hf | exact Hu1].
    rewrite log_audit_event_accepts; [| reflexivity | exact Hu1].
    split; [reflexivity|]. split; [exact Hi|].
    split; [reflexivity|]. split; [| split].
    + unfold active_sessions. simpl. apply filter_update_where_nil.
      intros x _ [_ Hact]. destruct x. discriminate Hact.
    + intros k s Hk Hne. simpl. unfold update_where. rewrite list_lookup_fmap, Hk.
      simpl. rewrite decide_False by tauto. reflexivity.
    + apply audited_logged.
Qed.

(** X23. [revoke_session] is scoped to the owner: it returns [False] and
    changes nothing unless an active session with that id belongs to the given
    user (so the session of another user, or a session already revoked, is
    left alone).  Otherwise (the database accepting the commits) it returns
    [True], deactivates that one row and no other, and records a
    "session_revoked" audit entry. *)
Theorem revoke_session_is_scoped_to_the_owner (w : World) (session_id user_id : Z) :
  ((forall s, s ∈ user_sessions (txn w) ->
              ~ (UserSession.id s = session_id /\ UserSession.user_id s = user_id
                 /\ UserSession.is_active s = true)) ->
   revoke_session session_id user_id w = (Return false, w))
  /\ (forall s,
        NoDup (UserSession.id <$> user_sessions (txn w)) ->
        s ∈ user_sessions (txn w) ->
        UserSession.id s = session_id -> UserSession.user_id s = user_id ->
        UserSession.is_active s = true ->
        faults w = [] -> unique_constraints (txn w) ->
        exists w1 i,
          revoke_session session_id user_id w = (Return true, w1)
          /\ user_sessions (txn w) !! i = Some s
          /\ user_sessions (committed w1) !! i = Some (UserSession.set_is_active false s)
          /\ (forall k, k <> i ->
                user_sessions (committed w1) !! k = user_sessions (txn w) !! k)
          /\ users (committed w1) = users (txn w)
          /\ exists a, last (audit_logs (committed w1)) = Some a
                       /\ AuditLog.action a = "session_revoked"
                       /\ AuditLog.user_id a = Some user_id).
Proof.
  split.
  - intros Hmiss. unfold revoke_session, bind, read_txn.
    rewrite (proj2 (first_None _ _)); [reflexivity | exact Hmiss].
  - intros s Hnd Hin Hid Huid Hact Hf Hu.
    destruct (first_unique UserSession.id
                (fun s0 => UserSession.id s0 = session_id
                           /\ UserSession.user_id s0 = user_id
                           /\ UserSession.is_active s0 = true)
                (user_sessions (txn w)) s) as (i & Hfirst & Hi); auto.
    { intros y [Hy _]. congruence. }
    set (d1 := with_user_sessions (assign i (UserSession.set_is_active false)) (txn w)).
    assert (Hu1 : unique_constraints d1).
    { revert Hu. apply unique_constraints_ext; try reflexivity; simpl;
        apply fmap_assign_key; intros []; reflexivity. }
    eexists. exists i.
    unfold revoke_session, bind, read_txn, modify_txn, ret. rewrite Hfirst.
    cbn [committed txn faults clock entropy].
    rewrite commit_accepts; [| exact Hf | exact Hu1].
    rewrite log_audit_event_accepts; [| reflexivity | exact Hu1].
    split; [reflexivity|]. split; [exact Hi|].
    split; [| split; [| split]].
    + simpl. unfold assign. rewrite list_lookup_alter_eq, Hi. reflexivity.
    + intros k Hk. simpl. unfold assign. apply list_lookup_alter_ne. congruence.
    + reflexivity.
    + apply audited_logged.
Qed.

(** X24. Without a current session to spare ([except_current] missing or
    empty) [revoke_all_sessions] revokes every active session of the user: it
    returns their number, leaves the user without active session, so that
    [get_user_sessions] lists nothing afterwards, and touches no session of
    another user. *)
Theorem revoke_all_sessions_without_exception (w : World) (user_id : Z)
  (except_current : option string) :
  truthy except_current = false ->
  faults w = [] -> unique_constraints (txn w) ->
  exists w1,
    revoke_all_sessions user_id except_current w
    = (Return (Z.of_nat (length (active_sessions user_id (txn w)))), w1)
    /\ active_sessions user_id (committed w1) = []
    /\ get_user_sessions user_id w1 = (Return [], w1)
    /\ (forall k s, user_sessions (txn w) !! k = Some s ->
                    UserSession.user_id s <> user_id ->
                    user_sessions (committed w1) !! k = Some s)
    /\ exists a, last (audit_logs (committed w1)) = Some a
                 /\ AuditLog.action a = "all_sessions_revoked"
                 /\ AuditLog.user_id a = Some user_id.
Proof.
  intros Hfalsy Hf Hu.
  assert (HQ : forall x, revocable user_id except_current x
                         <-> UserSession.user_id x = user_id
                             /\ UserSession.is_active x = true).
  { intros x. unfold revocable. rewrite Hfalsy. split; [tauto|].
    intros Hx. split; [exact Hx | discriminate]. }
  set (d1 := with_user_sessions
               (update_where (revocable user_id except_current)
                             (UserSession.set_is_active false)) (txn w)).
  assert (Hu1 : unique_constraints d1).
  { apply unique_constraints_update_sessions, Hu. }
  assert (Hnone : filter (fun s => UserSession.user_id s = user_id
                                   /\ UserSession.is_active s = true)
                         (user_sessions d1) = []).
  { simpl. apply filter_update_where_none.
    - intros x [_ Hact]. destruct x. discriminate Hact.
    - intros x _ Hx. apply HQ, Hx. }
  eexists.
  unfold revoke_all_sessions, bind, read_txn, modify_txn, ret.
  cbn [committed txn faults clock entropy].
  rewrite commit_accepts; [| exact Hf | exact Hu1].
  rewrite log_audit_event_accepts; [| reflexivity | exact Hu1].
  split; [| split; [| split; [| split]]].
  - do 4 f_equal. unfold active_sessions. apply filter_ext_in. intros x _. apply HQ.
  - exact Hnone.
  - unfold get_user_sessions, bind, utcnow, read_txn, ret.
    cbn [committed txn faults clock entropy logged with_audit_logs user_sessions].
    rewrite filter_none; [reflexivity|].
    intros s Hs (Huid & Hact & _).
    assert (Hin : s ∈ filter (fun s => UserSession.user_id s = user_id
                                       /\ UserSession.is_active s = true)
                             (user_sessions d1)).
    { apply list_elem_of_filter. split; [tauto | exact Hs]. }
    rewrite Hnone in Hin. inversion Hin.
  - intros k s Hk Hne. simpl. unfold update_where. rewrite list_lookup_fmap, Hk.
    simpl. rewrite decide_False; [reflexivity|]. rewrite HQ. tauto.
  - apply audited_logged.
Qed.

(** X25. A failed login does not tell whether the account exists.  When no
    active user matches the login name, or the password does not verify for
    any active user matching it, [authenticate_user] answers 401 "Invalid
    email or password" (the database accepting the audit entry); it creates no
    session, changes no user, and appends one "login_failed" audit entry bound
    to no user. *)
Theorem failed_login_does_not_reveal_the_account (self : AuthService) (w : World)
  (login password : string) (device_info : option Json) :
  faults w = [] -> unique_constraints (txn w) ->
  (forall u, u ∈ users (txn w) ->
     (User.email u = login \/ User.username u = login) -> User.is_active u = true ->
     verify_password password (User.password_hash u) = false) ->
  exists w1 a,
    authenticate_user self login password device_info w
    = (Raise (HTTPException HTTP_401_UNAUTHORIZED (Message "Invalid email or password")),
       w1)
    /\ users (committed w1) = users (txn w)
    /\ user_sessions (committed w1) = user_sessions (txn w)
    /\ audit_logs (committed w1) = (audit_logs (txn w) ++ [a])%list
    /\ AuditLog.action a = "login_failed" /\ AuditLog.user_id a = None.
Proof.
  intros Hf Hu Hbad.
  assert (Hfail : exists w1 a,
             login_failed (A := AuthResult) login w
             = (Raise (HTTPException HTTP_401_UNAUTHORIZED
                         (Message "Invalid email or password")), w1)
             /\ users (committed w1) = users (txn w)
             /\ user_sessions (committed w1) = user_sessions (txn w)
             /\ audit_logs (committed w1) = (audit_logs (txn w) ++ [a])%list
             /\ AuditLog.action a = "login_failed" /\ AuditLog.user_id a = None).
  { eexists. eexists. unfold login_failed, bind.
    rewrite log_audit_event_accepts; [| exact Hf | exact Hu].
    split; [reflexivity|]. simpl. unfold add. repeat split. }
  unfold authenticate_user, bind, read_txn.
  match goal with
  | |- context [first ?P ?l] => destruct (first P l) as [[i user0]|] eqn:Hfirst
  end; [| exact Hfail].
  apply first_Some in Hfirst. destruct Hfirst as (Hi & [Hname Hact] & _).
  rewrite (Hbad user0); [exact Hfail | | exact Hname | exact Hact].
  apply list_elem_of_lookup. eauto.
Qed.

End Operations.

(** ** Logging in and registering *)

Section Login.
Context `{Externals}.

Lemma authenticate_user_accepts self login password device_info (w : World) i user :
  faults w = [] -> unique_constraints (txn w) ->
  first (fun u => (User.email u = login \/ User.username u = login)
                  /\ User.is_active u = true) (users (txn w)) = Some (i, user) ->
  verify_password password (User.password_hash user) = true ->
  let s' := issue self (User.id user) device_info w in
  UserSession.session_token s' ∉ UserSession.session_token <$> user_sessions (txn w) ->
  UserSession.refresh_token s' ∉ UserSession.refresh_token <$> user_sessions (txn w) ->
  exists permissions,
    authenticate_user self login password device_info w
    = (Return (mkAuthResult (User.set_last_login (clock w) user)
                 (Role.name <$> User.roles user) permissions
                 (tokens_of self (clock w) s')),
       let d := logged "login_success" (Some (User.id user))
                  (JObj [("device_info", json_of_option device_info)]) None None (clock w)
                  (with_user_sessions (add s')
                     (with_users (assign i (User.set_last_login (clock w))) (txn w))) in
       mkWorld d d [] (clock w) (S (entropy w))).
Proof.
  intros Hf Hu Hfirst Hv s' Hns Hnr.
  set (d1 := with_users (assign i (User.set_last_login (clock w))) (txn w)).
  assert (Hu1 : unique_constraints d1).
  { apply unique_constraints_assign_user; auto; intros []; reflexivity. }
  set (w0 := mkWorld d1 d1 [] (clock w) (entropy w)).
  assert (Hs' : issue self (User.id user) device_info w0 = s') by reflexivity.
  assert (Hu2 : unique_constraints (with_user_sessions (add s') d1)).
  { apply unique_constraints_add_session; assumption. }
  unfold authenticate_user, bind at 1, read_txn. rewrite Hfirst, Hv.
  cbn [negb].
  unfold bind at 1, utcnow. unfold bind at 1, modify_txn.
  unfold bind at 1. cbn [committed txn faults clock entropy].
  rewrite commit_accepts; [| exact Hf | exact Hu1].
  cbn [committed txn faults clock entropy]. fold d1. fold w0.
  assert (Hid : User.id (User.set_last_login (clock w) user) = User.id user)
    by (destruct user; reflexivity).
  rewrite Hid.
  rewrite (bind_Return _ _ _ _ _
             (generate_tokens_accepts self (User.id user) device_info w0 eq_refl
                ltac:(rewrite Hs'; exact Hu2))).
  rewrite Hs'. cbn zeta.
  unfold bind at 1.
  rewrite log_audit_event_accepts; [| reflexivity | exact Hu2].
  cbn zeta.
  unfold get_user_permissions, bind, read_txn, ret.
  match goal with
  | |- context [first ?P ?l] => destruct (first P l) as [[k u]|]
  end; eexists; reflexivity.
Qed.

(** X26. Logging in opens a session that authenticates.  When the login
    name matches one active user, the password verifies, the database accepts
    the commits, the fresh tokens collide with no stored one and the library
    decodes the fresh access token to the payload it was made from,
    [authenticate_user] returns the user with [last_login] set to the current
    time together with the tokens of a new active session, records a
    "login_success" audit entry, and [get_current_user] called with the
    returned access token returns that same user. *)
Theorem login_opens_a_session_that_authenticates (self : AuthService) (w : World)
  (login password : string) (device_info : option Json) (user : User.t) (p : Payload) :
  faults w = [] -> integrity (txn w) ->
  user ∈ users (txn w) ->
  (User.email user = login \/ User.username user = login) ->
  User.is_active user = true ->
  (forall u, u ∈ users (txn w) ->
     (User.email u = login \/ User.username u = login) -> User.is_active u = true ->
     u = user) ->
  verify_password password (User.password_hash user) = true ->
  0 < refresh_token_expire_days self ->
  let s' := issue self (User.id user) device_info w in
  UserSession.session_token s' ∉ UserSession.session_token <$> user_sessions (txn w) ->
  UserSession.refresh_token s' ∉ UserSession.refresh_token <$> user_sessions (txn w) ->
  jwt_decode self (UserSession.session_token s') (clock w) = Decoded p ->
  p_type p = Some "access" -> p_user_id p = Some (User.id user) ->
  exists r w1 w2,
    authenticate_user self login password device_info w = (Return r, w1)
    /\ ar_user r = User.set_last_login (clock w) user
    /\ access_token (ar_tokens r) = UserSession.session_token s'
    /\ t_refresh_token (ar_tokens r) = UserSession.refresh_token s'
    /\ s' ∈ user_sessions (committed w1)
    /\ (exists a, last (audit_logs (committed w1)) = Some a
                  /\ AuditLog.action a = "login_success"
                  /\ AuditLog.user_id a = Some (User.id user))
    /\ get_current_user self (access_token (ar_tokens r)) w1 = (Return (ar_user r), w2).
Proof.
  intros Hf [(Hpk & _) Hu] Hin Hname Hact Hone Hv Hdays s' Hns Hnr Hd Hty Huid.
  destruct (first_exists (fun u => (User.email u = login \/ User.username u = login)
                                   /\ User.is_active u = true) (users (txn w)) user Hin)
    as (i & y & Hfirst); [tauto|].
  assert (y = user) as ->.
  { destruct (first_Some _ _ _ _ Hfirst) as (Hi & [Hn Ha] & _).
    apply Hone; auto. apply list_elem_of_lookup. eauto. }
  destruct (first_Some _ _ _ _ Hfirst) as (Hi & _ & _).
  destruct (authenticate_user_accepts self login password device_info w i user
              Hf Hu Hfirst Hv Hns Hnr) as (permissions & Hrun).
  fold s' in Hrun. cbn zeta in Hrun.
  set (d1 := with_users (assign i (User.set_last_login (clock w))) (txn w)) in *.
  set (d2 := with_user_sessions (add s') d1) in *.
  set (d3 := logged "login_success" (Some (User.id user))
               (JObj [("device_info", json_of_option device_info)]) None None (clock w) d2)
    in *.
  set (w1 := mkWorld d3 d3 [] (clock w) (S (entropy w))) in *.
  assert (Hu3 : unique_constraints d3).
  { unfold d3, logged. apply unique_constraints_audit.
    apply unique_constraints_add_session; [| exact Hns | exact Hnr].
    apply unique_constraints_assign_user; auto; intros []; reflexivity. }
  assert (Hs'in : s' ∈ user_sessions d3).
  { simpl. unfold add. apply elem_of_app. right. left. }
  destruct (first_unique UserSession.session_token
              (fun s0 => UserSession.session_token s0 = UserSession.session_token s'
                         /\ UserSession.is_active s0 = true
                         /\ clock w1 < UserSession.expires_at s0)
              (user_sessions (txn w1)) s') as (k & Hk & _).
  { apply Hu3. }
  { exact Hs'in. }
  { split; [reflexivity|]. split; [reflexivity|]. simpl. unfold timedelta_days. lia. }
  { intros z [Hz _]. exact Hz. }
  pose proof (verify_token_access_hit self (UserSession.session_token s') p k s' w1
                eq_refl Hu3 Hd Hty Hk) as Hverify.
  cbn zeta in Hverify.
  set (d4 := with_user_sessions (assign k (UserSession.set_last_accessed (clock w1)))
               (txn w1)) in *.
  exists (mkAuthResult (User.set_last_login (clock w) user)
            (Role.name <$> User.roles user) permissions (tokens_of self (clock w) s')),
    w1, (mkWorld d4 d4 [] (clock w1) (entropy w1)).
  split; [exact Hrun|]. split; [reflexivity|]. split; [reflexivity|].
  split; [reflexivity|]. split; [exact Hs'in|].
  split; [apply audited_logged|].
  cbn [ar_tokens ar_user tokens_of access_token].
  unfold get_current_user. rewrite (bind_Return _ _ _ _ _ Hverify).
  unfold payload_user_id. rewrite Huid. unfold bind, ret, read_txn.
  cbn [committed txn faults clock entropy].
  destruct (first_unique User.id
              (fun u => User.id u = User.id user /\ User.is_active u = true)
              (users d4) (User.set_last_login (clock w) user)) as (j & Hj & _).
  { simpl. rewrite fmap_assign_key by (intros []; reflexivity). exact Hpk. }
  { simpl. apply assign_elem. exact Hi. }
  { destruct user. simpl in *. auto. }
  { intros z [Hz _]. rewrite Hz. destruct user; reflexivity. }
  rewrite Hj. reflexivity.
Qed.

End Login.

Section Registration.
Context `{Externals}.

Lemma unique_constraints_add_user (d : Db) (u : User.t) :
  unique_constraints d ->
  User.email u ∉ User.email <$> users d ->
  User.username u ∉ User.username <$> users d ->
  User.uuid u ∉ User.uuid <$> users d ->
  unique_constraints (with_users (add u) d).
Proof.
  intros (He & Hn & Hi & Hs & Hr & Ht) Hfe Hfn Hfi. unfold unique_constraints, add.
  simpl. rewrite !fmap_app. simpl.
  repeat split; try assumption; apply NoDup_app; (split; [assumption|]);
    (split; [| apply NoDup_singleton]); intros x Hx Hx';
    apply list_elem_of_singleton in Hx'; subst x; contradiction.
Qed.

(** X27. [register_user] refuses in this order, each time with a 400 response
    and without changing anything: an e-mail address the validator rejects
    ("Invalid email format"), a weak password (the itemised violations), an
    e-mail address or user name that is already taken, by an active or an
    inactive user ("User with this email or username already exists"), and an
    unknown role ("Role '...' not found"). *)
Theorem register_user_refuses_in_order (w : World) (user_data : UserData)
  (role_name : string) :
  (validate_email (ud_email user_data) = false ->
   register_user user_data role_name w
   = (Raise (HTTPException HTTP_400_BAD_REQUEST (Message "Invalid email format")), w))
  /\ (validate_email (ud_email user_data) = true ->
      is_valid (validate_password_strength (ud_password user_data)) = false ->
      register_user user_data role_name w
      = (Raise (HTTPException HTTP_400_BAD_REQUEST
                  (weak_password (validate_password_strength (ud_password user_data)))),
         w))
  /\ (validate_email (ud_email user_data) = true ->
      is_valid (validate_password_strength (ud_password user_data)) = true ->
      (forall u, u ∈ users (txn w) ->
         User.email u = ud_email user_data
         \/ Some (User.username u) = requested_username user_data ->
         register_user user_data role_name w
         = (Raise (HTTPException HTTP_400_BAD_REQUEST
                     (Message "User with this email or username already exists")), w))
      /\ ((forall u, u ∈ users (txn w) ->
             ~ (User.email u = ud_email user_data
                \/ Some (User.username u) = requested_username user_data)) ->
          (forall r, r ∈ roles (txn w) -> Role.name r <> role_name) ->
          register_user user_data role_name w
          = (Raise (HTTPException HTTP_400_BAD_REQUEST
                      (Message ("Role '" +:+ role_name +:+ "' not found"))), w))).
Proof.
  split; [| split].
  - intros He. unfold register_user. rewrite He. reflexivity.
  - intros He Hweak. unfold register_user. rewrite He, Hweak. reflexivity.
  - intros He Hok. split.
    + intros u Hin Hdup. unfold register_user, bind, read_txn. rewrite He, Hok.
      cbn [negb]. fold (requested_username user_data).
      destruct (first_exists
                  (fun u => User.email u = ud_email user_data
                            \/ Some (User.username u) = requested_username user_data)
                  (users (txn w)) u Hin Hdup) as (i & y & ->).
      reflexivity.
    + intros Hfree Hrole. unfold register_user, bind, read_txn. rewrite He, Hok.
      cbn [negb]. fold (requested_username user_data).
      rewrite (proj2 (first_None _ _)) by exact Hfree.
      rewrite (proj2 (first_None _ _)) by exact Hrole.
      reflexivity.
Qed.

(** X28. A registration that passes the checks (the database accepting the
    commits and the fresh uuid being new) appends exactly one user row: active,
    with the next id, the e-mail address, the requested user name (the e-mail
    address when none was given), the hash of the password and the one role
    asked for; it returns that row's id, names and role, and records a
    "user_registered" audit entry.  No session is opened. *)
Theorem register_user_creates_one_active_user (w : World) (user_data : UserData)
  (role_name username : string) (role : Role.t) :
  validate_email (ud_email user_data) = true ->
  is_valid (validate_password_strength (ud_password user_data)) = true ->
  requested_username user_data = Some username ->
  (forall u, u ∈ users (txn w) ->
     User.email u <> ud_email user_data /\ User.username u <> username) ->
  role ∈ roles (txn w) -> Role.name role = role_name ->
  (forall r, r ∈ roles (txn w) -> Role.name r = role_name -> r = role) ->
  faults w = [] -> unique_constraints (txn w) ->
  uuid4 (S (entropy w)) ∉ User.uuid <$> users (txn w) ->
  exists w1 user,
    register_user user_data role_name w
    = (Return (mkRegisteredUser (User.id user) (User.uuid user) (ud_email user_data)
                 username
                 (ud_first_name user_data +:+ " " +:+ ud_last_name user_data)
                 [role_name]),
       w1)
    /\ users (committed w1) = (users (txn w) ++ [user])%list
    /\ User.id user = next_id User.id (users (txn w))
    /\ User.email user = ud_email user_data /\ User.username user = username
    /\ User.password_hash user
       = bcrypt_hashpw (ud_password user_data) (bcrypt_gensalt (entropy w))
    /\ User.is_active user = true /\ User.roles user = [role]
    /\ user_sessions (committed w1) = user_sessions (txn w)
    /\ exists a, last (audit_logs (committed w1)) = Some a
                 /\ AuditLog.action a = "user_registered"
                 /\ AuditLog.user_id a = Some (User.id user).
Proof.
  intros He Hok Hname Hfree Hrin Hrname Hrone Hf Hu Huuid. subst role_name.
  destruct (first_exists (fun r => Role.name r = Role.name role) (roles (txn w)) role
              Hrin eq_refl) as (k & y & Hrole).
  assert (y = role) as ->.
  { destruct (first_Some _ _ _ _ Hrole) as (Hk & Hy & _).
    apply Hrone; [| exact Hy]. apply list_elem_of_lookup. eauto. }
  set (user :=
         User.mk (next_id User.id (users (txn w))) (uuid4 (S (entropy w)))
                 (ud_email user_data) username
                 (bcrypt_hashpw (ud_password user_data) (bcrypt_gensalt (entropy w)))
                 (ud_first_name user_data) (ud_last_name user_data) (ud_phone user_data)
                 None true false None (ud_company user_data) (ud_job_title user_data)
                 (ud_license_number user_data) (ud_bio user_data)
                 (or_empty_dict (ud_preferences user_data)) [role]).
  assert (Hu1 : unique_constraints (with_users (add user) (txn w))).
  { apply unique_constraints_add_user; [exact Hu | | | exact Huuid]; simpl;
      intros Hin; apply list_elem_of_fmap in Hin; destruct Hin as (u & E & Hin);
      destruct (Hfree u Hin); congruence. }
  eexists. exists user.
  unfold register_user, hash_password, bind, read_txn, draw, modify_txn, ret.
  rewrite He, Hok. cbn [negb]. fold (requested_username user_data). rewrite Hname.
  rewrite (proj2 (first_None _ _)).
  2:{ intros u Hin [E|E]; destruct (Hfree u Hin); congruence. }
  rewrite Hrole. cbn [committed txn faults clock entropy]. fold user.
  rewrite commit_accepts; [| exact Hf | exact Hu1].
  rewrite log_audit_event_accepts; [| reflexivity | exact Hu1].
  repeat (split; [reflexivity|]).
  apply audited_logged.
Qed.

End Registration.

(** ** The operations on the sample database *)

Lemma change_password_checks_in_order_witness :
  change_password 1 "wrong" "abc" sample_world
  = (Raise (HTTPException HTTP_400_BAD_REQUEST (Message "Current password is incorrect")),
     sample_world)
  /\ exists w1,
       change_password 1 "Abcdef1!" "Ghijkl2?" sample_world = (Return true, w1)
       /\ user_sessions (committed w1) = user_sessions sample_db.
Proof.
  split.
  - apply (proj2 (change_password_checks_in_order sample_world 1 "wrong" "abc")
             sample_user sample_user_ids).
    + simpl. left.
    + reflexivity.
    + vm_compute. reflexivity.
  - destruct (proj2 (change_password_checks_in_order sample_world 1 "Abcdef1!" "Ghijkl2?")
                sample_user sample_user_ids) as (_ & _ & Hok).
    + simpl. left.
    + reflexivity.
    + destruct Hok as (w1 & i & Hrun & _ & _ & Hs & _).
      * vm_compute. reflexivity.
      * vm_compute. reflexivity.
      * reflexivity.
      * apply sample_db_integrity.
      * exists w1. split; [exact Hrun | exact Hs].
Defined.

Lemma deactivate_user_ends_every_session_witness :
  deactivate_user 7 1 sample_world = (Return false, sample_world)
  /\ exists w1,
       deactivate_user 1 1 sample_world = (Return true, w1)
       /\ active_sessions 1 (committed w1) = [].
Proof.
  split.
  - apply (proj1 (deactivate_user_ends_every_session sample_world 7 1)).
    intros u Hu. simpl in Hu. apply list_elem_of_singleton in Hu. subst u. simpl. lia.
  - destruct (proj2 (deactivate_user_ends_every_session sample_world 1 1)
                sample_user sample_user_ids) as (w1 & i & Hrun & _ & _ & Hs & _).
    + simpl. left.
    + reflexivity.
    + reflexivity.
    + apply sample_db_integrity.
    + exists w1. split; [exact Hrun | exact Hs].
Defined.

Lemma revoke_session_is_scoped_to_the_owner_witness :
  revoke_session 1 2 sample_world = (Return false, sample_world)
  /\ revoke_session 3 1 sample_world = (Return false, sample_world)
  /\ exists w1,
       revoke_session 1 1 sample_world = (Return true, w1)
       /\ user_sessions (committed w1) !! 1%nat = Some (sample_session 2 "A1.b." "R1.b.j2" true).
Proof.
  split; [| split].
  - apply (proj1 (revoke_session_is_scoped_to_the_owner sample_world 1 2)).
    intros s Hs (_ & Huid & _). simpl in Hs.
    repeat (apply elem_of_cons in Hs; destruct Hs as [-> | Hs]; [discriminate Huid|]).
    inversion Hs.
  - apply (proj1 (revoke_session_is_scoped_to_the_owner sample_world 3 1)).
    intros s Hs (Hid & _ & Hact). simpl in Hs.
    repeat (apply elem_of_cons in Hs;
            destruct Hs as [-> | Hs]; [first [discriminate Hid | discriminate Hact]|]).
    inversion Hs.
  - destruct (proj2 (revoke_session_is_scoped_to_the_owner sample_world 1 1)
                (sample_session 1 "A1.a." "R1.a.j1" true))
      as (w1 & i & Hrun & Hi & _ & Hother & _).
    + apply sample_db_integrity.
    + simpl. left.
    + reflexivity.
    + reflexivity.
    + reflexivity.
    + reflexivity.
    + apply sample_db_integrity.
    + exists w1. split; [exact Hrun|].
      destruct i as [|i]; [| destruct i as [|[|i]]; discriminate Hi].
      rewrite Hother by discriminate. reflexivity.
Defined.

Lemma revoke_all_sessions_without_exception_witness :
  exists w1,
    revoke_all_sessions 1 (Some "") sample_world = (Return 2, w1)
    /\ active_sessions 1 (committed w1) = []
    /\ get_user_sessions 1 w1 = (Return [], w1).
Proof.
  destruct (revoke_all_sessions_without_exception sample_world 1 (Some "")
              eq_refl eq_refl (proj2 sample_db_integrity))
    as (w1 & Hrun & Ha & Hg & _).
  exists w1. split; [exact Hrun|]. split; [exact Ha | exact Hg].
Defined.

Lemma failed_login_does_not_reveal_the_account_witness :
  (exists w1,
     authenticate_user default_auth_service "nobody@x.com" "Abcdef1!" None sample_world
     = (Raise (HTTPException HTTP_401_UNAUTHORIZED (Message "Invalid email or password")),
        w1))
  /\ (exists w1,
        authenticate_user default_auth_service "a@x.com" "guess" None sample_world
        = (Raise (HTTPException HTTP_401_UNAUTHORIZED (Message "Invalid email or password")),
           w1)).
Proof.
  split.
  - destruct (failed_login_does_not_reveal_the_account default_auth_service sample_world
                "nobody@x.com" "Abcdef1!" None eq_refl (proj2 sample_db_integrity))
      as (w1 & a & Hrun & _).
    + intros u Hu [E|E] _; simpl in Hu; apply list_elem_of_singleton in Hu; subst u;
        discriminate E.
    + exists w1. exact Hrun.
  - destruct (failed_login_does_not_reveal_the_account default_auth_service sample_world
                "a@x.com" "guess" None eq_refl (proj2 sample_db_integrity))
      as (w1 & a & Hrun & _).
    + intros u Hu _ _. simpl in Hu. apply list_elem_of_singleton in Hu. subst u.
      vm_compute. reflexivity.
    + exists w1. exact Hrun.
Defined.

Lemma login_opens_a_session_that_authenticates_witness :
  exists r w1 w2,
    authenticate_user default_auth_service "a@x.com" "Abcdef1!" None sample_world
    = (Return r, w1)
    /\ get_current_user default_auth_service (access_token (ar_tokens r)) w1
       = (Return (ar_user r), w2).
Proof.
  destruct (login_opens_a_session_that_authenticates default_auth_service sample_world
              "a@x.com" "Abcdef1!" None sample_user
              (mkPayload (Some 1) (Some "access") None None None))
    as (r & w1 & w2 & Hrun & _ & _ & _ & _ & _ & Hcur).
  - reflexivity.
  - apply sample_db_integrity.
  - simpl. left.
  - left. reflexivity.
  - reflexivity.
  - intros u Hu _ _. simpl in Hu. apply list_elem_of_singleton in Hu. exact Hu.
  - vm_compute. reflexivity.
  - simpl. lia.
  - by_computation.
  - by_computation.
  - vm_compute. reflexivity.
  - reflexivity.
  - reflexivity.
  - exists r, w1, w2. split; [exact Hrun | exact Hcur].
Defined.

Lemma register_user_refuses_in_order_witness :
  register_user (mkUserData "a@x.com" None "Abcdef1!" "Al" "Ex" None None None None None None)
                "client" sample_world
  = (Raise (HTTPException HTTP_400_BAD_REQUEST
              (Message "User with this email or username already exists")), sample_world)
  /\ register_user (mkUserData "b@x.com" None "Abcdef1!" "Bo" "Ray" None None None None None
                               None)
                   "owner" sample_world
     = (Raise (HTTPException HTTP_400_BAD_REQUEST (Message "Role 'owner' not found")),
        sample_world).
Proof.
  split.
  - destruct (register_user_refuses_in_order sample_world
                (mkUserData "a@x.com" None "Abcdef1!" "Al" "Ex" None None None None None
                            None) "client") as (_ & _ & Hchecked).
    destruct Hchecked as [Htaken _].
    + vm_compute. reflexivity.
    + vm_compute. reflexivity.
    + apply (Htaken sample_user).
      * simpl. left.
      * left. reflexivity.
  - destruct (register_user_refuses_in_order sample_world
                (mkUserData "b@x.com" None "Abcdef1!" "Bo" "Ray" None None None None None
                            None) "owner") as (_ & _ & Hchecked).
    destruct Hchecked as [_ Hrole].
    + vm_compute. reflexivity.
    + vm_compute. reflexivity.
    + apply Hrole.
      * intros u Hu. simpl in Hu. apply list_elem_of_singleton in Hu. subst u.
        intros [E|E]; discriminate E.
      * intros r Hr. simpl in Hr. apply list_elem_of_singleton in Hr. subst r.
        discriminate.
Defined.

Lemma register_user_creates_one_active_user_witness :
  exists w1 user,
    register_user (mkUserData "b@x.com" None "Abcdef1!" "Bo" "Ray" None None None None None
                              None)
                  "client" sample_world
    = (Return (mkRegisteredUser 2 (User.uuid user) "b@x.com" "b@x.com" "Bo Ray" ["client"]),
       w1)
    /\ users (committed w1) = [sample_user; user].
Proof.
  destruct (register_user_creates_one_active_user sample_world
              (mkUserData "b@x.com" None "Abcdef1!" "Bo" "Ray" None None None None None None)
              "client" "b@x.com"
              (Role.mk 1 "client" [Permission.mk 1 "read_properties" "properties" "read"]))
    as (w1 & user & Hrun & Husers & Hid & _).
  - vm_compute. reflexivity.
  - vm_compute. reflexivity.
  - reflexivity.
  - intros u Hu. simpl in Hu. apply list_elem_of_singleton in Hu. subst u.
    split; discriminate.
  - simpl. left.
  - reflexivity.
  - intros r Hr _. simpl in Hr. apply list_elem_of_singleton in Hr. exact Hr.
  - reflexivity.
  - apply sample_db_integrity.
  - by_computation.
  - exists w1, user. rewrite Hid in Hrun. split; [exact Hrun | exact Husers].
Defined.
